(** * Shallow embedding of the StarCraft concurrency scaffold

    The development follows the Go sources package by package:

    - [GoInt]     : Go's [int] (64 bit, two's complement, silent wrap-around);
    - [Types]     : package [types] (the unit actor: stats, accessors,
                    command handlers, the processing loop, [SendCommand],
                    [Shutdown], [NewUnit]);
    - [Resources] : package [resources] (the resource manager);
    - [Units]     : package [units] (the unit manager / registry);
    - [Scenario]  : the concrete units and stores of the tests and of the
                    specification's scenarios;
    - [Props]     : callers, the interface as a type of calls, and the
                    notions the statements are worded in;
    - [Enums]     : the remaining enumerations of package [types];
    - [App]       : package [main] (configuration and scenario dispatch);
    - [Geometry]  : [Position.Distance] and [Position.DistanceSq];
    - [Behaviour] : notions for the loop and for what runs preserve.

    The modules after these hold the proofs: [GoIntFacts], [HealthFacts]
    (damage), [LifecycleFacts] (shutdown, submission), [HandlerFacts]
    (handlers, construction), [InvariantFacts] (what every run of the
    program maintains), [SubmissionFacts], [ManagerFacts], [EnumFacts]
    (names and validity), [RunFacts] (what no sequence of calls changes),
    [LoopFacts] (the processing loop), [ApiFacts] (the exported operations
    composed), [AppFacts] and [GeometryFacts].

    Heap-allocated Go objects ([*Unit], [*sync.WaitGroup], maps, channels
    handed to callers) live in an explicit store indexed by addresses, so
    that aliasing (a unit attacking itself, two references to one map) is
    modelled and not assumed away.  Every method of the source that takes
    the unit's mutex for its whole body is one atomic step of the model;
    the mutex itself therefore does not appear.  Concurrency enters through
    the interleaving of such steps ([Props.exec_all]), through the
    scheduler's pick among the ready cases of a [select], and through the
    time a caller has been parked. *)

From Stdlib Require Import ZArith Lia PrimFloat.
From Stdlib Require SpecFloat FloatOps FloatAxioms.
From stdpp Require Import gmap strings list fin_maps pretty.

Local Open Scope Z_scope.

(* ===================================================================== *)
(** * Go's [int] *)
(* ===================================================================== *)

Module GoInt.

Definition min_int : Z := - 2 ^ 63.
Definition max_int : Z := 2 ^ 63 - 1.

(** The values an [int] variable can hold. *)
Definition in_int (z : Z) : Prop := min_int <= z <= max_int.

(** Two's complement wrap-around of a mathematical integer. *)
Definition wrap64 (z : Z) : Z := (z + 2 ^ 63) mod 2 ^ 64 - 2 ^ 63.

Definition add64 (a b : Z) : Z := wrap64 (a + b).
Definition sub64 (a b : Z) : Z := wrap64 (a - b).
Definition mul64 (a b : Z) : Z := wrap64 (a * b).

End GoInt.

Import GoInt.

(* ===================================================================== *)
(** * Package [types] *)
(* ===================================================================== *)

Module Types.

(** ** Enumerations

    Go's [iota] enumerations are plain integers; values outside the named
    constants are legal ([UnitType(999)] in the tests), so they are kept as
    integers here. *)

Definition UnitType := Z.

Definition SCV : UnitType := 0.
Definition Marine : UnitType := 1.
Definition Firebat : UnitType := 2.
Definition Medic : UnitType := 3.
Definition Vulture : UnitType := 4.
Definition SiegeTank : UnitType := 5.
Definition Goliath : UnitType := 6.
Definition Wraith : UnitType := 7.
Definition DropShip : UnitType := 8.
Definition Valkyrie : UnitType := 9.
Definition ScienceVessel : UnitType := 10.
Definition Battlecruiser : UnitType := 11.
Definition Drone : UnitType := 12.
Definition Overlord : UnitType := 13.
Definition Zergling : UnitType := 14.
Definition Hydralisk : UnitType := 15.
Definition Lurker : UnitType := 16.
Definition Mutalisk : UnitType := 17.
Definition Guardian : UnitType := 18.
Definition Devourer : UnitType := 19.
Definition Queen : UnitType := 20.
Definition Ultralisk : UnitType := 21.
Definition Defiler : UnitType := 22.
Definition Probe : UnitType := 23.
Definition Zealot : UnitType := 24.
Definition Dragoon : UnitType := 25.
Definition Templar : UnitType := 26.
Definition DarkTemplar : UnitType := 27.
Definition Shuttle : UnitType := 28.
Definition Reaver : UnitType := 29.
Definition Observer : UnitType := 30.
Definition Corsair : UnitType := 31.
Definition Carrier : UnitType := 32.
Definition Arbiter : UnitType := 33.
Definition unitTypeCount : UnitType := 34.

Definition unitTypeNames : gmap Z string :=
  list_to_map
    [ (SCV, "SCV"); (Marine, "Marine"); (Firebat, "Firebat");
      (Medic, "Medic"); (Vulture, "Vulture"); (SiegeTank, "SiegeTank");
      (Goliath, "Goliath"); (Wraith, "Wraith"); (DropShip, "DropShip");
      (Valkyrie, "Valkyrie"); (ScienceVessel, "ScienceVessel");
      (Battlecruiser, "Battlecruiser"); (Drone, "Drone");
      (Overlord, "Overlord"); (Zergling, "Zergling");
      (Hydralisk, "Hydralisk"); (Lurker, "Lurker");
      (Mutalisk, "Mutalisk"); (Guardian, "Guardian");
      (Devourer, "Devourer"); (Queen, "Queen");
      (Ultralisk, "Ultralisk"); (Defiler, "Defiler"); (Probe, "Probe");
      (Zealot, "Zealot"); (Dragoon, "Dragoon"); (Templar, "Templar");
      (DarkTemplar, "DarkTemplar"); (Shuttle, "Shuttle");
      (Reaver, "Reaver"); (Observer, "Observer"); (Corsair, "Corsair");
      (Carrier, "Carrier"); (Arbiter, "Arbiter") ]%string.

(** [func (ut UnitType) String() string] *)
Definition UnitType_String (ut : UnitType) : string :=
  match unitTypeNames !! ut with
  | Some name => name
  | None => ("UnitType(" ++ pretty ut ++ ")")%string
  end.

Definition UnitType_IsValid (ut : UnitType) : bool :=
  (SCV <=? ut) && (ut <? unitTypeCount).

Definition UnitState := Z.

Definition Idle : UnitState := 0.
Definition Moving : UnitState := 1.
Definition Attacking : UnitState := 2.
Definition Defending : UnitState := 3.
Definition HoldingPosition : UnitState := 4.
Definition Patrolling : UnitState := 5.
Definition Repairing : UnitState := 6.
Definition Building : UnitState := 7.
Definition Dead : UnitState := 8.
Definition unitStateCount : UnitState := 9.

Definition UnitState_IsValid (us : UnitState) : bool :=
  (Idle <=? us) && (us <? unitStateCount).

Definition ElevationLayer := Z.

Definition Burrowed : ElevationLayer := 0.
Definition Ground : ElevationLayer := 1.
Definition Air : ElevationLayer := 2.

Definition CommandType := Z.

Definition CmdMove : CommandType := 0.
Definition CmdAttack : CommandType := 1.
Definition CmdStop : CommandType := 2.
Definition CmdHold : CommandType := 3.

Definition UnitEventType := Z.

Definition EventDamaged : UnitEventType := 0.
Definition EventKilled : UnitEventType := 1.
Definition EventDied : UnitEventType := 2.
Definition EventMoved : UnitEventType := 3.
Definition EventIdle : UnitEventType := 4.

(** ** Value types *)

Record Position := mkPosition { X : float; Y : float }.

(** [UnitStatsData]: one entry of the embedded stats table. *)
Record UnitStatsData := mkStats {
  MaxHealth : Z;
  BaseDamage : Z;
  BaseArmor : Z;
  ArmorModifier : Z;
  AttackModifier : Z;
  AttackRange : Z;
  VisionRange : Z;
  ElevationLayerName : string
}.

(** Addresses of heap objects.  A Go pointer that may be [nil] is an
    [option ptr]. *)
Definition ptr := positive.

Record Command := mkCommand {
  cmd_Type : CommandType;
  cmd_Target : option ptr;
  cmd_Dest : Position
}.

(** [Timestamp] is the reading of the wall clock, in nanoseconds; the
    [Data] field is never set by this package and stays [nil]. *)
Record UnitEvent := mkEvent {
  ev_Type : UnitEventType;
  ev_Source : option ptr;
  ev_Target : option ptr;
  ev_Timestamp : Z
}.

(** A buffered Go channel. *)
Record Chan (A : Type) := mkChan {
  ch_cap : nat;
  ch_buf : list A;
  ch_closed : bool
}.
Arguments mkChan {A} _ _ _.
Arguments ch_cap {A} _.
Arguments ch_buf {A} _.
Arguments ch_closed {A} _.

(** [make(chan A, n)] *)
Definition make_chan {A} (n : nat) : Chan A := mkChan n [] false.

Definition chan_full {A} (c : Chan A) : bool := (ch_cap c <=? length (ch_buf c))%nat.

Definition chan_push {A} (x : A) (c : Chan A) : Chan A :=
  mkChan (ch_cap c) (ch_buf c ++ [x]) (ch_closed c).

(** ** The unit

    [ctxDone] is the state of the unit's private context ([ctx]/[cancel]):
    [cancel()] sets it, [<-ctx.Done()] is ready exactly when it is set.
    [shutdownOnce] is the [done] flag of the [sync.Once]. *)
Record Unit := mkUnit {
  ID : string;
  Type_ : UnitType;
  health : Z;
  maxHealth : Z;
  baseDamage : Z;
  baseArmor : Z;
  attackModifier : Z;
  armorModifier : Z;
  attackUpgrades : Z;
  armorUpgrades : Z;
  attackRange : Z;
  visionRange : Z;
  state : UnitState;
  elevationLayer : ElevationLayer;
  position : Position;
  target : option ptr;
  commands : Chan Command;
  events : Chan UnitEvent;
  ctxDone : bool;
  wg : ptr;
  shutdownOnce : bool
}.

Definition set_health (v : Z) (u : Unit) : Unit :=
  mkUnit (ID u) (Type_ u) v (maxHealth u) (baseDamage u) (baseArmor u)
    (attackModifier u) (armorModifier u) (attackUpgrades u) (armorUpgrades u)
    (attackRange u) (visionRange u) (state u) (elevationLayer u) (position u)
    (target u) (commands u) (events u) (ctxDone u) (wg u) (shutdownOnce u).

Definition set_state (v : UnitState) (u : Unit) : Unit :=
  mkUnit (ID u) (Type_ u) (health u) (maxHealth u) (baseDamage u) (baseArmor u)
    (attackModifier u) (armorModifier u) (attackUpgrades u) (armorUpgrades u)
    (attackRange u) (visionRange u) v (elevationLayer u) (position u)
    (target u) (commands u) (events u) (ctxDone u) (wg u) (shutdownOnce u).

Definition set_position (v : Position) (u : Unit) : Unit :=
  mkUnit (ID u) (Type_ u) (health u) (maxHealth u) (baseDamage u) (baseArmor u)
    (attackModifier u) (armorModifier u) (attackUpgrades u) (armorUpgrades u)
    (attackRange u) (visionRange u) (state u) (elevationLayer u) v
    (target u) (commands u) (events u) (ctxDone u) (wg u) (shutdownOnce u).

Definition set_target (v : option ptr) (u : Unit) : Unit :=
  mkUnit (ID u) (Type_ u) (health u) (maxHealth u) (baseDamage u) (baseArmor u)
    (attackModifier u) (armorModifier u) (attackUpgrades u) (armorUpgrades u)
    (attackRange u) (visionRange u) (state u) (elevationLayer u) (position u)
    v (commands u) (events u) (ctxDone u) (wg u) (shutdownOnce u).

Definition set_commands (v : Chan Command) (u : Unit) : Unit :=
  mkUnit (ID u) (Type_ u) (health u) (maxHealth u) (baseDamage u) (baseArmor u)
    (attackModifier u) (armorModifier u) (attackUpgrades u) (armorUpgrades u)
    (attackRange u) (visionRange u) (state u) (elevationLayer u) (position u)
    (target u) v (events u) (ctxDone u) (wg u) (shutdownOnce u).

Definition set_events (v : Chan UnitEvent) (u : Unit) : Unit :=
  mkUnit (ID u) (Type_ u) (health u) (maxHealth u) (baseDamage u) (baseArmor u)
    (attackModifier u) (armorModifier u) (attackUpgrades u) (armorUpgrades u)
    (attackRange u) (visionRange u) (state u) (elevationLayer u) (position u)
    (target u) (commands u) v (ctxDone u) (wg u) (shutdownOnce u).

Definition set_ctxDone (v : bool) (u : Unit) : Unit :=
  mkUnit (ID u) (Type_ u) (health u) (maxHealth u) (baseDamage u) (baseArmor u)
    (attackModifier u) (armorModifier u) (attackUpgrades u) (armorUpgrades u)
    (attackRange u) (visionRange u) (state u) (elevationLayer u) (position u)
    (target u) (commands u) (events u) v (wg u) (shutdownOnce u).

Definition set_shutdownOnce (v : bool) (u : Unit) : Unit :=
  mkUnit (ID u) (Type_ u) (health u) (maxHealth u) (baseDamage u) (baseArmor u)
    (attackModifier u) (armorModifier u) (attackUpgrades u) (armorUpgrades u)
    (attackRange u) (visionRange u) (state u) (elevationLayer u) (position u)
    (target u) (commands u) (events u) (ctxDone u) (wg u) v.

(** ** The store

    [units] holds every allocated [Unit]; [waitGroups] the counter of every
    [sync.WaitGroup]; [loops] the units whose [run] goroutine has been
    started and has not returned; [console] what [fmt.Printf] and
    [log.Printf] wrote, in order, kept as data instead of formatted text. *)
Inductive LogLine :=
| LogUnknownType (name : string)
| LogNoTarget (id : string)
| LogCommand (id : string) (cmd : Command).

Record World := mkWorld {
  units : gmap ptr Unit;
  waitGroups : gmap ptr Z;
  loops : gset ptr;
  console : list LogLine
}.

Definition set_units (m : gmap ptr Unit) (w : World) : World :=
  mkWorld m (waitGroups w) (loops w) (console w).
Definition set_waitGroups (m : gmap ptr Z) (w : World) : World :=
  mkWorld (units w) m (loops w) (console w).
Definition set_loops (s : gset ptr) (w : World) : World :=
  mkWorld (units w) (waitGroups w) s (console w).
Definition set_console (l : list LogLine) (w : World) : World :=
  mkWorld (units w) (waitGroups w) (loops w) l.

(** ** Results of running a piece of code

    [Ok a w]    : ran to completion with value [a] in store [w];
    [Blocked w] : the goroutine is parked on a channel operation that no
                  other party completes; [w] is the store at that point;
    [Panic msg] : a run-time panic. *)
Inductive Res (A : Type) : Type :=
| Ok (a : A) (w : World)
| Blocked (w : World)
| Panic (msg : string).
Arguments Ok {A} _ _.
Arguments Blocked {A} _.
Arguments Panic {A} _.

Definition M (A : Type) : Type := World -> Res A.

Definition ret {A} (a : A) : M A := fun w => Ok a w.

Definition bind {A B} (m : M A) (k : A -> M B) : M B :=
  fun w =>
    match m w with
    | Ok a w' => k a w'
    | Blocked w' => Blocked w'
    | Panic msg => Panic msg
    end.

Declare Scope go_scope.
Delimit Scope go_scope with go.
Notation "'let*' x := m 'in' k" := (bind m (fun x => k))
  (at level 10, x name, m at level 100, k at level 200) : go_scope.
Notation "m ';;;' k" := (bind m (fun _ => k))
  (at level 100, k at level 200, right associativity) : go_scope.
Local Open Scope go_scope.

Definition nil_deref : string :=
  "runtime error: invalid memory address or nil pointer dereference".

(** Reading and writing the unit behind a pointer. *)
Definition load (p : ptr) : M Unit :=
  fun w =>
    match units w !! p with
    | Some u => Ok u w
    | None => Panic nil_deref
    end.

Definition store (p : ptr) (u : Unit) : M unit :=
  fun w => Ok tt (set_units (<[p := u]> (units w)) w).

Definition modify (p : ptr) (f : Unit -> Unit) : M unit :=
  let* u := load p in store p (f u).

Definition printf (l : LogLine) : M unit :=
  fun w => Ok tt (set_console (console w ++ [l]) w).

(** ** Accessors and mutators *)

Definition GetHealth (u : ptr) : M Z :=
  let* r := load u in ret (health r).

Definition GetDamage (u : ptr) : M Z :=
  let* r := load u in
  ret (add64 (baseDamage r) (mul64 (attackModifier r) (attackUpgrades r))).

Definition GetArmor (u : ptr) : M Z :=
  let* r := load u in
  let totalArmor := add64 (baseArmor r) (mul64 (armorModifier r) (armorUpgrades r)) in
  ret totalArmor.

Definition GetState (u : ptr) : M UnitState :=
  let* r := load u in ret (state r).

Definition GetPosition (u : ptr) : M Position :=
  let* r := load u in ret (position r).

Definition GetTarget (u : ptr) : M (option ptr) :=
  let* r := load u in ret (target r).

Definition SetState (u : ptr) (s : UnitState) : M unit :=
  modify u (set_state s).

Definition SetPosition (u : ptr) (pos : Position) : M unit :=
  modify u (set_position pos).

Definition SetTarget (u : ptr) (t : option ptr) : M unit :=
  modify u (set_target t).

(** [func (u *Unit) TakeDamage(amount int) int] *)
Definition TakeDamage (u : ptr) (amount : Z) : M Z :=
  let* r := load u in
  let h := sub64 (health r) amount in
  let h := if h <? 0 then 0 else h in
  store u (set_health h r) ;;;
  ret h.

(** [func (u *Unit) CalculateDamageAgainst(target *Unit) int] *)
Definition CalculateDamageAgainst (u target : ptr) : M Z :=
  let* targetArmor := GetArmor target in
  let* dmg := GetDamage u in
  let result := sub64 dmg targetArmor in
  if result <? 0 then ret 0 else ret result.

(** ** Channel operations and [select] *)

(** [u.events <- ev] outside a [select]: parks while the buffer is full. *)
Definition send_events (u : ptr) (ev : UnitEvent) : M unit :=
  fun w =>
    match units w !! u with
    | None => Panic nil_deref
    | Some r =>
        if ch_closed (events r) then Panic "send on closed channel"
        else if chan_full (events r) then Blocked w
        else store u (set_events (chan_push ev (events r)) r) w
    end.

(** A [select] without [default]: each case is a readiness flag and a
    continuation.  With no ready case the goroutine parks; among several
    ready cases the run time picks one, here the [pick]-th of the ready
    ones (modulo their number). *)
Definition go_select {A} (cases : list (bool * M A)) (pick : nat) : M A :=
  let ready := filter (fun c => fst c = true) cases in
  match ready !! (pick mod length ready)%nat with
  | Some c => snd c
  | None => fun w => Blocked w
  end.

(** ** Command handlers

    [now] is the value [time.Now()] returns when the handler asks for it. *)

Definition handleMove (u : ptr) (cmd : Command) (now : Z) : M unit :=
  SetState u Moving ;;;
  SetPosition u (cmd_Dest cmd) ;;;
  let moveEvent := mkEvent EventMoved (Some u) None now in
  send_events u moveEvent.

Definition handleAttack (u : ptr) (cmd : Command) (now : Z) : M unit :=
  match cmd_Target cmd with
  | None =>
      let* r := load u in
      printf (LogNoTarget (ID r))
  | Some t =>
      SetState u Attacking ;;;
      SetTarget u (Some t) ;;;
      let* dmg := CalculateDamageAgainst u t in
      let* _ := TakeDamage t dmg in
      let attackEvent := mkEvent EventDamaged (Some u) (Some t) now in
      send_events u attackEvent
  end.

Definition handleStop (u : ptr) (cmd : Command) : M unit :=
  SetState u Idle ;;;
  SetTarget u None.

Definition handleHold (u : ptr) (cmd : Command) : M unit :=
  SetState u HoldingPosition.

(** ** The processing loop *)

(** [wg.Add(delta)]; also [wg.Done()] as [wg_Add wg (-1)]. *)
Definition wg_Add (wg : ptr) (delta : Z) : M unit :=
  fun w =>
    match waitGroups w !! wg with
    | None => Panic nil_deref
    | Some n =>
        if n + delta <? 0 then Panic "sync: negative WaitGroup counter"
        else Ok tt (set_waitGroups (<[wg := n + delta]> (waitGroups w)) w)
    end.

(** The loop's goroutine ends: the deferred [u.wg.Done()] runs. *)
Definition run_return (u : ptr) : M bool :=
  let* r := load u in
  wg_Add (wg r) (-1) ;;;
  (fun w => Ok false (set_loops (loops w ∖ {[u]}) w)).

(** The [switch cmd.Type] of the loop; a type outside the four named ones
    matches no case. *)
Definition dispatch (u : ptr) (cmd : Command) (now : Z) : M unit :=
  if cmd_Type cmd =? CmdMove then handleMove u cmd now
  else if cmd_Type cmd =? CmdAttack then handleAttack u cmd now
  else if cmd_Type cmd =? CmdStop then handleStop u cmd
  else if cmd_Type cmd =? CmdHold then handleHold u cmd
  else ret tt.

(** [case cmd, ok := <-u.commands]: ready when a command is buffered or the
    channel is closed; on a closed and drained channel [ok] is false. *)
Definition run_recv (u : ptr) (now : Z) : M bool :=
  let* r := load u in
  match ch_buf (commands r) with
  | [] => run_return u
  | cmd :: rest =>
      store u (set_commands (mkChan (ch_cap (commands r)) rest (ch_closed (commands r))) r) ;;;
      dispatch u cmd now ;;;
      let* r' := load u in
      printf (LogCommand (ID r') cmd) ;;;
      ret true
  end.

(** One iteration of the [for { select { ... } }] of [run]; the result says
    whether the loop goes round again. *)
Definition run_iter (u : ptr) (pick : nat) (now : Z) : M bool :=
  let* r := load u in
  go_select
    [ (negb (bool_decide (ch_buf (commands r) = [])) || ch_closed (commands r), run_recv u now);
      (ctxDone r, run_return u) ]
    pick.

(** [func (u *Unit) run()], for at most [fuel] iterations; [sched i] and
    [clock i] are the scheduler's pick and the clock reading of iteration
    [i].  The result is [true] when the fuel ran out before the loop
    returned. *)
Fixpoint run (fuel : nat) (u : ptr) (sched : nat -> nat) (clock : nat -> Z) : M bool :=
  match fuel with
  | O => ret true
  | S n =>
      let* again := run_iter u (sched O) (clock O) in
      if again then run n u (fun i => sched (S i)) (fun i => clock (S i))
      else ret false
  end.

(** ** [SendCommand] and [Shutdown] *)

Definition errShuttingDown : string := "unit is shutting down".
Definition errBackpressure : string := "command queue full - backpressure".

(** Capacity of the command and event channels, [make(chan _, 10)]. *)
Definition inboxCapacity : nat := 10.

(** [100 * time.Millisecond], in milliseconds. *)
Definition sendTimeout : Z := 100.

(** First [select] of [SendCommand] (with [default]): [Some err] when the
    method returns [err] at once, [None] when it falls through. *)
Definition SendCommand_check (u : ptr) : M (option string) :=
  let* r := load u in
  if ctxDone r then ret (Some errShuttingDown) else ret None.

(** [case u.commands <- cmd]: the send proceeds, and panics on a closed
    channel. *)
Definition send_commands (u : ptr) (cmd : Command) : M (option string) :=
  let* r := load u in
  if ch_closed (commands r) then (fun _ => Panic "send on closed channel")
  else store u (set_commands (chan_push cmd (commands r)) r) ;;; ret None.

(** Second [select] of [SendCommand], evaluated on the store as it is when
    the goroutine has been parked in it for [waited] milliseconds: the send
    case is ready when the buffer has room (or the channel is closed), the
    [ctx.Done()] case when the context is cancelled, the [time.After] case
    when 100ms have passed.  The error is [None] for Go's [nil]. *)
Definition SendCommand_select (u : ptr) (cmd : Command) (waited : Z) (pick : nat)
  : M (option string) :=
  let* r := load u in
  go_select
    [ (negb (chan_full (commands r)) || ch_closed (commands r), send_commands u cmd);
      (ctxDone r, ret (Some errShuttingDown));
      (sendTimeout <=? waited, ret (Some errBackpressure)) ]
    pick.

(** [func (u *Unit) SendCommand(cmd Command) error] with no other goroutine
    acting on the unit between its two [select]s. *)
Definition SendCommand (u : ptr) (cmd : Command) (waited : Z) (pick : nat)
  : M (option string) :=
  let* early := SendCommand_check u in
  match early with
  | Some err => ret (Some err)
  | None => SendCommand_select u cmd waited pick
  end.

(** [u.cancel()] *)
Definition cancel (u : ptr) : M unit :=
  modify u (set_ctxDone true).

(** [close(u.commands)] *)
Definition close_commands (u : ptr) : M unit :=
  let* r := load u in
  if ch_closed (commands r) then (fun _ => Panic "close of closed channel")
  else store u (set_commands (mkChan (ch_cap (commands r)) (ch_buf (commands r)) true) r).

(** [func (u *Unit) Shutdown()]: [shutdownOnce.Do] runs its argument only
    while the flag is unset, and sets the flag when the argument returns. *)
Definition Shutdown (u : ptr) : M unit :=
  let* r := load u in
  if shutdownOnce r then ret tt
  else
    cancel u ;;;
    close_commands u ;;;
    modify u (set_shutdownOnce true).

(** ** Construction *)

Definition defaultStats : UnitStatsData :=
  mkStats 50 5 0 1 0 4 7 "Ground".

(** The [switch stats.ElevationLayer] of [initializeStats]. *)
Definition parseLayer (name : string) : ElevationLayer :=
  if String.eqb name "Ground" then Ground
  else if String.eqb name "Air" then Air
  else if String.eqb name "Burrowed" then Burrowed
  else Ground.

(** [func initializeStats(u *Unit, unitType UnitType)]; [cache] is the
    package variable [unitStatsCache], filled by [init] from the embedded
    [unit_stats.json]. *)
Definition initializeStats (cache : gmap string UnitStatsData) (u : ptr) (unitType : UnitType)
  : M unit :=
  let* stats :=
    match cache !! UnitType_String unitType with
    | Some stats => ret stats
    | None => printf (LogUnknownType (UnitType_String unitType)) ;;; ret defaultStats
    end in
  let* r := load u in
  let layer := parseLayer (ElevationLayerName stats) in
  store u
    (mkUnit (ID r) (Type_ r) (MaxHealth stats) (MaxHealth stats) (BaseDamage stats)
       (BaseArmor stats) (AttackModifier stats) (ArmorModifier stats) 0 0
       (AttackRange stats) (VisionRange stats) (state r) layer (position r)
       (target r) (commands r) (events r) (ctxDone r) (wg r) (shutdownOnce r)).

(** [new(Unit)]: the address of a fresh unit holding [r]. *)
Definition alloc (r : Unit) : M ptr :=
  fun w =>
    let p := fresh (dom (units w)) in
    Ok p (set_units (<[p := r]> (units w)) w).

(** [go u.run()] *)
Definition go_run (u : ptr) : M unit :=
  fun w => Ok tt (set_loops ({[u]} ∪ loops w) w).

(** [func NewUnit(id string, unitType UnitType, pos Position, wg *sync.WaitGroup) *Unit] *)
Definition NewUnit (cache : gmap string UnitStatsData)
  (id : string) (unitType : UnitType) (pos : Position) (wg : ptr) : M ptr :=
  let* u :=
    alloc (mkUnit id unitType 0 0 0 0 0 0 0 0 0 0 Idle 0 pos None
             (make_chan inboxCapacity) (make_chan inboxCapacity) false wg false) in
  initializeStats cache u unitType ;;;
  wg_Add wg 1 ;;;
  go_run u ;;;
  ret u.

End Types.

(* ===================================================================== *)
(** * Package [resources] *)
(* ===================================================================== *)

Module Resources.

Import Types.

(** Modelled from the spec: the ledger entry [types.Resource] is referred to
    by [ResourceManager.resources] but declared nowhere in the sources; the
    data model gives it a name, a current amount in [0, max], a maximum and
    a low threshold. *)
Record Resource := mkResource {
  res_name : string;
  res_current : Z;
  res_max : Z;
  res_lowThreshold : Z
}.

Definition TransactionType := Z.

Definition Allocate : TransactionType := 0.
Definition Reserve : TransactionType := 1.
Definition Release : TransactionType := 2.
Definition Transfer : TransactionType := 3.
Definition Batch : TransactionType := 4.

(** [Error] is [None] for a [nil] error, [AllocatedResources] is [None] for
    a [nil] map; [Timestamp] is a clock reading. *)
Record TransactionResult := mkResult {
  Success : bool;
  Error : option string;
  AllocatedResources : option (gmap string Z);
  ReservationID : string;
  Timestamp : Z
}.

(** The zero value [TransactionResult{}]. *)
Definition zeroResult : TransactionResult := mkResult false None None "" 0.

(** [Response] is the address of the response channel ([None] for [nil]);
    [Timeout] is in nanoseconds. *)
Record ResourceTransaction := mkTransaction {
  tx_ID : string;
  tx_Type : TransactionType;
  tx_Resources : gmap string Z;
  tx_Timeout : Z;
  tx_Response : option ptr;
  tx_Priority : Z;
  tx_Requester : string
}.

(** The fields of [ResourceManager] that hold the ledger and the
    transaction queue; the rate limiter, generators, listeners and life
    cycle fields are written by no function of the package. *)
Record ResourceManager := mkManager {
  resources : gmap string Resource;
  transactions : Chan ResourceTransaction;
  lowThresholds : gmap string Z;
  isRunning : bool
}.

(** The store of this package: the managers and the response channels
    allocated so far. *)
Record Store := mkStore {
  managers : gmap ptr ResourceManager;
  channels : gmap ptr (Chan TransactionResult)
}.

(** [func NewResourceManager(ctx, initialResources) *ResourceManager]:
    the body is [return nil]. *)
Definition NewResourceManager (initialResources : gmap string Z) (s : Store)
  : option ptr * Store :=
  (None, s).

(** [func (rm *ResourceManager) AddResource(name, initial, maxCap) error]:
    the body is [return nil]. *)
Definition AddResource (rm : option ptr) (name : string) (initial maxCap : Z) (s : Store)
  : option string * Store :=
  (None, s).

(** [func (rm *ResourceManager) AllocateResources(requester, resources,
    timeout) <-chan TransactionResult]: makes the response channel
    ([make(chan TransactionResult, 1)]) and returns it; nothing else. *)
Definition AllocateResources (rm : option ptr) (requester : string)
  (deltas : gmap string Z) (timeout : Z) (s : Store) : ptr * Store :=
  let response := fresh (dom (channels s)) in
  (response, mkStore (managers s) (<[response := make_chan 1]> (channels s))).

(** [func (rm *ResourceManager) transactionProcessor()]: the body is empty,
    the goroutine returns at once. *)
Definition transactionProcessor (rm : option ptr) (s : Store) : Store := s.

(** [func (rm *ResourceManager) validateTransaction(tx) error]: [return nil]. *)
Definition validateTransaction (rm : option ptr) (tx : ResourceTransaction) (s : Store)
  : option string :=
  None.

(** [func (rm *ResourceManager) executeTransaction(tx) TransactionResult]:
    [return TransactionResult{}]. *)
Definition executeTransaction (rm : option ptr) (tx : ResourceTransaction) (s : Store)
  : TransactionResult * Store :=
  (zeroResult, s).

(** [func (rm *ResourceManager) GetResourceLevels() map[string]int]:
    [return nil]. *)
Definition GetResourceLevels (rm : option ptr) (s : Store) : option (gmap string Z) :=
  None.

(** What a receive [<-ch] on a response channel yields at once: the oldest
    buffered result, or [None] when the receiver has to wait. *)
Definition try_recv (ch : ptr) (s : Store) : option TransactionResult :=
  match channels s !! ch with
  | Some c => head (ch_buf c)
  | None => None
  end.

(** The amount of a resource as the ledger of manager [rm] holds it. *)
Definition current_of (rm : ptr) (name : string) (s : Store) : option Z :=
  match managers s !! rm with
  | Some m => res_current <$> resources m !! name
  | None => None
  end.

End Resources.

(* ===================================================================== *)
(** * Package [units] *)
(* ===================================================================== *)

Module Units.

(** The fields of [UnitManager] the registry functions are about.  A Go map
    is a reference: [um_units] is the address of the map object in the
    store, [None] for a [nil] map. *)
Record UnitManager := mkUnitManager {
  um_units : option Types.ptr;
  commandWorkers : Z;
  um_isRunning : bool
}.

Record Store := mkStore {
  managers : gmap Types.ptr UnitManager;
  maps : gmap Types.ptr (gmap string Types.ptr)
}.



(** [func NewUnitManager(ctx, commandWorkers) *UnitManager]: [return nil]. *)
Definition NewUnitManager (commandWorkers : Z) (s : Store) : option Types.ptr * Store :=
  (None, s).

(** [func (um *UnitManager) AddUnit(unit *types.Unit) error]: [return nil]. *)
Definition AddUnit (um : option Types.ptr) (unit : option Types.ptr) (s : Store)
  : option string * Store :=
  (None, s).

(** [func (um *UnitManager) RemoveUnit(unitID string) error]: [return nil]. *)
Definition RemoveUnit (um : option Types.ptr) (unitID : string) (s : Store)
  : option string * Store :=
  (None, s).

(** [func (um *UnitManager) GetUnit(unitID string)], returning a unit
    pointer and a flag: [return nil, false]. *)
Definition GetUnit (um : option Types.ptr) (unitID : string) (s : Store)
  : option Types.ptr * bool :=
  (None, false).

(** [func (um *UnitManager) GetAllUnits() map[string]*types.Unit]:
    [return nil]. *)
Definition GetAllUnits (um : option Types.ptr) (s : Store) : option Types.ptr * Store :=
  (None, s).

(** ** Callers

    What code outside the package can do with unit managers: take the
    reference [NewUnitManager] returns, make a zero [UnitManager] of its own
    ([new(units.UnitManager)]; the fields are unexported, so it cannot set
    them), and call the registry functions. *)

(** [new(units.UnitManager)]: every field has its zero value, the registry
    map is [nil]. *)
Definition new_zero (s : Store) : option Types.ptr * Store :=
  let a := fresh (dom (managers s)) in
  (Some a, mkStore (<[a := mkUnitManager None 0 false]> (managers s)) (maps s)).

Inductive Call :=
| CallNewUnitManager (commandWorkers : Z)
| CallZero
| CallAddUnit (um unit : option Types.ptr)
| CallRemoveUnit (um : option Types.ptr) (unitID : string)
| CallGetUnit (um : option Types.ptr) (unitID : string)
| CallGetAllUnits (um : option Types.ptr).

(** The store a call leaves. *)
Definition exec (c : Call) (s : Store) : Store :=
  match c with
  | CallNewUnitManager n => snd (NewUnitManager n s)
  | CallZero => snd (new_zero s)
  | CallAddUnit um unit => snd (AddUnit um unit s)
  | CallRemoveUnit um unitID => snd (RemoveUnit um unitID s)
  | CallGetUnit um unitID => s
  | CallGetAllUnits um => snd (GetAllUnits um s)
  end.

Definition exec_all (cs : list Call) (s : Store) : Store :=
  foldl (fun s c => exec c s) s cs.




End Units.

(* ===================================================================== *)
(** * Concrete scenarios *)
(* ===================================================================== *)

Module Scenario.

Import Types.

(** Modelled from the spec: the embedded table [unit_stats.json] is not
    among the sources.  The entries are the values the scenarios of the
    specification and the package's tests state (Marine: 40 health, 6
    damage, 0 armor; Zergling: 35 health, 5 damage, 0 armor; Zealot: 100
    health, 16 damage, 1 armor); modifiers, ranges and layers, which no
    scenario states, are placeholders. *)
Definition sampleStats : gmap string UnitStatsData :=
  list_to_map
    [ ("Marine", mkStats 40 6 0 1 1 4 7 "Ground");
      ("Zergling", mkStats 35 5 0 1 1 1 5 "Ground");
      ("Zealot", mkStats 100 16 1 1 1 1 7 "Ground") ]%string.

Definition origin : Position := mkPosition 0%float 0%float.

(** A process that has declared one [sync.WaitGroup], at address 1. *)
Definition world0 : World := mkWorld ∅ {[ 1%positive := 0 ]} ∅ [].

(** The store a computation leaves behind. *)
Definition after {A} (m : M A) (w : World) : World :=
  match m w with
  | Ok _ w' => w'
  | Blocked w' => w'
  | Panic _ => w
  end.

(** The value a computation returns, if it returns. *)
Definition value {A} (m : M A) (w : World) : option A :=
  match m w with
  | Ok a _ => Some a
  | _ => None
  end.

(** [marine := NewUnit("marine-1", Marine, Position{}, &wg)] and
    [zergling := NewUnit("zergling-1", Zergling, Position{}, &wg)]. *)
Definition marine : ptr := 1%positive.
Definition zergling : ptr := 2%positive.

(** The two units as [NewUnit] leaves them. *)
Definition marineUnit : Unit :=
  mkUnit "marine-1" Marine 40 40 6 0 1 1 0 0 4 7 Idle Ground origin None
    (make_chan inboxCapacity) (make_chan inboxCapacity) false 1%positive false.

Definition zerglingUnit : Unit :=
  mkUnit "zergling-1" Zergling 35 35 5 0 1 1 0 0 1 5 Idle Ground origin None
    (make_chan inboxCapacity) (make_chan inboxCapacity) false 1%positive false.

Definition w_marine : World :=
  Eval vm_compute in after (NewUnit sampleStats "marine-1" Marine origin 1%positive) world0.

Definition w_duel : World :=
  Eval vm_compute in after (NewUnit sampleStats "zergling-1" Zergling origin 1%positive) w_marine.

(** A stats table of [int] entries in which the Marine's base damage is
    the least [int]; [NewUnit] builds a Marine and then a Zealot from it. *)
Definition extremeStats : gmap string UnitStatsData :=
  list_to_map
    [ ("Marine", mkStats 40 GoInt.min_int 0 1 1 4 7 "Ground");
      ("Zealot", mkStats 100 16 1 1 1 1 7 "Ground") ]%string.

Definition zealot : ptr := 2%positive.

Definition w_extreme : World :=
  Eval vm_compute in
    after (NewUnit extremeStats "zealot-1" Zealot origin 1%positive)
      (after (NewUnit extremeStats "marine-1" Marine origin 1%positive) world0).

Definition stopCmd : Command := mkCommand CmdStop None origin.

(** The Marine with ten [Stop] commands waiting in its inbox. *)
Definition marineFull : Unit :=
  set_commands (mkChan inboxCapacity (replicate 10 stopCmd) false) marineUnit.

Definition w_full : World :=
  mkWorld {[ marine := marineFull ]} (waitGroups w_marine) (loops w_marine) [].

Definition attackZergling : Command := mkCommand CmdAttack (Some zergling) origin.
Definition attackNobody : Command := mkCommand CmdAttack None origin.
Definition moveCmd : Command := mkCommand CmdMove None (mkPosition 100%float 200%float).

(** The Marine's state has been set to [Dead] (through the exported
    [SetState]) and a move order is then submitted to it. *)
Definition w_dead : World :=
  Eval vm_compute in
    after (SendCommand marine moveCmd 0 0) (after (SetState marine Dead) w_duel).

(** The same with an attack order against the Zergling. *)
Definition w_dead_attacker : World :=
  Eval vm_compute in
    after (SendCommand marine attackZergling 0 0) (after (SetState marine Dead) w_duel).

(** Scenario "resource exhaustion": a manager at address 1 whose ledger
    holds minerals, current 10 of at most 100. *)
Definition ledger : Resources.Store :=
  Resources.mkStore
    {[ 1%positive :=
         Resources.mkManager
           {[ "minerals"%string := Resources.mkResource "minerals" 10 100 20 ]}
           (make_chan 100) ∅ true ]}
    ∅.

End Scenario.

(* ===================================================================== *)
(** * Callers and specification-side notions *)
(* ===================================================================== *)

Module Props.

Import Types.
Local Open Scope go_scope.

(** A caller that applies [TakeDamage] once per amount, in order, and
    collects the returned values. *)
Fixpoint TakeDamage_all (u : ptr) (amounts : list Z) : M (list Z) :=
  match amounts with
  | [] => ret []
  | a :: rest =>
      let* h := TakeDamage u a in
      let* hs := TakeDamage_all u rest in
      ret (h :: hs)
  end.

(** The healths a run of [TakeDamage] calls goes through as the
    specification words it ("subtracts, clamps at 0, returns new value"),
    for a given subtraction: [Z.sub] for the mathematical integers of the
    specification, [sub64] for Go's [int]. *)
Fixpoint clamped_healths (sub : Z -> Z -> Z) (h : Z) (amounts : list Z) : list Z :=
  match amounts with
  | [] => []
  | a :: rest =>
      let h' := Z.max 0 (sub h a) in
      h' :: clamped_healths sub h' rest
  end.

(** A caller that invokes [Shutdown] [n] times in a row. *)
Fixpoint Shutdown_times (n : nat) (u : ptr) : M unit :=
  match n with
  | O => ret tt
  | S k => Shutdown u ;;; Shutdown_times k u
  end.

(** [SendCommand] on a store that no other goroutine touches during the
    call: the second [select] is tried at once, and if the caller is parked
    there it is resumed when the 100ms timer fires. *)
Definition SendCommand_alone (u : ptr) (cmd : Command) (pick : nat) : M (option string) :=
  fun w =>
    match SendCommand u cmd 0 pick w with
    | Blocked _ => SendCommand u cmd sendTimeout pick w
    | res => res
    end.

(** A caller that submits the same command [n] times in a row while the
    unit's loop does not run, and collects the errors. *)
Fixpoint SendCommand_burst (n : nat) (u : ptr) (cmd : Command) : M (list (option string)) :=
  match n with
  | O => ret []
  | S k =>
      let* e := SendCommand_alone u cmd 0 in
      let* es := SendCommand_burst k u cmd in
      ret (e :: es)
  end.

(** Effective damage and armor as the specification words them, over the
    mathematical integers: base + modifier × upgrades. *)
Definition effectiveDamage (r : Unit) : Z :=
  baseDamage r + attackModifier r * attackUpgrades r.

Definition effectiveArmor (r : Unit) : Z :=
  baseArmor r + armorModifier r * armorUpgrades r.

(** The stats of [r] are such that Go computes the effective values without
    wrapping around. *)
Definition damage_fits (r : Unit) : Prop :=
  in_int (attackModifier r * attackUpgrades r) /\ in_int (effectiveDamage r).

Definition armor_fits (r : Unit) : Prop :=
  in_int (armorModifier r * armorUpgrades r) /\ in_int (effectiveArmor r).

(** What the life cycle code maintains for every unit: the command channel
    is closed exactly when the [sync.Once] has fired, the context is
    cancelled from then on, and the event channel is never closed. *)
Definition unit_inv (r : Unit) : Prop :=
  (shutdownOnce r = true -> ctxDone r = true) /\
  ch_closed (commands r) = shutdownOnce r /\
  ch_closed (events r) = false.

Definition world_inv (w : World) : Prop :=
  forall p r, units w !! p = Some r -> unit_inv r.

(** The unit after the body of the [sync.Once] has run: context cancelled,
    command channel closed, flag set. *)
Definition shut_down (r : Unit) : Unit :=
  set_shutdownOnce true
    (set_commands (mkChan (ch_cap (commands r)) (ch_buf (commands r)) true)
       (set_ctxDone true r)).

(** The fields the accessors expose, together. *)
Definition observable (r : Unit) :=
  (health r, maxHealth r, state r, position r, target r,
   (baseDamage r, attackModifier r, attackUpgrades r),
   (baseArmor r, armorModifier r, armorUpgrades r)).

(** The calls through which the rest of the program, and the unit's own
    goroutine, act on the units: the constructor, the exported mutators,
    [SendCommand], [Shutdown], and one iteration of a unit's loop. *)
Inductive Call :=
| CallNewUnit (cache : gmap string UnitStatsData) (id : string) (unitType : UnitType)
              (pos : Position) (wg : ptr)
| CallSetState (u : ptr) (s : UnitState)
| CallSetPosition (u : ptr) (pos : Position)
| CallSetTarget (u : ptr) (t : option ptr)
| CallTakeDamage (u : ptr) (amount : Z)
| CallSendCommand (u : ptr) (cmd : Command) (waited : Z) (pick : nat)
| CallShutdown (u : ptr)
| CallRunIter (u : ptr) (pick : nat) (now : Z).

Definition exec (c : Call) : M unit :=
  match c with
  | CallNewUnit cache id unitType pos wg => NewUnit cache id unitType pos wg ;;; ret tt
  | CallSetState u s => SetState u s
  | CallSetPosition u pos => SetPosition u pos
  | CallSetTarget u t => SetTarget u t
  | CallTakeDamage u amount => TakeDamage u amount ;;; ret tt
  | CallSendCommand u cmd waited pick => SendCommand u cmd waited pick ;;; ret tt
  | CallShutdown u => Shutdown u
  | CallRunIter u pick now => run_iter u pick now ;;; ret tt
  end.

(** The store after a call: where it returned or parked; a call that
    panics stops the program, and the store is left as it was. *)
Definition exec_store (c : Call) (w : World) : World :=
  match exec c w with
  | Ok _ w' => w'
  | Blocked w' => w'
  | Panic _ => w
  end.

(** The store after a sequence of calls, in any interleaving the scheduler
    may have chosen. *)
Fixpoint exec_all (cs : list Call) (w : World) : World :=
  match cs with
  | [] => w
  | c :: rest => exec_all rest (exec_store c w)
  end.

(** How a unit may change over its life: the life cycle invariant is kept,
    and a cancelled context, a fired [sync.Once] stay so. *)
Definition evolves (r r' : Unit) : Prop :=
  (unit_inv r -> unit_inv r') /\
  (ctxDone r = true -> ctxDone r' = true) /\
  (shutdownOnce r = true -> shutdownOnce r' = true).

(** How the store may change: units are never removed, each evolves, and
    a new unit satisfies the life cycle invariant. *)
Definition store_evolves (w w' : World) : Prop :=
  (forall p r, units w !! p = Some r ->
     exists r', units w' !! p = Some r' /\ evolves r r') /\
  (forall p r', units w' !! p = Some r' -> units w !! p = None -> unit_inv r').

(** An outcome that evolves the store [w]. *)
Definition evolved {A} (w : World) (res : Res A) : Prop :=
  match res with
  | Ok _ w' => store_evolves w w'
  | Blocked w' => store_evolves w w'
  | Panic _ => True
  end.

(** A computation all of whose outcomes evolve the store. *)
Definition sound {A} (m : M A) : Prop := forall w, evolved w (m w).

(** Every entry of a stats table holds Go [int]s. *)
Definition cache_typed (cache : gmap string UnitStatsData) : Prop :=
  forall name s, cache !! name = Some s ->
    in_int (MaxHealth s) /\ in_int (BaseDamage s) /\ in_int (BaseArmor s).

End Props.

(* ===================================================================== *)
(** * Package [types]: the remaining enumerations *)
(* ===================================================================== *)

Module Enums.

Import Types.

Definition unitStateNames : gmap Z string :=
  list_to_map
    [ (Idle, "Idle"); (Moving, "Moving"); (Attacking, "Attacking");
      (Defending, "Defending"); (HoldingPosition, "HoldingPosition");
      (Patrolling, "Patrolling"); (Repairing, "Repairing");
      (Building, "Building"); (Dead, "Dead") ]%string.

(** [func (us UnitState) String() string] *)
Definition UnitState_String (us : UnitState) : string :=
  match unitStateNames !! us with
  | Some name => name
  | None => ("UnitState(" ++ pretty us ++ ")")%string
  end.

Definition elevationLayerCount : ElevationLayer := 3.

Definition elevationLayerNames : gmap Z string :=
  list_to_map [ (Burrowed, "Burrowed"); (Ground, "Ground"); (Air, "Air") ]%string.

(** [func (el ElevationLayer) String() string] *)
Definition ElevationLayer_String (el : ElevationLayer) : string :=
  match elevationLayerNames !! el with
  | Some name => name
  | None => ("ElevationLayer(" ++ pretty el ++ ")")%string
  end.

(** [func (el ElevationLayer) IsValid() bool] *)
Definition ElevationLayer_IsValid (el : ElevationLayer) : bool :=
  (Burrowed <=? el) && (el <? elevationLayerCount).

Definition TerrainType := Z.

Definition LowGround : TerrainType := 0.
Definition MiddleGround : TerrainType := 1.
Definition HighGround : TerrainType := 2.
Definition LowMiddleRamp : TerrainType := 3.
Definition MiddleHighRamp : TerrainType := 4.
Definition Water : TerrainType := 5.
Definition terrainTypeCount : TerrainType := 6.

Definition terrainTypeNames : gmap Z string :=
  list_to_map
    [ (LowGround, "LowGround"); (MiddleGround, "MiddleGround");
      (HighGround, "HighGround"); (LowMiddleRamp, "LowMiddleRamp");
      (MiddleHighRamp, "MiddleHighRamp"); (Water, "Water") ]%string.

(** [func (tt TerrainType) String() string] *)
Definition TerrainType_String (tt : TerrainType) : string :=
  match terrainTypeNames !! tt with
  | Some name => name
  | None => ("TerrainType(" ++ pretty tt ++ ")")%string
  end.

(** [func (tt TerrainType) IsValid() bool] *)
Definition TerrainType_IsValid (tt : TerrainType) : bool :=
  (LowGround <=? tt) && (tt <? terrainTypeCount).

End Enums.

(* ===================================================================== *)
(** * Package [main] *)
(* ===================================================================== *)

Module App.

(** [Config]; durations are in nanoseconds. *)
Record Config := mkConfig {
  TickRate : Z;
  BattleDuration : Z;
  NumberOfUnits : Z;
  CommandWorkers : Z;
  Scenario : string;
  LogLevel : string;
  OutputFormat : string;
  EnableProfiling : bool;
  ProfilePort : Z;
  MetricsPort : Z
}.

Definition millisecond : Z := 1000000.
Definition minute : Z := 60 * 1000 * millisecond.

(** [func parseFlags() Config]: no flag is read yet, the fixed
    configuration is returned. *)
Definition parseFlags : Config :=
  mkConfig (100 * millisecond) (5 * minute) 10 4 "basic-combat" "info" "console"
    false 0 0.

(** Of an [Application] only the configuration is read by the functions
    below. *)
Record Application := mkApplication { config : Config }.

(** [func NewApplication(config Config) *Application]: [return nil]. *)
Definition NewApplication (cfg : Config) : option Application := None.

(** What a scenario run yields: the lines written to standard output and
    the error ([None] for [nil]), or a panic. *)
Inductive Outcome :=
| Returned (printed : list string) (err : option string)
| Panicked (msg : string).

Definition runBasicCombatScenario : Outcome :=
  Returned [ "Running Basic Combat Scenario...";
             "TODO: Implement basic combat - see comments for guidance" ]%string None.

Definition runResourceManagementScenario : Outcome :=
  Returned [ "Running Resource Management Scenario...";
             "TODO: Implement resource management - see comments for guidance" ]%string None.

Definition runCoordinationScenario : Outcome :=
  Returned [ "Running Coordination Scenario...";
             "TODO: Implement coordination - see comments for guidance" ]%string None.

Definition runStressTestScenario : Outcome :=
  Returned [ "Running Stress Test Scenario...";
             "TODO: Implement stress test - see comments for guidance" ]%string None.

(** [func (app *Application) runScenario() error]; reading [app.config]
    through a [nil] receiver panics. *)
Definition runScenario (app : option Application) : Outcome :=
  match app with
  | None => Panicked Types.nil_deref
  | Some a =>
      if String.eqb (Scenario (config a)) "basic-combat" then runBasicCombatScenario
      else if String.eqb (Scenario (config a)) "resource-management"
      then runResourceManagementScenario
      else if String.eqb (Scenario (config a)) "coordination-test" then runCoordinationScenario
      else if String.eqb (Scenario (config a)) "stress-test" then runStressTestScenario
      else Returned [] (Some ("unknown scenario: " ++ Scenario (config a))%string)
  end.

(** The case labels of the [switch] in [runScenario]. *)
Definition scenarioNames : list string :=
  [ "basic-combat"; "resource-management"; "coordination-test"; "stress-test" ]%string.

End App.

(* ===================================================================== *)
(** * Package [types]: distances between positions *)
(* ===================================================================== *)

Module Geometry.

Import Types.

(** Go's [float64] is the kernel's binary64 [float]; every operation is
    rounded on its own, as the compiler does where it does not fuse a
    multiplication with an addition, and all NaNs are one value. *)

(** [func (p Position) Distance(other Position) float64] *)
Definition Distance (p other : Position) : float :=
  let dx := (X other - X p)%float in
  let dy := (Y other - Y p)%float in
  PrimFloat.sqrt (dx * dx + dy * dy)%float.

(** [func (p Position) DistanceSq(other Position) float64] *)
Definition DistanceSq (p other : Position) : float :=
  let dx := (X other - X p)%float in
  let dy := (Y other - Y p)%float in
  (dx * dx + dy * dy)%float.

(** A float of the specification whose sign bit, if it has one, is [s]. *)
Definition signed (s : bool) (a : SpecFloat.spec_float) : Prop :=
  match a with
  | SpecFloat.S754_zero s' | SpecFloat.S754_infinity s' | SpecFloat.S754_finite s' _ _ => s' = s
  | SpecFloat.S754_nan => True
  end.

End Geometry.

(* ===================================================================== *)
(** * Notions for the behaviour of the loop and for what runs preserve *)
(* ===================================================================== *)

Module Behaviour.

Import Types Props.
Local Open Scope go_scope.

(** The commands whose handling sends no event: everything but a move
    order and an attack order that names a target. *)
Definition quiet (cmd : Command) : bool :=
  negb (cmd_Type cmd =? CmdMove) &&
  negb ((cmd_Type cmd =? CmdAttack) && bool_decide (is_Some (cmd_Target cmd))).

(** What handling a quiet command does to the unit's record ... *)
Definition quiet_effect (cmd : Command) (r : Unit) : Unit :=
  if cmd_Type cmd =? CmdAttack then r
  else if cmd_Type cmd =? CmdStop then set_target None (set_state Idle r)
  else if cmd_Type cmd =? CmdHold then set_state HoldingPosition r
  else r.

(** ... and what it writes to the console. *)
Definition quiet_log (id : string) (cmd : Command) : list LogLine :=
  (if cmd_Type cmd =? CmdAttack then [LogNoTarget id] else []) ++ [LogCommand id cmd].

(** The unit with its inbox emptied. *)
Definition drained (r : Unit) : Unit :=
  set_commands (mkChan (ch_cap (commands r)) [] (ch_closed (commands r))) r.

(** A store that differs from [w] in the record of unit [u] and in what was
    written to the console. *)
Definition with_unit (u : ptr) (r : Unit) (lines : list LogLine) (w : World) : World :=
  mkWorld (<[u := r]> (units w)) (waitGroups w) (loops w) (console w ++ lines).

(** The store after the loop of unit [u] has handled the quiet commands
    [cmds] from first to last. *)
Definition handled (u : ptr) (r : Unit) (cmds : list Command) (w : World) : World :=
  with_unit u (foldl (fun r c => quiet_effect c r) (drained r) cmds)
    (concat (map (quiet_log (ID r)) cmds)) w.

(** The store after the loop of unit [u], whose WaitGroup counter was [n],
    has handled the first [k] commands of its inbox and returned. *)
Definition returned (u : ptr) (r : Unit) (k : nat) (n : Z) (w : World) : World :=
  mkWorld
    (<[u := foldl (fun r c => quiet_effect c r)
              (set_commands (mkChan (ch_cap (commands r)) (drop k (ch_buf (commands r)))
                               (ch_closed (commands r))) r)
              (take k (ch_buf (commands r)))]> (units w))
    (<[wg r := n - 1]> (waitGroups w))
    (loops w ∖ {[u]})
    (console w ++ concat (map (quiet_log (ID r)) (take k (ch_buf (commands r))))).


(** The unit after its loop has taken the first command out of the inbox
    and [handleMove] has set state and position, before the event is sent. *)
Definition moving (cmd : Command) (r : Unit) : Unit :=
  set_position (cmd_Dest cmd)
    (set_state Moving
       (set_commands (mkChan (ch_cap (commands r)) (tail (ch_buf (commands r)))
                        (ch_closed (commands r))) r)).

(** ... and after the event has been buffered. *)
Definition moved (u : ptr) (cmd : Command) (now : Z) (r : Unit) : Unit :=
  set_events (chan_push (mkEvent EventMoved (Some u) None now) (events r)) (moving cmd r).

(** Free slots of the event channel. *)
Definition events_free (r : Unit) : nat :=
  (ch_cap (events r) - length (ch_buf (events r)))%nat.

Definition all_moves (cmds : list Command) : bool :=
  forallb (fun cmd => cmd_Type cmd =? CmdMove) cmds.

(** The Marine after nine moves, with two more move orders in its inbox. *)
Definition marineMarching : Unit :=
  set_events
    (mkChan inboxCapacity
       (replicate 9 (mkEvent EventMoved (Some Scenario.marine) None 0)) false)
    (set_commands (mkChan inboxCapacity (replicate 2 Scenario.moveCmd) false)
       Scenario.marineUnit).

Definition w_march : World :=
  mkWorld {[ Scenario.marine := marineMarching ]}
    (waitGroups Scenario.w_marine) (loops Scenario.w_marine) [].

(** Free slots of the inbox. *)
Definition inbox_free (r : Unit) : nat :=
  (ch_cap (commands r) - length (ch_buf (commands r)))%nat.

(** The fields no function of the package writes after construction. *)
Definition static (r : Unit) :=
  (ID r, Type_ r, maxHealth r, (baseDamage r, attackModifier r, attackUpgrades r),
   (baseArmor r, armorModifier r, armorUpgrades r), (attackRange r, visionRange r),
   elevationLayer r, wg r, (ch_cap (commands r), ch_cap (events r))).

(** Both channel buffers are within their capacity. *)
Definition within_capacity (r : Unit) : Prop :=
  (length (ch_buf (commands r)) <= ch_cap (commands r))%nat /\
  (length (ch_buf (events r)) <= ch_cap (events r))%nat.

Definition all_within_capacity (w : World) : Prop :=
  forall p r, units w !! p = Some r -> within_capacity r.

Definition no_unit_Dead (w : World) : Prop :=
  forall p r, units w !! p = Some r -> state r <> Dead.

(** A relation [R] between the records of one unit, lifted to stores: every
    unit of [w] is still there in [w'], related by [R], and every unit that
    is new in [w'] satisfies [N]. *)
Definition store_rel (R : Unit -> Unit -> Prop) (N : Unit -> Prop) (w w' : World) : Prop :=
  (forall p r, units w !! p = Some r -> exists r', units w' !! p = Some r' /\ R r r') /\
  (forall p r', units w' !! p = Some r' -> units w !! p = None -> N r').

Definition res_rel (R : Unit -> Unit -> Prop) (N : Unit -> Prop) {A}
  (w : World) (res : Res A) : Prop :=
  match res with
  | Ok _ w' => store_rel R N w w'
  | Blocked w' => store_rel R N w w'
  | Panic _ => True
  end.

Definition respects (R : Unit -> Unit -> Prop) (N : Unit -> Prop) {A} (m : M A) : Prop :=
  forall w, res_rel R N w (m w).

(** The calls that may break [R] are the [SetState] calls, which store any
    integer they are given. *)
Definition call_respects (R : Unit -> Unit -> Prop) (c : Call) : Prop :=
  match c with
  | CallSetState _ s => forall r, R r (set_state s r)
  | _ => True
  end.

(** A call that is not [SetState(Dead)]. *)
Definition not_SetState_Dead (c : Call) : Prop :=
  match c with
  | CallSetState _ s => s <> Dead
  | _ => True
  end.

(** The record [NewUnit] builds. *)
Definition new_unit (cache : gmap string UnitStatsData) (id : string) (unitType : UnitType)
  (pos : Position) (wg : ptr) : Unit :=
  let s := default defaultStats (cache !! UnitType_String unitType) in
  mkUnit id unitType (MaxHealth s) (MaxHealth s) (BaseDamage s) (BaseArmor s)
    (AttackModifier s) (ArmorModifier s) 0 0 (AttackRange s) (VisionRange s)
    Idle (parseLayer (ElevationLayerName s)) pos None
    (make_chan inboxCapacity) (make_chan inboxCapacity) false wg false.

End Behaviour.

(* ===================================================================== *)
(** * Facts about Go's [int] *)
(* ===================================================================== *)

Module GoIntFacts.

Lemma wrap64_in_int z : in_int (wrap64 z).
Proof.
  unfold in_int, wrap64, min_int, max_int.
  pose proof (Z.mod_pos_bound (z + 2 ^ 63) (2 ^ 64) ltac:(lia)). lia.
Qed.

Lemma wrap64_id z : in_int z -> wrap64 z = z.
Proof.
  unfold in_int, wrap64, min_int, max_int. intros Hz.
  rewrite Z.mod_small by lia. lia.
Qed.

Lemma mul64_0_r a : mul64 a 0 = 0.
Proof. unfold mul64. rewrite Z.mul_0_r. reflexivity. Qed.

Lemma add64_0_r a : in_int a -> add64 a 0 = a.
Proof. intros Ha. unfold add64. rewrite Z.add_0_r. now apply wrap64_id. Qed.

Lemma sub64_exact a b : in_int (a - b) -> sub64 a b = a - b.
Proof. apply wrap64_id. Qed.

End GoIntFacts.

(* ===================================================================== *)
(** * The unit: health and damage *)
(* ===================================================================== *)

Module HealthFacts.

Import Types Props GoIntFacts Scenario.
Local Open Scope go_scope.

(** The health [TakeDamage] leaves: Go's difference, floored at 0. *)
Lemma TakeDamage_step w u r amount :
  units w !! u = Some r ->
  TakeDamage u amount w =
    let h := sub64 (health r) amount in
    let h := if h <? 0 then 0 else h in
    Ok h (set_units (<[u := set_health h r]> (units w)) w).
Proof.
  intros Hu. unfold TakeDamage, bind, load, store, ret. rewrite Hu. reflexivity.
Qed.

Lemma TakeDamage_nonneg w u r amount :
  units w !! u = Some r ->
  exists h w',
    TakeDamage u amount w = Ok h w' /\
    units w' !! u = Some (set_health h r) /\ 0 <= h.
Proof.
  intros Hu. rewrite (TakeDamage_step _ _ _ _ Hu). cbv zeta.
  eexists _, _. split; [reflexivity|]. split.
  - cbn. apply lookup_insert_eq.
  - destruct (sub64 (health r) amount <? 0) eqn:E; [lia|]. apply Z.ltb_ge in E. lia.
Qed.

Lemma floor_is_max h : (if h <? 0 then 0 else h) = Z.max 0 h.
Proof. destruct (Z.ltb_spec h 0); lia. Qed.

Lemma set_health_set_health h1 h2 r : set_health h2 (set_health h1 r) = set_health h2 r.
Proof. destruct r; reflexivity. Qed.

Lemma set_health_same r : set_health (health r) r = r.
Proof. destruct r; reflexivity. Qed.

(** Whatever the amounts, a run of [TakeDamage] calls completes, returns
    the healths it goes through in Go's arithmetic, and writes nothing but
    the health of the unit. *)
Lemma TakeDamage_all_trace (amounts : list Z) : forall w u r,
  units w !! u = Some r ->
  let hs := clamped_healths sub64 (health r) amounts in
  let r' := set_health (default (health r) (last hs)) r in
  TakeDamage_all u amounts w = Ok hs (set_units (<[u := r']> (units w)) w).
Proof.
  induction amounts as [|a rest IH]; intros w u r Hu; cbv zeta.
  - cbn. unfold ret. rewrite set_health_same, (insert_id _ _ _ Hu). destruct w; reflexivity.
  - cbn [TakeDamage_all clamped_healths]. unfold bind at 1.
    rewrite (TakeDamage_step _ _ _ _ Hu). cbv zeta. rewrite floor_is_max.
    set (h := Z.max 0 (sub64 (health r) a)).
    set (w1 := set_units _ w).
    assert (Hu1 : units w1 !! u = Some (set_health h r)) by apply lookup_insert_eq.
    unfold bind at 1. rewrite (IH w1 u _ Hu1). cbv zeta. unfold ret.
    change (health (set_health h r)) with h.
    rewrite set_health_set_health. subst w1. cbn [units set_units].
    rewrite insert_insert_eq.
    replace (default (health r) (last (h :: clamped_healths sub64 h rest)))
      with (default h (last (clamped_healths sub64 h rest))).
    + reflexivity.
    + rewrite last_cons. destruct (last (clamped_healths sub64 h rest)); reflexivity.
Qed.

(** The values are not negative, whatever the subtraction. *)
Lemma clamped_healths_nonneg sub (amounts : list Z) : forall h,
  Forall (fun x => 0 <= x) (clamped_healths sub h amounts).
Proof.
  induction amounts as [|a rest IH]; intros h; cbn; constructor; [lia|apply IH].
Qed.

(** With amounts that are not negative Go's subtraction is exact, ... *)
Lemma clamped_healths_exact (amounts : list Z) : forall h,
  0 <= h <= max_int ->
  Forall (fun a => 0 <= a /\ in_int a) amounts ->
  clamped_healths sub64 h amounts = clamped_healths Z.sub h amounts.
Proof.
  induction amounts as [|a rest IH]; intros h Hh Hall; [reflexivity|].
  inversion Hall as [|? ? [Ha0 Ha] Hrest]; subst. cbn.
  assert (E : sub64 h a = h - a).
  { apply sub64_exact. unfold in_int, min_int, max_int in *. lia. }
  rewrite E. f_equal. apply IH; [lia|assumption].
Qed.

(** ... the health cannot grow, and a health of 0 stays 0. *)
Lemma clamped_healths_descend (amounts : list Z) : forall h,
  0 <= h ->
  Forall (fun a => 0 <= a) amounts ->
  let hs := clamped_healths Z.sub h amounts in
  Forall (fun x => x <= h) hs /\
  (forall i j x, (i <= j)%nat -> hs !! i = Some 0 -> hs !! j = Some x -> x = 0) /\
  (h = 0 -> Forall (fun x => x = 0) hs).
Proof.
  induction amounts as [|a rest IH]; intros h Hh Hall; cbv zeta.
  - cbn. split; [constructor|]. split; [|constructor]. intros i j x _ Hi. discriminate.
  - inversion Hall as [|? ? Ha Hrest]; subst. cbn [clamped_healths].
    set (h1 := Z.max 0 (h - a)).
    destruct (IH h1 ltac:(lia) Hrest) as (Hle & Hzero & Hstay). cbv zeta in *.
    split; [|split].
    + constructor; [lia|]. eapply Forall_impl; [exact Hle|]. cbn. intros; lia.
    + intros i j x Hij Hi Hj. destruct i as [|i], j as [|j]; cbn in Hi, Hj.
      * congruence.
      * injection Hi as Hi.
        pose proof (proj1 (Forall_lookup _ _) (Hstay Hi) j x Hj) as Hx. exact Hx.
      * lia.
      * apply (Hzero i j x); [lia|assumption|assumption].
    + intros ->. assert (H1 : h1 = 0) by lia. constructor; [exact H1|]. now apply Hstay.
Qed.

Lemma last_Forall {A} (P : A -> Prop) (l : list A) x :
  Forall P l -> last l = Some x -> P x.
Proof.
  intros Hall Hlast. apply (proj1 (Forall_forall _ _) Hall).
  apply last_Some in Hlast as [l' ->]. apply elem_of_app. right. now left.
Qed.

(** C1 (as amended).  From a health in [0, maxHealth], any sequence of
    [TakeDamage] calls with [int] amounts completes; each call stores and
    returns max(0, health - amount) in Go's arithmetic, a value that is not
    negative; the unit is left with the last value returned and nothing but
    its health is written.  When no amount is negative each call returns
    max(0, health - amount) exactly, so the health never grows, stays at or
    below [maxHealth], and once it is 0 it stays 0. *)
Theorem TakeDamage_health_bounds w u r (amounts : list Z) :
  units w !! u = Some r ->
  0 <= health r <= maxHealth r ->
  in_int (maxHealth r) ->
  Forall in_int amounts ->
  exists hs w' r',
    TakeDamage_all u amounts w = Ok hs w' /\
    hs = clamped_healths sub64 (health r) amounts /\
    units w' !! u = Some r' /\
    r' = set_health (default (health r) (last hs)) r /\
    maxHealth r' = maxHealth r /\
    (forall p, p <> u -> units w' !! p = units w !! p) /\
    0 <= health r' /\
    Forall (fun h => 0 <= h) hs /\
    (Forall (fun a => 0 <= a) amounts ->
       hs = clamped_healths Z.sub (health r) amounts /\
       health r' <= health r /\
       health r' <= maxHealth r /\
       Forall (fun h => h <= maxHealth r) hs /\
       (forall i j h, (i <= j)%nat -> hs !! i = Some 0 -> hs !! j = Some h -> h = 0) /\
       (health r = 0 -> health r' = 0)).
Proof.
  intros Hu Hh Hmax Hamounts.
  pose proof (TakeDamage_all_trace amounts w u r Hu) as Hrun. cbv zeta in Hrun.
  set (hs := clamped_healths sub64 (health r) amounts) in *.
  set (r' := set_health (default (health r) (last hs)) r) in *.
  pose proof (clamped_healths_nonneg sub64 amounts (health r)) as Hpos. fold hs in Hpos.
  assert (Hfinal : 0 <= health r').
  { subst r'. cbn. destruct (last hs) as [x|] eqn:El; cbn; [|lia].
    exact (last_Forall _ _ _ Hpos El). }
  exists hs, (set_units (<[u := r']> (units w)) w), r'.
  split; [exact Hrun|]. split; [reflexivity|]. split; [apply lookup_insert_eq|].
  split; [reflexivity|]. split; [reflexivity|].
  split; [intros p Hp; cbn; now rewrite lookup_insert_ne by congruence|].
  split; [exact Hfinal|]. split; [exact Hpos|].
  intros Hnonneg.
  assert (Hex : hs = clamped_healths Z.sub (health r) amounts).
  { subst hs. apply clamped_healths_exact.
    - unfold in_int, max_int in *. lia.
    - apply Forall_and; split; assumption. }
  destruct (clamped_healths_descend amounts (health r) ltac:(lia) Hnonneg)
    as (Hle & Hzero & Hstay). cbv zeta in *. rewrite <- Hex in Hle, Hzero, Hstay.
  assert (Hfin : health r' <= health r).
  { subst r'. cbn. destruct (last hs) as [x|] eqn:El; cbn; [|lia].
    exact (last_Forall _ _ _ Hle El). }
  split; [exact Hex|]. split; [exact Hfin|]. split; [lia|].
  split; [eapply Forall_impl; [exact Hle|]; cbn; intros; lia|].
  split; [exact Hzero|]. lia.
Qed.

Lemma TakeDamage_health_bounds_witness :
  exists hs w' r',
    TakeDamage_all marine [10; 100; 3] w_marine = Ok hs w' /\
    hs = clamped_healths sub64 (health marineUnit) [10; 100; 3] /\
    units w' !! marine = Some r' /\
    r' = set_health (default (health marineUnit) (last hs)) marineUnit /\
    maxHealth r' = maxHealth marineUnit /\
    (forall p, p <> marine -> units w' !! p = units w_marine !! p) /\
    0 <= health r' /\
    Forall (fun h => 0 <= h) hs /\
    (Forall (fun a => 0 <= a) [10; 100; 3] ->
       hs = clamped_healths Z.sub (health marineUnit) [10; 100; 3] /\
       health r' <= health marineUnit /\
       health r' <= maxHealth marineUnit /\
       Forall (fun h => h <= maxHealth marineUnit) hs /\
       (forall i j h, (i <= j)%nat -> hs !! i = Some 0 -> hs !! j = Some h -> h = 0) /\
       (health marineUnit = 0 -> health r' = 0)).
Proof.
  refine (TakeDamage_health_bounds w_marine marine marineUnit [10; 100; 3] _ _ _ _).
  - vm_compute. reflexivity.
  - cbn. lia.
  - vm_compute. split; discriminate.
  - repeat constructor; vm_compute; discriminate.
Defined.

(** C1 as stated fails: a negative amount is a legal [int], and the Marine
    (40 of 40 health) that takes [-10] damage is left with 50 health, above
    its [maxHealth] of 40. *)
Lemma TakeDamage_negative_amount_exceeds_maxHealth :
  units w_marine !! marine ≫= (fun r => Some (health r, maxHealth r)) = Some (40, 40) /\
  in_int (-10) /\
  value (TakeDamage marine (-10)) w_marine = Some 50 /\
  units (after (TakeDamage marine (-10)) w_marine) !! marine
    ≫= (fun r => Some (health r, maxHealth r)) = Some (50, 40) /\
  ~ (50 <= 40).
Proof.
  repeat split; try (vm_compute; reflexivity); try (vm_compute; discriminate).
  lia.
Qed.

Lemma GetDamage_eq w u r :
  units w !! u = Some r ->
  GetDamage u w =
    Ok (add64 (baseDamage r) (mul64 (attackModifier r) (attackUpgrades r))) w.
Proof. intros Hu. unfold GetDamage, bind, load, ret. rewrite Hu. reflexivity. Qed.

Lemma GetArmor_eq w u r :
  units w !! u = Some r ->
  GetArmor u w =
    Ok (add64 (baseArmor r) (mul64 (armorModifier r) (armorUpgrades r))) w.
Proof. intros Hu. unfold GetArmor, bind, load, ret. rewrite Hu. reflexivity. Qed.

Lemma GetDamage_exact w u r :
  units w !! u = Some r -> damage_fits r ->
  GetDamage u w = Ok (effectiveDamage r) w.
Proof.
  intros Hu [Hmul Hsum]. rewrite (GetDamage_eq _ _ _ Hu).
  unfold add64, mul64. rewrite (wrap64_id _ Hmul).
  unfold effectiveDamage in Hsum. rewrite (wrap64_id _ Hsum). reflexivity.
Qed.

Lemma GetArmor_exact w u r :
  units w !! u = Some r -> armor_fits r ->
  GetArmor u w = Ok (effectiveArmor r) w.
Proof.
  intros Hu [Hmul Hsum]. rewrite (GetArmor_eq _ _ _ Hu).
  unfold add64, mul64. rewrite (wrap64_id _ Hmul).
  unfold effectiveArmor in Hsum. rewrite (wrap64_id _ Hsum). reflexivity.
Qed.

(** What [CalculateDamageAgainst] computes, in Go's arithmetic; it reads
    both units and leaves the store as it was. *)
Lemma CalculateDamageAgainst_eq w u t ru rt :
  units w !! u = Some ru ->
  units w !! t = Some rt ->
  CalculateDamageAgainst u t w =
    Ok (Z.max 0
          (sub64 (add64 (baseDamage ru) (mul64 (attackModifier ru) (attackUpgrades ru)))
                 (add64 (baseArmor rt) (mul64 (armorModifier rt) (armorUpgrades rt))))) w.
Proof.
  intros Hu Ht. unfold CalculateDamageAgainst. unfold bind at 1.
  rewrite (GetArmor_eq _ _ _ Ht). unfold bind at 1. rewrite (GetDamage_eq _ _ _ Hu).
  destruct (_ <? 0) eqn:E; unfold ret; f_equal.
  - apply Z.ltb_lt in E. lia.
  - apply Z.ltb_ge in E. lia.
Qed.

(** Even when the stats make Go's arithmetic wrap around, the result is not
    negative. *)
Lemma CalculateDamageAgainst_nonneg w u t ru rt :
  units w !! u = Some ru ->
  units w !! t = Some rt ->
  exists d, CalculateDamageAgainst u t w = Ok d w /\ 0 <= d.
Proof.
  intros Hu Ht. rewrite (CalculateDamageAgainst_eq _ _ _ _ _ Hu Ht).
  eexists. split; [reflexivity|]. lia.
Qed.

(** C3 (as amended).  For every attacker and target,
    [CalculateDamageAgainst] returns max(0, d - a) in Go's arithmetic, where
    d is what [GetDamage] returns for the attacker and a what [GetArmor]
    returns for the target; the result is never negative and the store is
    left as it was.  When the stats are such that Go's [int] arithmetic does
    not wrap around, d is baseDamage + attackModifier × attackUpgrades, a is
    baseArmor + armorModifier × armorUpgrades, the result is
    max(0, damage - armor), and it is 0 when armor ≥ damage. *)
Theorem CalculateDamageAgainst_spec w u t ru rt :
  units w !! u = Some ru ->
  units w !! t = Some rt ->
  exists dmg armor d,
    GetDamage u w = Ok dmg w /\
    GetArmor t w = Ok armor w /\
    CalculateDamageAgainst u t w = Ok d w /\
    d = Z.max 0 (sub64 dmg armor) /\
    0 <= d /\
    (damage_fits ru ->
     armor_fits rt ->
     in_int (effectiveDamage ru - effectiveArmor rt) ->
     dmg = effectiveDamage ru /\
     armor = effectiveArmor rt /\
     d = Z.max 0 (effectiveDamage ru - effectiveArmor rt) /\
     (effectiveArmor rt >= effectiveDamage ru -> d = 0)).
Proof.
  intros Hu Ht.
  eexists _, _, _.
  split; [exact (GetDamage_eq w u ru Hu)|].
  split; [exact (GetArmor_eq w t rt Ht)|].
  split; [exact (CalculateDamageAgainst_eq w u t ru rt Hu Ht)|].
  split; [reflexivity|]. split; [lia|].
  intros Hd Ha Hdiff.
  pose proof (GetDamage_exact w u ru Hu Hd) as Ed.
  rewrite (GetDamage_eq w u ru Hu) in Ed. injection Ed as Ed.
  pose proof (GetArmor_exact w t rt Ht Ha) as Ea.
  rewrite (GetArmor_eq w t rt Ht) in Ea. injection Ea as Ea.
  rewrite Ed, Ea, (sub64_exact _ _ Hdiff).
  split; [reflexivity|]. split; [reflexivity|]. split; [reflexivity|]. lia.
Qed.

Lemma CalculateDamageAgainst_spec_witness :
  exists dmg armor d,
    GetDamage marine w_duel = Ok dmg w_duel /\
    GetArmor zergling w_duel = Ok armor w_duel /\
    CalculateDamageAgainst marine zergling w_duel = Ok d w_duel /\
    d = Z.max 0 (sub64 dmg armor) /\
    0 <= d /\
    (damage_fits marineUnit ->
     armor_fits zerglingUnit ->
     in_int (effectiveDamage marineUnit - effectiveArmor zerglingUnit) ->
     dmg = effectiveDamage marineUnit /\
     armor = effectiveArmor zerglingUnit /\
     d = Z.max 0 (effectiveDamage marineUnit - effectiveArmor zerglingUnit) /\
     (effectiveArmor zerglingUnit >= effectiveDamage marineUnit -> d = 0)).
Proof.
  refine (CalculateDamageAgainst_spec w_duel marine zergling marineUnit zerglingUnit _ _).
  - vm_compute. reflexivity.
  - vm_compute. reflexivity.
Defined.

(** C3 as stated fails: the stats are [int]s, and Go's subtraction wraps
    around.  With a stats table that gives the Marine the least [int] as
    base damage, the Marine [NewUnit] builds has effective damage -2^63, the
    Zealot has effective armor 1, so armor ≥ damage and max(0, damage -
    armor) is 0; [CalculateDamageAgainst] returns 2^63 - 1. *)
Lemma CalculateDamageAgainst_wraps_around :
  cache_typed extremeStats /\
  units w_extreme !! marine ≫= (fun r => Some (effectiveDamage r)) = Some min_int /\
  units w_extreme !! zealot ≫= (fun r => Some (effectiveArmor r)) = Some 1 /\
  1 >= min_int /\
  Z.max 0 (min_int - 1) = 0 /\
  value (CalculateDamageAgainst marine zealot) w_extreme = Some max_int /\
  max_int <> 0.
Proof.
  split.
  { intros name s Hs. unfold extremeStats in Hs. cbn in Hs.
    repeat (apply lookup_insert_Some in Hs as [[_ <-]|[_ Hs]];
            [repeat split; vm_compute; discriminate|]).
    rewrite lookup_empty in Hs. discriminate. }
  repeat split; try (vm_compute; reflexivity); vm_compute; discriminate.
Qed.

End HealthFacts.

(* ===================================================================== *)
(** * The unit: life cycle and command submission *)
(* ===================================================================== *)

Module LifecycleFacts.

Import Types Props GoIntFacts Scenario.
Local Open Scope go_scope.

Lemma go_select_single {A} (cs : list (bool * M A)) (c : bool * M A) pick :
  filter (fun c => fst c = true) cs = [c] ->
  go_select cs pick = snd c.
Proof.
  intros Hf. unfold go_select. rewrite Hf. cbn [length].
  rewrite Nat.mod_1_r. reflexivity.
Qed.

Lemma go_select_pair {A} (cs : list (bool * M A)) (c1 c2 : bool * M A) pick :
  filter (fun c => fst c = true) cs = [c1; c2] ->
  go_select cs pick = snd c1 \/ go_select cs pick = snd c2.
Proof.
  intros Hf. unfold go_select. rewrite Hf. cbn [length].
  assert (Hlt : (pick mod 2 < 2)%nat) by (apply Nat.mod_upper_bound; lia).
  destruct (pick mod 2)%nat as [|[|k]]; [left|right|lia]; reflexivity.
Qed.

Lemma go_select_none {A} (cs : list (bool * M A)) pick w :
  filter (fun c => fst c = true) cs = [] ->
  go_select cs pick w = Blocked w.
Proof. intros Hf. unfold go_select. rewrite Hf. reflexivity. Qed.

Lemma shut_down_inv r : unit_inv r -> unit_inv (shut_down r).
Proof. intros (H1 & H2 & H3). repeat split; cbn; auto. Qed.

(** The body of the [sync.Once] on an open command channel. *)
Lemma Shutdown_open w u r :
  units w !! u = Some r ->
  shutdownOnce r = false ->
  ch_closed (commands r) = false ->
  Shutdown u w = Ok tt (set_units (<[u := shut_down r]> (units w)) w).
Proof.
  intros Hu Hs Hc.
  unfold Shutdown, bind at 1. unfold load at 1. rewrite Hu, Hs.
  unfold cancel, modify, close_commands, bind, load, store. rewrite Hu. cbn.
  rewrite lookup_insert_eq. cbn. rewrite Hc. cbn.
  rewrite lookup_insert_eq. cbn.
  rewrite !insert_insert_eq. reflexivity.
Qed.

(** Closing a channel that is closed already panics; the invariant rules
    this state out. *)
Lemma Shutdown_double_close w u r :
  units w !! u = Some r ->
  shutdownOnce r = false ->
  ch_closed (commands r) = true ->
  Shutdown u w = Panic "close of closed channel".
Proof.
  intros Hu Hs Hc.
  unfold Shutdown, bind at 1. unfold load at 1. rewrite Hu, Hs.
  unfold cancel, modify, close_commands, bind, load, store. rewrite Hu. cbn.
  rewrite lookup_insert_eq. cbn. rewrite Hc. reflexivity.
Qed.

(** The first call runs the body of the [sync.Once]. *)
Lemma Shutdown_first w u r :
  units w !! u = Some r ->
  unit_inv r ->
  shutdownOnce r = false ->
  Shutdown u w = Ok tt (set_units (<[u := shut_down r]> (units w)) w).
Proof.
  intros Hu (H1 & H2 & H3) Hs. apply Shutdown_open; congruence.
Qed.

(** Every later call finds the flag set and does nothing. *)
Lemma Shutdown_again w u r :
  units w !! u = Some r ->
  shutdownOnce r = true ->
  Shutdown u w = Ok tt w.
Proof.
  intros Hu Hs. unfold Shutdown, bind, load, ret. rewrite Hu, Hs. reflexivity.
Qed.

Lemma Shutdown_times_again n : forall w u r,
  units w !! u = Some r ->
  shutdownOnce r = true ->
  Shutdown_times n u w = Ok tt w.
Proof.
  induction n as [|n IH]; intros w u r Hu Hs; [reflexivity|].
  cbn [Shutdown_times]. unfold bind. rewrite (Shutdown_again _ _ _ Hu Hs).
  eapply IH; eauto.
Qed.

(** [Shutdown] returns on every unit the package can produce, and leaves
    the unit shut down. *)
Lemma Shutdown_returns w u r :
  units w !! u = Some r ->
  unit_inv r ->
  exists w1 r1,
    Shutdown u w = Ok tt w1 /\
    units w1 !! u = Some r1 /\
    unit_inv r1 /\
    ctxDone r1 = true /\ ch_closed (commands r1) = true /\ shutdownOnce r1 = true /\
    observable r1 = observable r.
Proof.
  intros Hu Hinv. destruct (shutdownOnce r) eqn:Hs.
  - exists w, r. rewrite (Shutdown_again _ _ _ Hu Hs).
    destruct Hinv as (H1 & H2 & H3). repeat split; auto. congruence.
  - exists (set_units (<[u := shut_down r]> (units w)) w), (shut_down r).
    rewrite (Shutdown_first _ _ _ Hu Hinv Hs).
    split; [reflexivity|]. split; [apply lookup_insert_eq|].
    split; [now apply shut_down_inv|]. repeat split.
Qed.

(** C6.  Calling [Shutdown] any number n ≥ 1 of times in a row does not
    panic and leaves exactly the store one call leaves: context cancelled,
    command channel closed once, flag set. *)
Theorem Shutdown_idempotent w u r (n : nat) :
  units w !! u = Some r ->
  unit_inv r ->
  (1 <= n)%nat ->
  exists w1 r1,
    Shutdown u w = Ok tt w1 /\
    Shutdown_times n u w = Ok tt w1 /\
    units w1 !! u = Some r1 /\
    ctxDone r1 = true /\ ch_closed (commands r1) = true /\ shutdownOnce r1 = true.
Proof.
  intros Hu Hinv Hn.
  destruct (Shutdown_returns w u r Hu Hinv)
    as (w1 & r1 & Hrun & Hu1 & _ & Hc & Hcl & Hs & _).
  exists w1, r1. repeat split; auto.
  destruct n as [|k]; [lia|].
  cbn [Shutdown_times]. unfold bind. rewrite Hrun.
  eapply Shutdown_times_again; eauto.
Qed.

Lemma Shutdown_idempotent_witness :
  exists w1 r1,
    Shutdown marine w_marine = Ok tt w1 /\
    Shutdown_times 3 marine w_marine = Ok tt w1 /\
    units w1 !! marine = Some r1 /\
    ctxDone r1 = true /\ ch_closed (commands r1) = true /\ shutdownOnce r1 = true.
Proof.
  refine (Shutdown_idempotent w_marine marine marineUnit 3 _ _ _).
  - vm_compute. reflexivity.
  - repeat split. cbn. discriminate.
  - lia.
Defined.

Lemma SendCommand_cancelled w u r cmd waited pick :
  units w !! u = Some r ->
  ctxDone r = true ->
  SendCommand u cmd waited pick w = Ok (Some errShuttingDown) w.
Proof.
  intros Hu Hc. unfold SendCommand, SendCommand_check, bind, load, ret.
  rewrite Hu, Hc. reflexivity.
Qed.

Lemma SendCommand_live w u r cmd waited pick :
  units w !! u = Some r ->
  ctxDone r = false ->
  SendCommand u cmd waited pick w = SendCommand_select u cmd waited pick w.
Proof.
  intros Hu Hc. unfold SendCommand, SendCommand_check, bind at 1. unfold bind at 1.
  unfold load at 1. rewrite Hu, Hc. reflexivity.
Qed.

(** A live unit (context not cancelled) has an open command channel. *)
Lemma live_open r : unit_inv r -> ctxDone r = false -> ch_closed (commands r) = false.
Proof.
  intros (H1 & H2 & _) Hc. rewrite H2. destruct (shutdownOnce r); [|reflexivity].
  rewrite H1 in Hc by reflexivity. discriminate.
Qed.

(** With room in the inbox the command is enqueued at once. *)
Lemma SendCommand_enqueues w u r cmd waited pick :
  units w !! u = Some r ->
  unit_inv r ->
  ctxDone r = false ->
  chan_full (commands r) = false ->
  waited < sendTimeout ->
  SendCommand u cmd waited pick w =
    Ok None (set_units (<[u := set_commands (chan_push cmd (commands r)) r]> (units w)) w).
Proof.
  intros Hu Hinv Hc Hfull Hw. rewrite (SendCommand_live _ _ _ _ _ _ Hu Hc).
  unfold SendCommand_select, bind at 1. unfold load at 1. rewrite Hu.
  rewrite Hfull, Hc, (live_open _ Hinv Hc).
  replace (sendTimeout <=? waited) with false by (symmetry; apply Z.leb_gt; lia).
  erewrite go_select_single by reflexivity. cbn [snd].
  unfold send_commands, bind, load, store, ret. rewrite Hu, (live_open _ Hinv Hc).
  reflexivity.
Qed.

(** With a full inbox the caller waits, and after 100ms gets the
    backpressure error. *)
Lemma SendCommand_full w u r cmd waited pick :
  units w !! u = Some r ->
  unit_inv r ->
  ctxDone r = false ->
  chan_full (commands r) = true ->
  SendCommand u cmd waited pick w =
    if sendTimeout <=? waited then Ok (Some errBackpressure) w else Blocked w.
Proof.
  intros Hu Hinv Hc Hfull. rewrite (SendCommand_live _ _ _ _ _ _ Hu Hc).
  unfold SendCommand_select, bind at 1. unfold load at 1. rewrite Hu.
  rewrite Hfull, Hc, (live_open _ Hinv Hc).
  destruct (sendTimeout <=? waited).
  - erewrite go_select_single by reflexivity. reflexivity.
  - apply go_select_none. reflexivity.
Qed.

(** Scenario "backpressure": fifteen submissions to a Marine whose loop does
    not consume; the first ten are accepted, the other five get the
    backpressure error, and the inbox then is the store [w_full]. *)
Lemma SendCommand_burst_backpressure :
  SendCommand_burst 15 marine stopCmd w_marine =
    Ok (replicate 10 None ++ replicate 5 (Some errBackpressure)) w_full.
Proof. vm_compute. reflexivity. Qed.

(** Scenario "no command after shutdown". *)
Lemma SendCommand_after_Shutdown_scenario :
  value (SendCommand_alone marine stopCmd 0) (after (Shutdown marine) w_marine)
    = Some (Some errShuttingDown).
Proof. vm_compute. reflexivity. Qed.

(** A remark on the second [select]: when [Shutdown] runs to its end between
    the two [select]s of a [SendCommand], the send case is ready on the
    closed channel next to the [ctx.Done()] case, and the run time may pick
    either: the shutting-down error, or a panic. *)
Lemma SendCommand_select_after_concurrent_Shutdown :
  SendCommand_check marine w_marine = Ok None w_marine /\
  SendCommand_select marine stopCmd 0 1 (after (Shutdown marine) w_marine)
    = Ok (Some errShuttingDown) (after (Shutdown marine) w_marine) /\
  SendCommand_select marine stopCmd 0 0 (after (Shutdown marine) w_marine)
    = Panic "send on closed channel".
Proof. repeat split; vm_compute; reflexivity. Qed.

(** Every way [SendCommand] can end on a unit the package can produce. *)
Lemma SendCommand_cases w u r cmd waited pick :
  units w !! u = Some r ->
  unit_inv r ->
  SendCommand u cmd waited pick w = Blocked w \/
  SendCommand u cmd waited pick w = Ok (Some errShuttingDown) w \/
  SendCommand u cmd waited pick w = Ok (Some errBackpressure) w \/
  SendCommand u cmd waited pick w =
    Ok None (set_units (<[u := set_commands (chan_push cmd (commands r)) r]> (units w)) w).
Proof.
  intros Hu Hinv.
  destruct (ctxDone r) eqn:Hc.
  { right; left. now apply (SendCommand_cancelled w u r). }
  destruct (chan_full (commands r)) eqn:Hfull.
  { rewrite (SendCommand_full _ _ _ _ _ _ Hu Hinv Hc Hfull).
    destruct (_ <=? _); auto. }
  destruct (Z.ltb_spec waited sendTimeout) as [Hw|Hw].
  { right; right; right. now apply SendCommand_enqueues. }
  rewrite (SendCommand_live _ _ _ _ _ _ Hu Hc).
  assert (Hsel : SendCommand_select u cmd waited pick w =
                 go_select [ (true, send_commands u cmd);
                             (false, ret (Some errShuttingDown));
                             (true, ret (Some errBackpressure)) ] pick w).
  { unfold SendCommand_select, bind, load. rewrite Hu.
    rewrite Hfull, Hc, (live_open _ Hinv Hc).
    apply Z.leb_le in Hw. rewrite Hw. reflexivity. }
  rewrite Hsel.
  destruct (go_select_pair
              [ (true, send_commands u cmd);
                (false, ret (Some errShuttingDown));
                (true, ret (Some errBackpressure)) ]
              (true, send_commands u cmd) (true, ret (Some errBackpressure))
              pick eq_refl) as [-> | ->]; cbn [snd].
  - right; right; right.
    unfold send_commands, bind, load, store, ret.
    rewrite Hu, (live_open _ Hinv Hc). reflexivity.
  - right; right; left. reflexivity.
Qed.

(** C10.  [SendCommand] leaves every field the accessors expose as it was:
    a call that returns an error, or is still waiting, leaves the whole
    store untouched, and a call that returns [nil] changes nothing but the
    unit's inbox, to which the command has been appended. *)
Theorem SendCommand_frame w u r cmd waited pick :
  units w !! u = Some r ->
  unit_inv r ->
  SendCommand u cmd waited pick w = Blocked w \/
  exists err w' r',
    SendCommand u cmd waited pick w = Ok err w' /\
    units w' !! u = Some r' /\
    observable r' = observable r /\
    match err with
    | Some _ => w' = w
    | None =>
        r' = set_commands (chan_push cmd (commands r)) r /\
        w' = set_units (<[u := r']> (units w)) w
    end.
Proof.
  intros Hu Hinv.
  destruct (SendCommand_cases w u r cmd waited pick Hu Hinv) as [H|[H|[H|H]]].
  - left. exact H.
  - right. exists (Some errShuttingDown), w, r. auto.
  - right. exists (Some errBackpressure), w, r. auto.
  - right. eexists None, _, _. split; [exact H|].
    split; [apply lookup_insert_eq|]. split; [reflexivity|]. split; reflexivity.
Qed.

Lemma SendCommand_frame_witness :
  SendCommand marine stopCmd 0 0 w_marine = Blocked w_marine \/
  exists err w' r',
    SendCommand marine stopCmd 0 0 w_marine = Ok err w' /\
    units w' !! marine = Some r' /\
    observable r' = observable marineUnit /\
    match err with
    | Some _ => w' = w_marine
    | None =>
        r' = set_commands (chan_push stopCmd (commands marineUnit)) marineUnit /\
        w' = set_units (<[marine := r']> (units w_marine)) w_marine
    end.
Proof.
  refine (SendCommand_frame w_marine marine marineUnit stopCmd 0 0 _ _).
  - vm_compute. reflexivity.
  - repeat split. cbn. discriminate.
Defined.

End LifecycleFacts.

(* ===================================================================== *)
(** * The unit: construction and command handlers *)
(* ===================================================================== *)

Module HandlerFacts.

Import Types Props GoIntFacts Scenario HealthFacts.
Local Open Scope go_scope.

Lemma floor_max x : (if x <? 0 then 0 else x) = Z.max 0 x.
Proof. destruct (Z.ltb_spec x 0); lia. Qed.

Lemma modify_eq w u r f :
  units w !! u = Some r ->
  modify u f w = Ok tt (set_units (<[u := f r]> (units w)) w).
Proof. intros Hu. unfold modify, bind, load, store. rewrite Hu. reflexivity. Qed.

Lemma send_events_eq w u r ev :
  units w !! u = Some r ->
  ch_closed (events r) = false ->
  send_events u ev w =
    if chan_full (events r) then Blocked w
    else Ok tt (set_units (<[u := set_events (chan_push ev (events r)) r]> (units w)) w).
Proof.
  intros Hu Hc. unfold send_events. rewrite Hu, Hc.
  destruct (chan_full (events r)); reflexivity.
Qed.

(** An attack order without a target only writes a line to the console. *)
Lemma handleAttack_nil w u r cmd now :
  units w !! u = Some r ->
  cmd_Target cmd = None ->
  handleAttack u cmd now w = Ok tt (set_console (console w ++ [LogNoTarget (ID r)]) w).
Proof.
  intros Hu Ht. unfold handleAttack. rewrite Ht.
  unfold bind, load, printf. rewrite Hu. reflexivity.
Qed.

(** One step of a monadic sequence whose first action is known. *)
Ltac go_step H := unfold bind at 1; rewrite H; cbv beta iota zeta.

(** An attack order with a target: the attacker's state and target are set
    and the target loses the computed damage, whether or not the event can
    then be delivered. *)
Lemma handleAttack_target w u t r rt cmd now :
  units w !! u = Some r ->
  units w !! t = Some rt ->
  unit_inv r ->
  cmd_Target cmd = Some t ->
  exists dmg w' r' rt',
    CalculateDamageAgainst u t w = Ok dmg w /\
    (handleAttack u cmd now w = Ok tt w' \/
     chan_full (events r) = true /\ handleAttack u cmd now w = Blocked w') /\
    units w' !! u = Some r' /\
    state r' = Attacking /\
    target r' = Some t /\
    units w' !! t = Some rt' /\
    health rt' = Z.max 0 (sub64 (health rt) dmg) /\
    maxHealth rt' = maxHealth rt.
Proof.
  intros Hu Ht (_ & _ & Hev) Htarget.
  set (r1 := set_state Attacking r).
  set (r2 := set_target (Some t) r1).
  set (w1 := set_units (<[u := r1]> (units w)) w).
  set (w2 := set_units (<[u := r2]> (units w1)) w1).
  assert (H1 : SetState u Attacking w = Ok tt w1) by (now apply modify_eq).
  assert (H2 : SetTarget u (Some t) w1 = Ok tt w2).
  { apply modify_eq. apply lookup_insert_eq. }
  assert (Hu2 : units w2 !! u = Some r2) by apply lookup_insert_eq.
  pose (ev := mkEvent EventDamaged (Some u) (Some t) now).
  assert (Ht2 : exists rt2, units w2 !! t = Some rt2 /\
                  health rt2 = health rt /\ maxHealth rt2 = maxHealth rt /\
                  baseArmor rt2 = baseArmor rt /\ armorModifier rt2 = armorModifier rt /\
                  armorUpgrades rt2 = armorUpgrades rt /\
                  forall h, units (set_units (<[t := set_health h rt2]> (units w2)) w2) !! u
                            = Some (if decide (t = u) then set_health h r2 else r2)).
  { destruct (decide (t = u)) as [->|Hne].
    - rewrite Hu in Ht. injection Ht as <-. exists r2. split; [exact Hu2|].
      repeat split. intros h. apply lookup_insert_eq.
    - exists rt. split.
      + subst w2 w1. cbn. rewrite !lookup_insert_ne by congruence. exact Ht.
      + repeat split. intros h. cbn. rewrite lookup_insert_ne by congruence.
        apply lookup_insert_eq. }
  destruct Ht2 as (rt2 & Ht2 & Ehealth & Emax & Ea1 & Ea2 & Ea3 & Hu3).
  pose proof (CalculateDamageAgainst_eq w u t r rt Hu Ht) as Hd.
  pose proof (CalculateDamageAgainst_eq w2 u t r2 rt2 Hu2 Ht2) as Hd2.
  rewrite Ea1, Ea2, Ea3 in Hd2.
  cbn [r2 r1 set_target set_state baseDamage attackModifier attackUpgrades] in Hd2.
  set (dmg := Z.max 0 _) in Hd, Hd2.
  pose proof (TakeDamage_step w2 t rt2 dmg Ht2) as Hh. cbv zeta in Hh.
  rewrite floor_max, Ehealth in Hh.
  set (h := Z.max 0 (sub64 (health rt) dmg)) in Hh.
  set (w3 := set_units _ w2) in Hh.
  set (ru3 := if decide (t = u) then set_health h r2 else r2).
  assert (Hu3' : units w3 !! u = Some ru3) by apply Hu3.
  assert (Ht3 : units w3 !! t = Some (set_health h rt2)) by apply lookup_insert_eq.
  assert (Eev : events ru3 = events r).
  { subst ru3. destruct (decide (t = u)); reflexivity. }
  assert (Hrun : handleAttack u cmd now w = send_events u ev w3).
  { unfold handleAttack. rewrite Htarget.
    go_step H1. go_step H2. go_step Hd2. go_step Hh. reflexivity. }
  rewrite (send_events_eq w3 u ru3 ev Hu3') in Hrun by (rewrite Eev; exact Hev).
  rewrite Eev in Hrun.
  assert (Hstate : state ru3 = Attacking /\ target ru3 = Some t).
  { subst ru3. destruct (decide (t = u)); split; reflexivity. }
  destruct (chan_full (events r)) eqn:Hfull.
  - exists dmg, w3, ru3, (set_health h rt2).
    split; [exact Hd|]. split; [right; split; [reflexivity|exact Hrun]|].
    split; [exact Hu3'|]. split; [apply Hstate|]. split; [apply Hstate|].
    split; [exact Ht3|]. split; [reflexivity|exact Emax].
  - set (ru4 := set_events (chan_push ev (events r)) ru3) in Hrun.
    set (w4 := set_units _ w3) in Hrun.
    exists dmg, w4, ru4, (if decide (t = u) then ru4 else set_health h rt2).
    split; [exact Hd|]. split; [left; exact Hrun|].
    split; [apply lookup_insert_eq|]. split; [apply Hstate|]. split; [apply Hstate|].
    split.
    { destruct (decide (t = u)) as [->|Hne]; [apply lookup_insert_eq|].
      subst w4. cbn. rewrite lookup_insert_ne by congruence. exact Ht3. }
    subst ru4 ru3. destruct (decide (t = u)) as [->|Hne]; cbn.
    + rewrite Hu in Ht. injection Ht as <-. split; reflexivity.
    + split; [reflexivity|exact Emax].
Qed.

(** C8.  An attack order without target leaves every unit as it was (state,
    target and health included) and only writes a line to the console; an
    attack order with a target sets the attacker's state to [Attacking] and
    its target to the given unit, and takes the computed damage off the
    target's health (floored at 0) -- before the attack event is sent, so
    also when the handler then waits on a full event channel. *)
Theorem handleAttack_spec w u r cmd now :
  units w !! u = Some r ->
  unit_inv r ->
  match cmd_Target cmd with
  | None =>
      exists w',
        handleAttack u cmd now w = Ok tt w' /\
        units w' = units w /\
        console w' = console w ++ [LogNoTarget (ID r)]
  | Some t =>
      forall rt, units w !! t = Some rt ->
      exists dmg w' r' rt',
        CalculateDamageAgainst u t w = Ok dmg w /\
        (handleAttack u cmd now w = Ok tt w' \/
         chan_full (events r) = true /\ handleAttack u cmd now w = Blocked w') /\
        units w' !! u = Some r' /\
        state r' = Attacking /\
        target r' = Some t /\
        units w' !! t = Some rt' /\
        health rt' = Z.max 0 (sub64 (health rt) dmg) /\
        maxHealth rt' = maxHealth rt
  end.
Proof.
  intros Hu Hinv. destruct (cmd_Target cmd) as [t|] eqn:Ht.
  - intros rt Hrt. now apply (handleAttack_target w u t r rt cmd now).
  - eexists. split; [exact (handleAttack_nil w u r cmd now Hu Ht)|]. split; reflexivity.
Qed.

Lemma handleAttack_spec_witness :
  (exists dmg w' r' rt',
     CalculateDamageAgainst marine zergling w_duel = Ok dmg w_duel /\
     (handleAttack marine attackZergling 0 w_duel = Ok tt w' \/
      chan_full (events marineUnit) = true /\
      handleAttack marine attackZergling 0 w_duel = Blocked w') /\
     units w' !! marine = Some r' /\
     state r' = Attacking /\
     target r' = Some zergling /\
     units w' !! zergling = Some rt' /\
     health rt' = Z.max 0 (sub64 35 dmg) /\
     maxHealth rt' = 35) /\
  (exists w',
     handleAttack marine attackNobody 0 w_duel = Ok tt w' /\
     units w' = units w_duel /\
     console w' = console w_duel ++ [LogNoTarget "marine-1"]).
Proof.
  assert (Hu : units w_duel !! marine = Some marineUnit) by (vm_compute; reflexivity).
  assert (Hinv : unit_inv marineUnit) by (repeat split; cbn; discriminate).
  split.
  - refine (handleAttack_spec w_duel marine marineUnit attackZergling 0 Hu Hinv zerglingUnit _).
    vm_compute. reflexivity.
  - exact (handleAttack_spec w_duel marine marineUnit attackNobody 0 Hu Hinv).
Defined.

(** Scenario "basic combat": one attack of the Marine (6 damage) on the
    Zergling (35 health, 0 armor) leaves the Zergling with 29 health. *)
Lemma basic_combat_scenario :
  value (CalculateDamageAgainst marine zergling) w_duel = Some 6 /\
  value (GetHealth zergling) (after (handleAttack marine attackZergling 0) w_duel) = Some 29 /\
  value (GetState marine) (after (handleAttack marine attackZergling 0) w_duel) = Some Attacking /\
  value (GetTarget marine) (after (handleAttack marine attackZergling 0) w_duel)
    = Some (Some zergling).
Proof. repeat split; vm_compute; reflexivity. Qed.

(** Scenario "Marine attacks Zealot": against 1 armor the Marine's 6 damage
    deals 5; scenario "over-floor damage": a target with more armor than
    the attacker has damage takes 0. *)
Lemma armor_scenarios :
  value (let* zealot := NewUnit sampleStats "zealot-1" Zealot origin 1%positive in
         CalculateDamageAgainst marine zealot) w_marine = Some 5 /\
  value (let* zealot := NewUnit sampleStats "zealot-1" Zealot origin 1%positive in
         CalculateDamageAgainst zealot marine) w_marine = Some 16 /\
  value (let* tank := NewUnit {[ "SiegeTank"%string := mkStats 150 30 10 1 1 12 10 "Ground" ]}
                        "tank-1" SiegeTank origin 1%positive in
         CalculateDamageAgainst marine tank) w_marine = Some 0.
Proof. repeat split; vm_compute; reflexivity. Qed.

(** ** Construction *)

(** The unit [NewUnit] builds from the stats [s]. *)
Lemma NewUnit_eq cache w id unitType pos wg n :
  waitGroups w !! wg = Some n ->
  0 <= n ->
  let name := UnitType_String unitType in
  let s := default defaultStats (cache !! name) in
  let u := fresh (dom (units w)) in
  let r :=
    mkUnit id unitType (MaxHealth s) (MaxHealth s) (BaseDamage s) (BaseArmor s)
      (AttackModifier s) (ArmorModifier s) 0 0 (AttackRange s) (VisionRange s)
      Idle (parseLayer (ElevationLayerName s)) pos None
      (make_chan inboxCapacity) (make_chan inboxCapacity) false wg false in
  NewUnit cache id unitType pos wg w =
    Ok u (mkWorld (<[u := r]> (units w)) (<[wg := n + 1]> (waitGroups w))
            ({[u]} ∪ loops w)
            (console w ++ match cache !! name with
                          | Some _ => []
                          | None => [LogUnknownType name]
                          end)).
Proof.
  intros Hwg Hn name s u r. subst s r.
  unfold NewUnit, alloc, initializeStats, wg_Add, go_run, bind, printf, load, store, ret.
  fold name. fold u.
  destruct (cache !! name) as [s|]; cbn.
  - rewrite lookup_insert_eq. cbn. rewrite Hwg.
    replace (n + 1 <? 0) with false by (symmetry; apply Z.ltb_ge; lia).
    cbn. rewrite insert_insert_eq, app_nil_r. reflexivity.
  - rewrite lookup_insert_eq. cbn. rewrite Hwg.
    replace (n + 1 <? 0) with false by (symmetry; apply Z.ltb_ge; lia).
    cbn. rewrite insert_insert_eq. reflexivity.
Qed.

(** C9.  [NewUnit] returns a fresh unit in state [Idle], at full health,
    without target and without upgrades, so that [GetDamage] and [GetArmor]
    return the base damage and base armor of its type; a type the stats
    table does not list gets 50 maximum health, 5 base damage, 0 base
    armor, attack range 4, vision range 7 and the [Ground] layer. *)
Theorem NewUnit_spec cache w id unitType pos wg n :
  waitGroups w !! wg = Some n ->
  0 <= n ->
  cache_typed cache ->
  exists u w' r,
    NewUnit cache id unitType pos wg w = Ok u w' /\
    units w !! u = None /\
    units w' !! u = Some r /\
    ID r = id /\ Type_ r = unitType /\ position r = pos /\
    state r = Idle /\
    health r = maxHealth r /\
    target r = None /\
    attackUpgrades r = 0 /\ armorUpgrades r = 0 /\
    GetDamage u w' = Ok (baseDamage r) w' /\
    GetArmor u w' = Ok (baseArmor r) w' /\
    unit_inv r /\
    match cache !! UnitType_String unitType with
    | Some s =>
        maxHealth r = MaxHealth s /\ baseDamage r = BaseDamage s /\
        baseArmor r = BaseArmor s
    | None =>
        maxHealth r = 50 /\ baseDamage r = 5 /\ baseArmor r = 0 /\
        attackRange r = 4 /\ visionRange r = 7 /\ elevationLayer r = Ground
    end.
Proof.
  intros Hwg Hn Hcache.
  pose proof (NewUnit_eq cache w id unitType pos wg n Hwg Hn) as Hrun.
  cbv zeta in Hrun.
  set (s := default defaultStats (cache !! UnitType_String unitType)) in Hrun.
  assert (Hs : in_int (BaseDamage s) /\ in_int (BaseArmor s)).
  { subst s. destruct (cache !! UnitType_String unitType) as [s|] eqn:E; cbn.
    - destruct (Hcache _ _ E) as (_ & H1 & H2). auto.
    - split; vm_compute; split; discriminate. }
  eexists _, _, _. split; [exact Hrun|].
  split; [apply not_elem_of_dom, is_fresh|].
  split; [apply lookup_insert_eq|].
  do 8 (split; [reflexivity|]).
  split.
  { erewrite GetDamage_eq by apply lookup_insert_eq. cbn.
    rewrite mul64_0_r, add64_0_r by apply Hs. reflexivity. }
  split.
  { erewrite GetArmor_eq by apply lookup_insert_eq. cbn.
    rewrite mul64_0_r, add64_0_r by apply Hs. reflexivity. }
  split; [repeat split; cbn; discriminate|].
  subst s. destruct (cache !! UnitType_String unitType); cbn; repeat split.
Qed.

Lemma NewUnit_spec_witness :
  (exists u w' r,
    NewUnit sampleStats "marine-1" Marine origin 1%positive world0 = Ok u w' /\
    units world0 !! u = None /\
    units w' !! u = Some r /\
    ID r = "marine-1"%string /\ Type_ r = Marine /\ position r = origin /\
    state r = Idle /\
    health r = maxHealth r /\
    target r = None /\
    attackUpgrades r = 0 /\ armorUpgrades r = 0 /\
    GetDamage u w' = Ok (baseDamage r) w' /\
    GetArmor u w' = Ok (baseArmor r) w' /\
    unit_inv r /\
    maxHealth r = 40 /\ baseDamage r = 6 /\ baseArmor r = 0) /\
  (exists u w' r,
    NewUnit sampleStats "x" 999 origin 1%positive world0 = Ok u w' /\
    units world0 !! u = None /\
    units w' !! u = Some r /\
    ID r = "x"%string /\ Type_ r = 999 /\ position r = origin /\
    state r = Idle /\
    health r = maxHealth r /\
    target r = None /\
    attackUpgrades r = 0 /\ armorUpgrades r = 0 /\
    GetDamage u w' = Ok (baseDamage r) w' /\
    GetArmor u w' = Ok (baseArmor r) w' /\
    unit_inv r /\
    maxHealth r = 50 /\ baseDamage r = 5 /\ baseArmor r = 0 /\
    attackRange r = 4 /\ visionRange r = 7 /\ elevationLayer r = Ground).
Proof.
  assert (Hwg : waitGroups world0 !! 1%positive = Some 0) by (vm_compute; reflexivity).
  assert (Hcache : cache_typed sampleStats).
  { intros name s Hs. unfold sampleStats in Hs. cbn in Hs.
    repeat (apply lookup_insert_Some in Hs as [[_ <-]|[_ Hs]];
            [repeat split; vm_compute; discriminate|]).
    rewrite lookup_empty in Hs. discriminate. }
  split.
  - exact (NewUnit_spec sampleStats world0 "marine-1" Marine origin 1%positive 0
             Hwg ltac:(lia) Hcache).
  - exact (NewUnit_spec sampleStats world0 "x" 999 origin 1%positive 0
             Hwg ltac:(lia) Hcache).
Defined.

Lemma Ok_inj {A} (a a' : A) w w' : Ok a w = Ok a' w' -> a = a' /\ w = w'.
Proof. intros H. injection H as -> ->. split; reflexivity. Qed.

(** The units [NewUnit] makes from a table of Go [int]s have stats that
    [GetDamage] and [GetArmor] compute without wrap-around. *)
Lemma NewUnit_stats_fit cache w id unitType pos wg n u w' r :
  waitGroups w !! wg = Some n ->
  0 <= n ->
  cache_typed cache ->
  NewUnit cache id unitType pos wg w = Ok u w' ->
  units w' !! u = Some r ->
  damage_fits r /\ armor_fits r /\ in_int (maxHealth r) /\ health r = maxHealth r.
Proof.
  intros Hwg Hn Hcache Hrun Hu.
  rewrite (NewUnit_eq cache w id unitType pos wg n Hwg Hn) in Hrun. cbv zeta in Hrun.
  apply Ok_inj in Hrun as [<- <-]. cbn [units] in Hu.
  rewrite lookup_insert_eq in Hu. apply (inj Some) in Hu as <-.
  assert (Hs : in_int (MaxHealth (default defaultStats (cache !! UnitType_String unitType))) /\
               in_int (BaseDamage (default defaultStats (cache !! UnitType_String unitType))) /\
               in_int (BaseArmor (default defaultStats (cache !! UnitType_String unitType)))).
  { destruct (cache !! UnitType_String unitType) as [s|] eqn:E; cbn.
    - exact (Hcache _ _ E).
    - repeat split; vm_compute; discriminate. }
  destruct Hs as (H1 & H2 & H3).
  assert (H0 : in_int 0) by (vm_compute; split; discriminate).
  unfold damage_fits, armor_fits, effectiveDamage, effectiveArmor.
  cbn [attackModifier attackUpgrades armorModifier armorUpgrades baseDamage baseArmor
       maxHealth health].
  rewrite !Z.mul_0_r, !Z.add_0_r. tauto.
Qed.

(** The name under which an out-of-range type is looked up. *)
Lemma UnitType_String_unknown : UnitType_String 999 = "UnitType(999)"%string.
Proof. vm_compute. reflexivity. Qed.

(** ** The handlers do not look at the current state *)

Lemma handleStop_eq w u r cmd :
  units w !! u = Some r ->
  handleStop u cmd w =
    Ok tt (set_units (<[u := set_target None (set_state Idle r)]> (units w)) w).
Proof.
  intros Hu. unfold handleStop.
  go_step (modify_eq w u r (set_state Idle) Hu : SetState u Idle w = _).
  unfold SetTarget. erewrite modify_eq by apply lookup_insert_eq.
  cbn. rewrite insert_insert_eq. reflexivity.
Qed.

Lemma handleHold_eq w u r cmd :
  units w !! u = Some r ->
  handleHold u cmd w =
    Ok tt (set_units (<[u := set_state HoldingPosition r]> (units w)) w).
Proof. intros Hu. now apply modify_eq. Qed.

Lemma handleMove_eq w u r cmd now :
  units w !! u = Some r ->
  ch_closed (events r) = false ->
  let r' := set_position (cmd_Dest cmd) (set_state Moving r) in
  let w' := set_units (<[u := r']> (units w)) w in
  handleMove u cmd now w =
    if chan_full (events r) then Blocked w'
    else Ok tt (set_units
                  (<[u := set_events (chan_push (mkEvent EventMoved (Some u) None now)
                                        (events r)) r']> (units w)) w).
Proof.
  intros Hu Hev r' w'. unfold handleMove.
  go_step (modify_eq w u r (set_state Moving) Hu : SetState u Moving w = _).
  unfold bind at 1. unfold SetPosition.
  erewrite modify_eq by apply lookup_insert_eq. cbv beta iota zeta.
  erewrite send_events_eq; [| apply lookup_insert_eq | exact Hev].
  cbn [events set_position set_state]. cbn [units set_units].
  rewrite !insert_insert_eq. reflexivity.
Qed.

(** Whatever the state of the unit, [Dead] included, each handler moves it
    to the state of its command. *)
Lemma handlers_ignore_state w u r cmd now :
  units w !! u = Some r ->
  unit_inv r ->
  chan_full (events r) = false ->
  (exists w' r', handleMove u cmd now w = Ok tt w' /\
     units w' !! u = Some r' /\ state r' = Moving /\ position r' = cmd_Dest cmd) /\
  (exists w' r', handleStop u cmd w = Ok tt w' /\
     units w' !! u = Some r' /\ state r' = Idle /\ target r' = None) /\
  (exists w' r', handleHold u cmd w = Ok tt w' /\
     units w' !! u = Some r' /\ state r' = HoldingPosition /\ target r' = target r).
Proof.
  intros Hu (_ & _ & Hev) Hfull. split; [|split].
  - pose proof (handleMove_eq w u r cmd now Hu Hev) as H. cbv zeta in H.
    rewrite Hfull in H. eexists _, _. split; [exact H|].
    split; [apply lookup_insert_eq|]. split; reflexivity.
  - eexists _, _. split; [exact (handleStop_eq w u r cmd Hu)|].
    split; [apply lookup_insert_eq|]. split; reflexivity.
  - eexists _, _. split; [exact (handleHold_eq w u r cmd Hu)|].
    split; [apply lookup_insert_eq|]. split; reflexivity.
Qed.

(** C2 fails on the code.  The Marine is [Dead] and has a move order in its
    inbox: the next iteration of its loop runs [handleMove], which puts it
    in state [Moving] at the destination.  With an attack order instead,
    the dead Marine attacks: it ends in state [Attacking] and the Zergling
    loses 6 health. *)
Theorem run_iter_revives_dead_unit :
  value (GetState marine) w_dead = Some Dead /\
  value (run_iter marine 0 0) w_dead = Some true /\
  value (GetState marine) (after (run_iter marine 0 0) w_dead) = Some Moving /\
  value (GetPosition marine) (after (run_iter marine 0 0) w_dead)
    = Some (cmd_Dest moveCmd) /\
  value (GetState marine) w_dead_attacker = Some Dead /\
  value (GetHealth zergling) w_dead_attacker = Some 35 /\
  value (GetState marine) (after (run_iter marine 0 0) w_dead_attacker) = Some Attacking /\
  value (GetHealth zergling) (after (run_iter marine 0 0) w_dead_attacker) = Some 29.
Proof. repeat split; vm_compute; reflexivity. Qed.

End HandlerFacts.

(* ===================================================================== *)
(** * The life cycle invariant over every run of the program *)
(* ===================================================================== *)

Module InvariantFacts.

Import Types Props GoIntFacts Scenario HealthFacts LifecycleFacts HandlerFacts.
Local Open Scope go_scope.

Lemma evolves_refl r : evolves r r.
Proof. unfold evolves. tauto. Qed.

Lemma evolves_trans r1 r2 r3 : evolves r1 r2 -> evolves r2 r3 -> evolves r1 r3.
Proof. unfold evolves. tauto. Qed.

Lemma store_evolves_refl w : store_evolves w w.
Proof.
  split.
  - intros p r Hp. exists r. split; [exact Hp|apply evolves_refl].
  - intros p r Hp Hnone. congruence.
Qed.

Lemma store_evolves_trans w1 w2 w3 :
  store_evolves w1 w2 -> store_evolves w2 w3 -> store_evolves w1 w3.
Proof.
  intros [A1 A2] [B1 B2]. split.
  - intros p r Hp. destruct (A1 p r Hp) as (r2 & Hp2 & E12).
    destruct (B1 p r2 Hp2) as (r3 & Hp3 & E23).
    exists r3. split; [exact Hp3|]. eapply evolves_trans; eauto.
  - intros p r3 Hp3 Hnone. destruct (units w2 !! p) as [r2|] eqn:Hp2.
    + destruct (B1 p r2 Hp2) as (r3' & Hp3' & E23).
      rewrite Hp3 in Hp3'. injection Hp3' as <-.
      apply E23. eapply A2; eauto.
    + eapply B2; eauto.
Qed.

(** A store whose units are the same has evolved. *)
Lemma store_evolves_same_units w w' : units w' = units w -> store_evolves w w'.
Proof.
  intros E. split.
  - intros p r Hp. exists r. rewrite E. split; [exact Hp|apply evolves_refl].
  - intros p r Hp Hnone. rewrite E in Hp. congruence.
Qed.

(** Overwriting a unit with an evolved version of itself. *)
Lemma store_evolves_update w u r r' :
  units w !! u = Some r ->
  evolves r r' ->
  store_evolves w (set_units (<[u := r']> (units w)) w).
Proof.
  intros Hu E. split.
  - intros p r0 Hp. cbn. destruct (decide (u = p)) as [<-|Hne].
    + rewrite Hu in Hp. injection Hp as <-. exists r'.
      split; [apply lookup_insert_eq|exact E].
    + exists r0. rewrite lookup_insert_ne by exact Hne.
      split; [exact Hp|apply evolves_refl].
  - intros p r0 Hp Hnone. cbn in Hp. destruct (decide (u = p)) as [<-|Hne].
    + congruence.
    + rewrite lookup_insert_ne in Hp by exact Hne. congruence.
Qed.

Lemma evolved_trans {A} w w1 (res : Res A) :
  store_evolves w w1 -> evolved w1 res -> evolved w res.
Proof.
  intros E. destruct res; cbn; auto; apply store_evolves_trans; exact E.
Qed.

Lemma sound_ret {A} (a : A) : sound (ret a).
Proof. intros w. apply store_evolves_refl. Qed.

Lemma sound_bind {A B} (m : M A) (k : A -> M B) :
  sound m -> (forall a, sound (k a)) -> sound (bind m k).
Proof.
  intros Hm Hk w. unfold bind. specialize (Hm w).
  destruct (m w) as [a w1|w1|msg]; cbn in *; auto.
  eapply evolved_trans; [exact Hm|apply Hk].
Qed.

(** After [load u], the continuation runs on the record found at [u]. *)
Lemma sound_load_bind {B} u (k : Unit -> M B) :
  (forall w r, units w !! u = Some r -> evolved w (k r w)) ->
  sound (bind (load u) k).
Proof.
  intros Hk w. unfold bind, load. destruct (units w !! u) as [r|] eqn:Hu; cbn; auto.
Qed.

Lemma evolved_store {B} w u r r' (k : M B) :
  units w !! u = Some r ->
  evolves r r' ->
  sound k ->
  evolved w (bind (store u r') (fun _ => k) w).
Proof.
  intros Hu E Hk. unfold bind, store.
  eapply evolved_trans; [eapply store_evolves_update; eauto|apply Hk].
Qed.

(** A field update that touches none of the life cycle fields. *)
Ltac evolves_fields :=
  unfold evolves, unit_inv; cbn; intuition congruence.

Lemma sound_modify u f : (forall r, evolves r (f r)) -> sound (modify u f).
Proof.
  intros Hf. apply sound_load_bind. intros w r Hu. unfold store.
  eapply store_evolves_update; eauto.
Qed.

Lemma sound_SetState u s : sound (SetState u s).
Proof. apply sound_modify. intros r. evolves_fields. Qed.

Lemma sound_SetPosition u pos : sound (SetPosition u pos).
Proof. apply sound_modify. intros r. evolves_fields. Qed.

Lemma sound_SetTarget u t : sound (SetTarget u t).
Proof. apply sound_modify. intros r. evolves_fields. Qed.

Lemma sound_TakeDamage u amount : sound (TakeDamage u amount).
Proof.
  apply sound_load_bind. intros w r Hu. cbv zeta.
  apply (evolved_store w u r); [exact Hu|evolves_fields|apply sound_ret].
Qed.

Lemma sound_reader {A} u (f : Unit -> A) : sound (bind (load u) (fun r => ret (f r))).
Proof. apply sound_load_bind. intros w r Hu. apply store_evolves_refl. Qed.

Lemma sound_CalculateDamageAgainst u t : sound (CalculateDamageAgainst u t).
Proof.
  apply sound_bind; [apply sound_reader|]. intros a.
  apply sound_bind; [apply sound_reader|]. intros d.
  cbv zeta. destruct (_ <? 0); apply sound_ret.
Qed.

Lemma sound_printf l : sound (printf l).
Proof. intros w. apply store_evolves_same_units. reflexivity. Qed.

Lemma sound_send_events u ev : sound (send_events u ev).
Proof.
  intros w. unfold send_events. destruct (units w !! u) as [r|] eqn:Hu; cbn; auto.
  destruct (ch_closed (events r)) eqn:Hc; cbn; auto.
  destruct (chan_full (events r)); cbn; [apply store_evolves_refl|].
  eapply store_evolves_update; [exact Hu|]. evolves_fields.
Qed.

Lemma sound_handleMove u cmd now : sound (handleMove u cmd now).
Proof.
  apply sound_bind; [apply sound_SetState|]. intros _.
  apply sound_bind; [apply sound_SetPosition|]. intros _.
  apply sound_send_events.
Qed.

Lemma sound_handleAttack u cmd now : sound (handleAttack u cmd now).
Proof.
  unfold handleAttack. destruct (cmd_Target cmd) as [t|].
  - apply sound_bind; [apply sound_SetState|]. intros _.
    apply sound_bind; [apply sound_SetTarget|]. intros _.
    apply sound_bind; [apply sound_CalculateDamageAgainst|]. intros dmg.
    apply sound_bind; [apply sound_TakeDamage|]. intros _.
    apply sound_send_events.
  - apply sound_load_bind. intros w r Hu. apply sound_printf.
Qed.

Lemma sound_handleStop u cmd : sound (handleStop u cmd).
Proof.
  apply sound_bind; [apply sound_SetState|]. intros _. apply sound_SetTarget.
Qed.

Lemma sound_handleHold u cmd : sound (handleHold u cmd).
Proof. apply sound_SetState. Qed.

Lemma sound_dispatch u cmd now : sound (dispatch u cmd now).
Proof.
  unfold dispatch.
  destruct (_ =? CmdMove); [apply sound_handleMove|].
  destruct (_ =? CmdAttack); [apply sound_handleAttack|].
  destruct (_ =? CmdStop); [apply sound_handleStop|].
  destruct (_ =? CmdHold); [apply sound_handleHold|].
  apply sound_ret.
Qed.

Lemma sound_wg_Add wg delta : sound (wg_Add wg delta).
Proof.
  intros w. unfold wg_Add. destruct (waitGroups w !! wg) as [n|]; cbn; auto.
  destruct (_ <? 0); cbn; auto. apply store_evolves_same_units. reflexivity.
Qed.

Lemma sound_run_return u : sound (run_return u).
Proof.
  apply sound_load_bind. intros w r Hu.
  apply sound_bind; [apply sound_wg_Add|]. intros _ w'.
  apply store_evolves_same_units. reflexivity.
Qed.

Lemma sound_run_recv u now : sound (run_recv u now).
Proof.
  apply sound_load_bind. intros w r Hu.
  destruct (ch_buf (commands r)) as [|cmd rest].
  - apply sound_run_return.
  - apply (evolved_store w u r); [exact Hu|evolves_fields|].
    apply sound_bind; [apply sound_dispatch|]. intros _.
    apply sound_load_bind. intros w' r' Hu'.
    apply sound_bind; [apply sound_printf|]. intros _. apply sound_ret.
Qed.

Lemma sound_go_select {A} (cases : list (bool * M A)) pick :
  Forall (fun c => sound (snd c)) cases ->
  sound (go_select cases pick).
Proof.
  intros Hall. unfold go_select.
  destruct (_ !! _) as [c|] eqn:Hc.
  - apply list_elem_of_lookup_2 in Hc. apply list_elem_of_filter in Hc as [_ Hc].
    rewrite Forall_forall in Hall. apply Hall. exact Hc.
  - intros w. apply store_evolves_refl.
Qed.

Lemma sound_run_iter u pick now : sound (run_iter u pick now).
Proof.
  apply sound_load_bind. intros w r Hu. apply sound_go_select.
  constructor; [apply sound_run_recv|].
  constructor; [apply sound_run_return|constructor].
Qed.

Lemma sound_send_commands u cmd : sound (send_commands u cmd).
Proof.
  apply sound_load_bind. intros w r Hu.
  destruct (ch_closed (commands r)) eqn:Hc; [exact I|].
  apply (evolved_store w u r); [exact Hu| |apply sound_ret].
  unfold evolves, unit_inv; cbn; intuition congruence.
Qed.

Lemma sound_SendCommand_select u cmd waited pick :
  sound (SendCommand_select u cmd waited pick).
Proof.
  apply sound_load_bind. intros w r Hu. apply sound_go_select.
  constructor; [apply sound_send_commands|].
  constructor; [apply sound_ret|].
  constructor; [apply sound_ret|constructor].
Qed.

Lemma sound_SendCommand u cmd waited pick : sound (SendCommand u cmd waited pick).
Proof.
  apply sound_bind.
  - apply sound_load_bind. intros w r Hu.
    destruct (ctxDone r); apply sound_ret.
  - intros [err|]; [apply sound_ret|apply sound_SendCommand_select].
Qed.

(** [Shutdown] closes the channel before it sets the flag; as one step it
    takes the unit from one state of the invariant to another. *)
Lemma sound_Shutdown u : sound (Shutdown u).
Proof.
  intros w. destruct (units w !! u) as [r|] eqn:Hu.
  - destruct (shutdownOnce r) eqn:Hs.
    + rewrite (Shutdown_again w u r Hu Hs). apply store_evolves_refl.
    + destruct (ch_closed (commands r)) eqn:Hc.
      * rewrite (Shutdown_double_close w u r Hu Hs Hc). exact I.
      * rewrite (Shutdown_open w u r Hu Hs Hc).
        eapply store_evolves_update; [exact Hu|].
        unfold evolves, unit_inv; cbn; intuition congruence.
  - unfold Shutdown, bind, load. rewrite Hu. exact I.
Qed.

Lemma sound_initializeStats cache u unitType : sound (initializeStats cache u unitType).
Proof.
  unfold initializeStats. apply sound_bind.
  - destruct (cache !! _); [apply sound_ret|].
    apply sound_bind; [apply sound_printf|]. intros _. apply sound_ret.
  - intros stats. apply sound_load_bind. intros w r Hu. cbv zeta. unfold store.
    eapply store_evolves_update; [exact Hu|]. evolves_fields.
Qed.

Lemma sound_alloc r : unit_inv r -> sound (alloc r).
Proof.
  intros Hr w. unfold alloc. cbn.
  assert (Hfresh : units w !! fresh (dom (units w)) = None)
    by apply not_elem_of_dom, is_fresh.
  split.
  - intros p r0 Hp. exists r0. cbn. split; [|apply evolves_refl].
    rewrite lookup_insert_ne; [exact Hp|]. congruence.
  - intros p r0 Hp Hnone. cbn in Hp.
    destruct (decide (fresh (dom (units w)) = p)) as [<-|Hne].
    + rewrite lookup_insert_eq in Hp. injection Hp as <-. exact Hr.
    + rewrite lookup_insert_ne in Hp by exact Hne. congruence.
Qed.

Lemma sound_NewUnit cache id unitType pos wg : sound (NewUnit cache id unitType pos wg).
Proof.
  apply sound_bind.
  - apply sound_alloc. repeat split; cbn; discriminate.
  - intros u. apply sound_bind; [apply sound_initializeStats|]. intros _.
    apply sound_bind; [apply sound_wg_Add|]. intros _.
    apply sound_bind; [|intros _; apply sound_ret].
    intros w. apply store_evolves_same_units. reflexivity.
Qed.

(** Every call of the interface evolves the store. *)
Lemma exec_sound c : sound (exec c).
Proof.
  destruct c; cbn [exec].
  - apply sound_bind; [apply sound_NewUnit|intros _; apply sound_ret].
  - apply sound_SetState.
  - apply sound_SetPosition.
  - apply sound_SetTarget.
  - apply sound_bind; [apply sound_TakeDamage|intros _; apply sound_ret].
  - apply sound_bind; [apply sound_SendCommand|intros _; apply sound_ret].
  - apply sound_Shutdown.
  - apply sound_bind; [apply sound_run_iter|intros _; apply sound_ret].
Qed.

Lemma exec_store_evolves c w : store_evolves w (exec_store c w).
Proof.
  unfold exec_store. pose proof (exec_sound c w) as H.
  destruct (exec c w); cbn in H; auto. apply store_evolves_refl.
Qed.

Lemma exec_all_evolves cs : forall w, store_evolves w (exec_all cs w).
Proof.
  induction cs as [|c rest IH]; intros w; cbn.
  - apply store_evolves_refl.
  - eapply store_evolves_trans; [apply exec_store_evolves|apply IH].
Qed.

(** The life cycle invariant holds in every store the program can reach
    from one without units. *)
Lemma reachable_world_inv cs w :
  units w = ∅ -> world_inv (exec_all cs w).
Proof.
  intros Hempty p r Hp.
  destruct (exec_all_evolves cs w) as [_ Hnew].
  apply (Hnew p r Hp). rewrite Hempty. apply lookup_empty.
Qed.

Lemma world_inv_preserved cs w : world_inv w -> world_inv (exec_all cs w).
Proof.
  intros Hinv p r' Hp.
  destruct (exec_all_evolves cs w) as [Hold Hnew].
  destruct (units w !! p) as [r|] eqn:Hw.
  - destruct (Hold p r Hw) as (r'' & Hp' & E). rewrite Hp in Hp'. injection Hp' as <-.
    apply E. eapply Hinv; eauto.
  - eapply Hnew; eauto.
Qed.

(** Once cancelled, a unit's context stays cancelled whatever is called. *)
Lemma cancelled_forever cs w u r :
  units w !! u = Some r ->
  ctxDone r = true ->
  exists r', units (exec_all cs w) !! u = Some r' /\ ctxDone r' = true.
Proof.
  intros Hu Hc. destruct (exec_all_evolves cs w) as [Hold _].
  destruct (Hold u r Hu) as (r' & Hu' & _ & E & _). eauto.
Qed.

End InvariantFacts.

(* ===================================================================== *)
(** * Command submission *)
(* ===================================================================== *)

Module SubmissionFacts.

Import Types Props GoIntFacts Scenario LifecycleFacts InvariantFacts.
Local Open Scope go_scope.

(** C5.  [SendCommand] returns the shutting-down error when the unit's
    context is cancelled; on a live unit whose inbox is still full when the
    100ms timer fires it returns the backpressure error, and until then it
    waits; once [Shutdown] has returned, every [SendCommand], whatever has
    been called in between, returns the shutting-down error and leaves the
    store untouched.  The inbox that [NewUnit] makes holds 10 commands. *)
Theorem SendCommand_errors w u r cmd waited pick :
  units w !! u = Some r ->
  unit_inv r ->
  (ctxDone r = true ->
     SendCommand u cmd waited pick w = Ok (Some errShuttingDown) w) /\
  (ctxDone r = false -> chan_full (commands r) = true ->
     (sendTimeout <= waited ->
        SendCommand u cmd waited pick w = Ok (Some errBackpressure) w) /\
     (waited < sendTimeout ->
        SendCommand u cmd waited pick w = Blocked w)) /\
  (exists w1,
     Shutdown u w = Ok tt w1 /\
     forall cs cmd' waited' pick',
       SendCommand u cmd' waited' pick' (exec_all cs w1)
         = Ok (Some errShuttingDown) (exec_all cs w1)) /\
  sendTimeout = 100 /\
  inboxCapacity = 10%nat /\
  errShuttingDown = "unit is shutting down"%string /\
  errBackpressure = "command queue full - backpressure"%string.
Proof.
  intros Hu Hinv. split; [|split; [|split]].
  - intros Hc. now apply (SendCommand_cancelled w u r).
  - intros Hc Hfull. rewrite (SendCommand_full _ _ _ _ _ _ Hu Hinv Hc Hfull). split.
    + intros Hw. apply Z.leb_le in Hw. rewrite Hw. reflexivity.
    + intros Hw. apply Z.leb_gt in Hw. rewrite Hw. reflexivity.
  - destruct (Shutdown_returns w u r Hu Hinv)
      as (w1 & r1 & Hrun & Hu1 & _ & Hc & _).
    exists w1. split; [assumption|]. intros cs cmd' waited' pick'.
    destruct (cancelled_forever cs w1 u r1 Hu1 Hc) as (r2 & Hu2 & Hc2).
    now apply (SendCommand_cancelled _ u r2).
  - repeat split.
Qed.

Lemma SendCommand_errors_witness :
  SendCommand marine stopCmd 100 0 w_full = Ok (Some errBackpressure) w_full /\
  SendCommand marine stopCmd 99 0 w_full = Blocked w_full /\
  (exists w1,
     Shutdown marine w_full = Ok tt w1 /\
     forall cs cmd' waited' pick',
       SendCommand marine cmd' waited' pick' (exec_all cs w1)
         = Ok (Some errShuttingDown) (exec_all cs w1)).
Proof.
  assert (Hu : units w_full !! marine = Some marineFull) by reflexivity.
  assert (Hinv : unit_inv marineFull) by (repeat split; cbn; discriminate).
  pose proof (SendCommand_errors w_full marine marineFull stopCmd 100 0 Hu Hinv) as H100.
  pose proof (SendCommand_errors w_full marine marineFull stopCmd 99 0 Hu Hinv) as H99.
  split; [|split].
  - apply H100; reflexivity.
  - apply H99; reflexivity.
  - apply H100.
Defined.

End SubmissionFacts.

(* ===================================================================== *)
(** * The resource manager and the unit manager as they stand *)
(* ===================================================================== *)

Module ManagerFacts.

Import Types Scenario.

(** Whatever is asked for, [AllocateResources] only makes an empty response
    channel, and the transaction processor returns without touching the
    store: no result is ever there to receive, and no ledger changes. *)
Lemma AllocateResources_inert rm requester deltas timeout s :
  let ch := fst (Resources.AllocateResources rm requester deltas timeout s) in
  let s' := Resources.transactionProcessor rm
              (snd (Resources.AllocateResources rm requester deltas timeout s)) in
  Resources.try_recv ch s' = None /\
  Resources.managers s' = Resources.managers s /\
  Resources.channels s !! ch = None.
Proof.
  cbn. unfold Resources.try_recv. cbn. rewrite lookup_insert_eq. cbn.
  repeat split. apply not_elem_of_dom, is_fresh.
Qed.

(** C4 fails on the code.  On the ledger with minerals at 10 of 100, an
    allocation of -20 minerals leaves the ledger at 10 but its response
    channel stays empty after the transaction processor has run: the caller
    gets no [TransactionResult] at all, neither [Success:false] nor any
    other.  An allocation of -5, which would pass the checks, is not
    applied either: minerals stay at 10 and no success is reported. *)
Theorem AllocateResources_reports_nothing :
  Resources.current_of 1%positive "minerals" ledger = Some 10 /\
  Resources.try_recv
    (fst (Resources.AllocateResources (Some 1%positive) "marine-1" {[ "minerals"%string := -20 ]} 1000 ledger))
    (Resources.transactionProcessor (Some 1%positive)
       (snd (Resources.AllocateResources (Some 1%positive) "marine-1" {[ "minerals"%string := -20 ]} 1000 ledger)))
    = None /\
  Resources.current_of 1%positive "minerals"
    (Resources.transactionProcessor (Some 1%positive)
       (snd (Resources.AllocateResources (Some 1%positive) "marine-1" {[ "minerals"%string := -20 ]} 1000 ledger)))
    = Some 10 /\
  Resources.try_recv
    (fst (Resources.AllocateResources (Some 1%positive) "marine-1" {[ "minerals"%string := -5 ]} 1000 ledger))
    (Resources.transactionProcessor (Some 1%positive)
       (snd (Resources.AllocateResources (Some 1%positive) "marine-1" {[ "minerals"%string := -5 ]} 1000 ledger)))
    = None /\
  Resources.current_of 1%positive "minerals"
    (Resources.transactionProcessor (Some 1%positive)
       (snd (Resources.AllocateResources (Some 1%positive) "marine-1" {[ "minerals"%string := -5 ]} 1000 ledger)))
    = Some 10.
Proof. repeat split; vm_compute; reflexivity. Qed.






End ManagerFacts.

(* ===================================================================== *)
(** * The enumerations and their names *)
(* ===================================================================== *)

Module EnumFacts.

Import Types Enums.

(** Looking a key up in a table written as a list of pairs. *)
Ltac table_lookup H :=
  apply elem_of_list_to_map_2 in H;
  repeat (apply elem_of_cons in H as [H|H]; [injection H as -> ->|]);
  try (apply elem_of_nil in H; destruct H).

(** A value within the bounds of an enumeration is one of its constants. *)
Lemma below_cases (k : nat) (x : Z) :
  0 <= x < Z.of_nat k -> exists n : nat, x = Z.of_nat n /\ (n < k)%nat.
Proof. intros H. exists (Z.to_nat x). lia. Qed.

Lemma UnitType_named ut :
  UnitType_IsValid ut = true <-> is_Some (unitTypeNames !! ut).
Proof.
  split.
  - unfold UnitType_IsValid, SCV, unitTypeCount. intros H.
    apply andb_true_iff in H as [H1 H2]. apply Z.leb_le in H1. apply Z.ltb_lt in H2.
    destruct (below_cases 34 ut ltac:(lia)) as (n & -> & Hn).
    do 34 (destruct n as [|n]; [vm_compute; eauto|]). lia.
  - intros [name H]. unfold unitTypeNames in H. table_lookup H; reflexivity.
Qed.

Lemma UnitState_named us :
  UnitState_IsValid us = true <-> is_Some (unitStateNames !! us).
Proof.
  split.
  - unfold UnitState_IsValid, Idle, unitStateCount. intros H.
    apply andb_true_iff in H as [H1 H2]. apply Z.leb_le in H1. apply Z.ltb_lt in H2.
    destruct (below_cases 9 us ltac:(lia)) as (n & -> & Hn).
    do 9 (destruct n as [|n]; [vm_compute; eauto|]). lia.
  - intros [name H]. unfold unitStateNames in H. table_lookup H; reflexivity.
Qed.

Lemma ElevationLayer_named el :
  ElevationLayer_IsValid el = true <-> is_Some (elevationLayerNames !! el).
Proof.
  split.
  - unfold ElevationLayer_IsValid, Burrowed, elevationLayerCount. intros H.
    apply andb_true_iff in H as [H1 H2]. apply Z.leb_le in H1. apply Z.ltb_lt in H2.
    destruct (below_cases 3 el ltac:(lia)) as (n & -> & Hn).
    do 3 (destruct n as [|n]; [vm_compute; eauto|]). lia.
  - intros [name H]. unfold elevationLayerNames in H. table_lookup H; reflexivity.
Qed.

Lemma TerrainType_named tt :
  TerrainType_IsValid tt = true <-> is_Some (terrainTypeNames !! tt).
Proof.
  split.
  - unfold TerrainType_IsValid, LowGround, terrainTypeCount. intros H.
    apply andb_true_iff in H as [H1 H2]. apply Z.leb_le in H1. apply Z.ltb_lt in H2.
    destruct (below_cases 6 tt ltac:(lia)) as (n & -> & Hn).
    do 6 (destruct n as [|n]; [vm_compute; eauto|]). lia.
  - intros [name H]. unfold terrainTypeNames in H. table_lookup H; reflexivity.
Qed.

(** X1.  In each of the four enumerations, [IsValid] holds exactly of the
    values the name table lists; so [String] answers with a table name
    exactly on the valid values, and with the numbered fallback
    ("UnitType(999)") on every other integer. *)
Theorem IsValid_iff_named (x : Z) :
  (UnitType_IsValid x = true <-> is_Some (unitTypeNames !! x)) /\
  (UnitState_IsValid x = true <-> is_Some (unitStateNames !! x)) /\
  (ElevationLayer_IsValid x = true <-> is_Some (elevationLayerNames !! x)) /\
  (TerrainType_IsValid x = true <-> is_Some (terrainTypeNames !! x)) /\
  (UnitType_IsValid x = false ->
     UnitType_String x = ("UnitType(" ++ pretty x ++ ")")%string) /\
  (UnitState_IsValid x = false ->
     UnitState_String x = ("UnitState(" ++ pretty x ++ ")")%string) /\
  (ElevationLayer_IsValid x = false ->
     ElevationLayer_String x = ("ElevationLayer(" ++ pretty x ++ ")")%string) /\
  (TerrainType_IsValid x = false ->
     TerrainType_String x = ("TerrainType(" ++ pretty x ++ ")")%string).
Proof.
  split; [apply UnitType_named|]. split; [apply UnitState_named|].
  split; [apply ElevationLayer_named|]. split; [apply TerrainType_named|].
  split; [|split; [|split]]; intros Hf.
  - unfold UnitType_String. case_match eqn:E; [|reflexivity].
    assert (Hs : is_Some (unitTypeNames !! x)) by (eexists; exact E).
    apply UnitType_named in Hs. congruence.
  - unfold UnitState_String. case_match eqn:E; [|reflexivity].
    assert (Hs : is_Some (unitStateNames !! x)) by (eexists; exact E).
    apply UnitState_named in Hs. congruence.
  - unfold ElevationLayer_String. case_match eqn:E; [|reflexivity].
    assert (Hs : is_Some (elevationLayerNames !! x)) by (eexists; exact E).
    apply ElevationLayer_named in Hs. congruence.
  - unfold TerrainType_String. case_match eqn:E; [|reflexivity].
    assert (Hs : is_Some (terrainTypeNames !! x)) by (eexists; exact E).
    apply TerrainType_named in Hs. congruence.
Qed.

Lemma string_length_app (s t : string) :
  String.length (s +:+ t) = (String.length s + String.length t)%nat.
Proof. induction s as [|a s IH]; simpl; [reflexivity|]. f_equal. exact IH. Qed.

(** Cancelling a common suffix. *)
Lemma string_app_inj_l (t s1 s2 : string) : s1 +:+ t = s2 +:+ t -> s1 = s2.
Proof.
  revert s2. induction s1 as [|a s1 IH]; intros [|b s2] H.
  - reflexivity.
  - apply (f_equal String.length) in H.
    rewrite !string_length_app in H. simpl in H. lia.
  - apply (f_equal String.length) in H.
    rewrite !string_length_app in H. simpl in H. lia.
  - simpl in H. injection H as -> H. f_equal. now apply IH.
Qed.

(** No name of the table looks like the numbered fallback. *)
Lemma UnitType_name_not_fallback ut name s :
  unitTypeNames !! ut = Some name -> name <> ("UnitType(" ++ s ++ ")")%string.
Proof.
  intros H E. unfold unitTypeNames in H. table_lookup H; cbn in E; discriminate E.
Qed.

(** The table lists no name twice. *)
Lemma UnitType_names_distinct a b name :
  unitTypeNames !! a = Some name -> unitTypeNames !! b = Some name -> a = b.
Proof.
  intros Ha Hb. unfold unitTypeNames in Ha. table_lookup Ha;
    unfold unitTypeNames in Hb; apply elem_of_list_to_map_2 in Hb;
    repeat (apply elem_of_cons in Hb as [Hb|Hb];
            [apply pair_equal_spec in Hb as [Hb1 Hb2];
             first [discriminate Hb2 | exact (eq_sym Hb1)]|]);
    apply elem_of_nil in Hb; destruct Hb.
Qed.

(** X2.  [UnitType.String] is injective over all integers: two different
    unit types, valid or not, never get the same name, so they never share
    an entry of the stats table, which is keyed by that name. *)
Theorem UnitType_String_inj (a b : UnitType) :
  UnitType_String a = UnitType_String b -> a = b.
Proof.
  unfold UnitType_String.
  destruct (unitTypeNames !! a) as [na|] eqn:Ea;
    destruct (unitTypeNames !! b) as [nb|] eqn:Eb; intros H.
  - subst nb. eapply UnitType_names_distinct; eauto.
  - exfalso. eapply UnitType_name_not_fallback; eauto.
  - exfalso. symmetry in H. eapply UnitType_name_not_fallback; eauto.
  - apply (String.app_inj "UnitType(") in H.
    apply string_app_inj_l in H. now apply (inj pretty) in H.
Qed.

Lemma UnitType_String_inj_witness :
  UnitType_String Marine = UnitType_String 1 /\ Marine = 1.
Proof.
  split; [reflexivity | apply (UnitType_String_inj Marine 1); reflexivity].
Defined.

(** X3.  Round trip between the layer names and [initializeStats]: parsing
    the name [String] gives a valid layer returns that layer, and every
    string that is not "Air" or "Burrowed" (a misspelt or empty one too) is
    read as [Ground]. *)
Theorem parseLayer_round_trip (el : ElevationLayer) (name : string) :
  (ElevationLayer_IsValid el = true -> parseLayer (ElevationLayer_String el) = el) /\
  (name <> "Air"%string -> name <> "Burrowed"%string -> parseLayer name = Ground) /\
  ElevationLayer_IsValid (parseLayer name) = true.
Proof.
  split; [|split].
  - intros H. apply ElevationLayer_named in H as [n H].
    unfold ElevationLayer_String. rewrite H.
    unfold elevationLayerNames in H. table_lookup H; reflexivity.
  - intros H1 H2. unfold parseLayer.
    destruct (String.eqb_spec name "Ground"); [reflexivity|].
    destruct (String.eqb_spec name "Air"); [contradiction|].
    destruct (String.eqb_spec name "Burrowed"); [contradiction|reflexivity].
  - unfold parseLayer. repeat (destruct (String.eqb _ _)); reflexivity.
Qed.

End EnumFacts.

(* ===================================================================== *)
(** * What every run of the program preserves *)
(* ===================================================================== *)

Module RunFacts.

Import Types Props Behaviour GoIntFacts Scenario HealthFacts LifecycleFacts HandlerFacts.
Local Open Scope go_scope.

(** How [NewUnit] ends, whatever the store. *)
Lemma NewUnit_cases cache w id unitType pos wg :
  NewUnit cache id unitType pos wg w =
    match waitGroups w !! wg with
    | None => Panic nil_deref
    | Some n =>
        if n + 1 <? 0 then Panic "sync: negative WaitGroup counter"
        else
          Ok (fresh (dom (units w)))
             (mkWorld (<[fresh (dom (units w)) := new_unit cache id unitType pos wg]> (units w))
                (<[wg := n + 1]> (waitGroups w))
                ({[fresh (dom (units w))]} ∪ loops w)
                (console w ++ match cache !! UnitType_String unitType with
                              | Some _ => []
                              | None => [LogUnknownType (UnitType_String unitType)]
                              end))
    end.
Proof.
  unfold NewUnit, alloc, initializeStats, wg_Add, go_run, bind, printf, load, store, ret,
    new_unit.
  destruct (cache !! UnitType_String unitType) as [s|]; cbn [units set_units set_console
    console waitGroups set_waitGroups loops set_loops default];
    rewrite lookup_insert_eq;
    cbn [units set_units set_console console waitGroups set_waitGroups loops set_loops
         ID Type_ position target commands events ctxDone Types.wg shutdownOnce state];
    destruct (waitGroups w !! wg) as [n|]; try reflexivity;
    destruct (n + 1 <? 0); try reflexivity;
    cbn [units set_units set_console console waitGroups set_waitGroups loops set_loops];
    rewrite insert_insert_eq, ?app_nil_r; reflexivity.
Qed.

Section Generic.

Variable R : Unit -> Unit -> Prop.
Variable N : Unit -> Prop.

Hypothesis R_refl : forall r, R r r.
Hypothesis R_trans : forall r1 r2 r3, R r1 r2 -> R r2 r3 -> R r1 r3.
Hypothesis N_R : forall r r', N r -> R r r' -> N r'.

Lemma store_rel_refl w : store_rel R N w w.
Proof.
  split.
  - intros p r Hp. exists r. split; [exact Hp|apply R_refl].
  - intros p r Hp Hnone. congruence.
Qed.

Lemma store_rel_trans w1 w2 w3 :
  store_rel R N w1 w2 -> store_rel R N w2 w3 -> store_rel R N w1 w3.
Proof.
  intros [A1 A2] [B1 B2]. split.
  - intros p r Hp. destruct (A1 p r Hp) as (r2 & Hp2 & E12).
    destruct (B1 p r2 Hp2) as (r3 & Hp3 & E23).
    exists r3. split; [exact Hp3|]. eapply R_trans; eauto.
  - intros p r3 Hp3 Hnone. destruct (units w2 !! p) as [r2|] eqn:Hp2.
    + destruct (B1 p r2 Hp2) as (r3' & Hp3' & E23).
      rewrite Hp3 in Hp3'. apply (inj Some) in Hp3' as <-.
      eapply N_R; [|exact E23]. eapply A2; eauto.
    + eapply B2; eauto.
Qed.

Lemma store_rel_same_units w w' : units w' = units w -> store_rel R N w w'.
Proof.
  intros E. split.
  - intros p r Hp. exists r. rewrite E. split; [exact Hp|apply R_refl].
  - intros p r Hp Hnone. rewrite E in Hp. congruence.
Qed.

Lemma store_rel_update w u r r' :
  units w !! u = Some r ->
  R r r' ->
  store_rel R N w (set_units (<[u := r']> (units w)) w).
Proof.
  intros Hu E. split.
  - intros p r0 Hp. cbn. destruct (decide (u = p)) as [<-|Hne].
    + rewrite Hu in Hp. apply (inj Some) in Hp as <-. exists r'.
      split; [apply lookup_insert_eq|exact E].
    + exists r0. rewrite lookup_insert_ne by exact Hne.
      split; [exact Hp|apply R_refl].
  - intros p r0 Hp Hnone. cbn in Hp. destruct (decide (u = p)) as [<-|Hne].
    + congruence.
    + rewrite lookup_insert_ne in Hp by exact Hne. congruence.
Qed.

Lemma res_rel_trans {A} w w1 (res : Res A) :
  store_rel R N w w1 -> res_rel R N w1 res -> res_rel R N w res.
Proof.
  intros E. destruct res; cbn; auto; apply store_rel_trans; exact E.
Qed.

Lemma respects_ret {A} (a : A) : respects R N (ret a).
Proof. intros w. apply store_rel_refl. Qed.

Lemma respects_bind {A B} (m : M A) (k : A -> M B) :
  respects R N m -> (forall a, respects R N (k a)) -> respects R N (bind m k).
Proof.
  intros Hm Hk w. unfold bind. specialize (Hm w).
  destruct (m w) as [a w1|w1|msg]; cbn in *; auto.
  eapply res_rel_trans; [exact Hm|apply Hk].
Qed.

Lemma respects_load_bind {B} u (k : Unit -> M B) :
  (forall w r, units w !! u = Some r -> res_rel R N w (k r w)) ->
  respects R N (bind (load u) k).
Proof.
  intros Hk w. unfold bind, load. destruct (units w !! u) as [r|] eqn:Hu; cbn; auto.
Qed.

Lemma res_rel_store {B} w u r r' (k : M B) :
  units w !! u = Some r ->
  R r r' ->
  respects R N k ->
  res_rel R N w (bind (store u r') (fun _ => k) w).
Proof.
  intros Hu E Hk. unfold bind, store.
  eapply res_rel_trans; [eapply store_rel_update; eauto|apply Hk].
Qed.

Lemma respects_modify u f : (forall r, R r (f r)) -> respects R N (modify u f).
Proof.
  intros Hf. apply respects_load_bind. intros w r Hu. unfold store.
  eapply store_rel_update; eauto.
Qed.

Lemma respects_reader {A} u (f : Unit -> A) :
  respects R N (bind (load u) (fun r => ret (f r))).
Proof. apply respects_load_bind. intros w r Hu. apply store_rel_refl. Qed.

Lemma respects_CalculateDamageAgainst u t : respects R N (CalculateDamageAgainst u t).
Proof.
  apply respects_bind; [apply respects_reader|]. intros a.
  apply respects_bind; [apply respects_reader|]. intros d.
  cbv zeta. destruct (_ <? 0); apply respects_ret.
Qed.

Lemma respects_printf l : respects R N (printf l).
Proof. intros w. apply store_rel_same_units. reflexivity. Qed.

Lemma respects_wg_Add wg delta : respects R N (wg_Add wg delta).
Proof.
  intros w. unfold wg_Add. destruct (waitGroups w !! wg) as [n|]; cbn; auto.
  destruct (_ <? 0); cbn; auto. apply store_rel_same_units. reflexivity.
Qed.

Lemma respects_run_return u : respects R N (run_return u).
Proof.
  apply respects_load_bind. intros w r Hu.
  apply respects_bind; [apply respects_wg_Add|]. intros _ w'.
  apply store_rel_same_units. reflexivity.
Qed.

(** In a [select], only the ready cases matter. *)
Lemma res_rel_go_select {A} (cases : list (bool * M A)) pick w :
  (forall c, c ∈ cases -> fst c = true -> res_rel R N w (snd c w)) ->
  res_rel R N w (go_select cases pick w).
Proof.
  intros Hall. unfold go_select.
  destruct (_ !! _) as [c|] eqn:Hc.
  - apply list_elem_of_lookup_2 in Hc. apply list_elem_of_filter in Hc as [Hready Hc].
    apply Hall; assumption.
  - apply store_rel_refl.
Qed.

(** What the code writes into a record, case by case. *)
Hypothesis L_state :
  forall r, R r (set_state Moving r) /\ R r (set_state Attacking r) /\
            R r (set_state Idle r) /\ R r (set_state HoldingPosition r).
Hypothesis L_position : forall r pos, R r (set_position pos r).
Hypothesis L_target : forall r t, R r (set_target t r).
Hypothesis L_health :
  forall r amount,
    R r (set_health (if sub64 (health r) amount <? 0 then 0
                     else sub64 (health r) amount) r).
Hypothesis L_event :
  forall r ev, ch_closed (events r) = false -> chan_full (events r) = false ->
    R r (set_events (chan_push ev (events r)) r).
Hypothesis L_pop :
  forall r cmd rest, ch_buf (commands r) = cmd :: rest ->
    R r (set_commands (mkChan (ch_cap (commands r)) rest (ch_closed (commands r))) r).
Hypothesis L_push :
  forall r cmd, ch_closed (commands r) = false -> chan_full (commands r) = false ->
    R r (set_commands (chan_push cmd (commands r)) r).
Hypothesis L_shut :
  forall r, shutdownOnce r = false -> ch_closed (commands r) = false -> R r (shut_down r).
Hypothesis L_new : forall cache id unitType pos wg, N (new_unit cache id unitType pos wg).

Lemma respects_SetPosition u pos : respects R N (SetPosition u pos).
Proof. apply respects_modify. intros r. apply L_position. Qed.

Lemma respects_SetTarget u t : respects R N (SetTarget u t).
Proof. apply respects_modify. intros r. apply L_target. Qed.

Lemma respects_TakeDamage u amount : respects R N (TakeDamage u amount).
Proof.
  apply respects_load_bind. intros w r Hu. cbv zeta.
  apply (res_rel_store w u r); [exact Hu|apply L_health|apply respects_ret].
Qed.

Lemma respects_send_events u ev : respects R N (send_events u ev).
Proof.
  intros w. unfold send_events. destruct (units w !! u) as [r|] eqn:Hu; cbn; auto.
  destruct (ch_closed (events r)) eqn:Hc; cbn; auto.
  destruct (chan_full (events r)) eqn:Hf; cbn; [apply store_rel_refl|].
  eapply store_rel_update; [exact Hu|]. now apply L_event.
Qed.

Lemma respects_handleMove u cmd now : respects R N (handleMove u cmd now).
Proof.
  apply respects_bind; [apply respects_modify; intros r; apply L_state|]. intros _.
  apply respects_bind; [apply respects_SetPosition|]. intros _.
  apply respects_send_events.
Qed.

Lemma respects_handleAttack u cmd now : respects R N (handleAttack u cmd now).
Proof.
  unfold handleAttack. destruct (cmd_Target cmd) as [t|].
  - apply respects_bind; [apply respects_modify; intros r; apply L_state|]. intros _.
    apply respects_bind; [apply respects_SetTarget|]. intros _.
    apply respects_bind; [apply respects_CalculateDamageAgainst|]. intros dmg.
    apply respects_bind; [apply respects_TakeDamage|]. intros _.
    apply respects_send_events.
  - apply respects_load_bind. intros w r Hu. apply respects_printf.
Qed.

Lemma respects_handleStop u cmd : respects R N (handleStop u cmd).
Proof.
  apply respects_bind; [apply respects_modify; intros r; apply L_state|]. intros _.
  apply respects_SetTarget.
Qed.

Lemma respects_handleHold u cmd : respects R N (handleHold u cmd).
Proof. apply respects_modify. intros r. apply L_state. Qed.

Lemma respects_dispatch u cmd now : respects R N (dispatch u cmd now).
Proof.
  unfold dispatch.
  destruct (_ =? CmdMove); [apply respects_handleMove|].
  destruct (_ =? CmdAttack); [apply respects_handleAttack|].
  destruct (_ =? CmdStop); [apply respects_handleStop|].
  destruct (_ =? CmdHold); [apply respects_handleHold|].
  apply respects_ret.
Qed.

Lemma respects_run_recv u now : respects R N (run_recv u now).
Proof.
  apply respects_load_bind. intros w r Hu.
  destruct (ch_buf (commands r)) as [|cmd rest] eqn:Hbuf.
  - apply respects_run_return.
  - apply (res_rel_store w u r); [exact Hu|exact (L_pop r cmd rest Hbuf)|].
    apply respects_bind; [apply respects_dispatch|]. intros _.
    apply respects_load_bind. intros w' r' Hu'.
    apply respects_bind; [apply respects_printf|]. intros _. apply respects_ret.
Qed.

Lemma respects_run_iter u pick now : respects R N (run_iter u pick now).
Proof.
  apply respects_load_bind. intros w r Hu. apply res_rel_go_select.
  intros c Hc _.
  apply elem_of_cons in Hc as [->|Hc]; [apply respects_run_recv|].
  apply elem_of_cons in Hc as [->|Hc]; [apply respects_run_return|].
  apply elem_of_nil in Hc. destruct Hc.
Qed.

Lemma respects_SendCommand_select u cmd waited pick :
  respects R N (SendCommand_select u cmd waited pick).
Proof.
  apply respects_load_bind. intros w r Hu. apply res_rel_go_select.
  intros c Hc Hready.
  apply elem_of_cons in Hc as [->|Hc].
  { cbn [fst snd] in *. unfold send_commands, bind, load. rewrite Hu.
    destruct (ch_closed (commands r)) eqn:Hclosed; [exact I|].
    rewrite orb_false_r in Hready. apply negb_true_iff in Hready.
    unfold store, ret. eapply store_rel_update; [exact Hu|]. now apply L_push. }
  apply elem_of_cons in Hc as [->|Hc]; [apply respects_ret|].
  apply elem_of_cons in Hc as [->|Hc]; [apply respects_ret|].
  apply elem_of_nil in Hc. destruct Hc.
Qed.

Lemma respects_SendCommand u cmd waited pick : respects R N (SendCommand u cmd waited pick).
Proof.
  apply respects_bind.
  - apply respects_load_bind. intros w r Hu.
    destruct (ctxDone r); apply respects_ret.
  - intros [err|]; [apply respects_ret|apply respects_SendCommand_select].
Qed.

Lemma respects_Shutdown u : respects R N (Shutdown u).
Proof.
  intros w. destruct (units w !! u) as [r|] eqn:Hu.
  - destruct (shutdownOnce r) eqn:Hs.
    + rewrite (Shutdown_again w u r Hu Hs). apply store_rel_refl.
    + destruct (ch_closed (commands r)) eqn:Hc.
      * rewrite (Shutdown_double_close w u r Hu Hs Hc). exact I.
      * rewrite (Shutdown_open w u r Hu Hs Hc).
        eapply store_rel_update; [exact Hu|]. now apply L_shut.
  - unfold Shutdown, bind, load. rewrite Hu. exact I.
Qed.

Lemma respects_NewUnit cache id unitType pos wg :
  respects R N (NewUnit cache id unitType pos wg).
Proof.
  intros w. rewrite NewUnit_cases.
  destruct (waitGroups w !! wg) as [n|]; [|exact I].
  destruct (n + 1 <? 0); [exact I|].
  assert (Hfresh : units w !! fresh (dom (units w)) = None)
    by apply not_elem_of_dom, is_fresh.
  split; cbn [units].
  - intros p r0 Hp. exists r0. split; [|apply R_refl].
    rewrite lookup_insert_ne; [exact Hp|]. congruence.
  - intros p r0 Hp Hnone.
    destruct (decide (fresh (dom (units w)) = p)) as [<-|Hne].
    + rewrite lookup_insert_eq in Hp. apply (inj Some) in Hp as <-. apply L_new.
    + rewrite lookup_insert_ne in Hp by exact Hne. congruence.
Qed.

Lemma exec_respects c : call_respects R c -> respects R N (exec c).
Proof.
  destruct c; cbn [exec call_respects]; intros Hc.
  - apply respects_bind; [apply respects_NewUnit|intros _; apply respects_ret].
  - apply respects_modify. exact Hc.
  - apply respects_SetPosition.
  - apply respects_SetTarget.
  - apply respects_bind; [apply respects_TakeDamage|intros _; apply respects_ret].
  - apply respects_bind; [apply respects_SendCommand|intros _; apply respects_ret].
  - apply respects_Shutdown.
  - apply respects_bind; [apply respects_run_iter|intros _; apply respects_ret].
Qed.

Lemma exec_all_respects cs : forall w,
  Forall (call_respects R) cs -> store_rel R N w (exec_all cs w).
Proof.
  induction cs as [|c rest IH]; intros w Hcs; cbn.
  - apply store_rel_refl.
  - inversion Hcs as [|? ? Hc Hrest]; subst.
    eapply store_rel_trans; [|apply IH; exact Hrest].
    unfold exec_store. pose proof (exec_respects c Hc w) as H.
    destruct (exec c w); cbn in H; auto. apply store_rel_refl.
Qed.

End Generic.

(** ** The fields that are written once *)

Lemma static_respected cs w :
  store_rel (fun r r' => static r' = static r) (fun _ => True) w (exec_all cs w).
Proof.
  apply exec_all_respects; try (intros; reflexivity); try (intros; exact I).
  - intros r1 r2 r3 H1 H2. congruence.
  - intros r. repeat split.
  - apply Forall_forall. intros [] _; cbn; try exact I. intros r. reflexivity.
Qed.

(** X4.  No sequence of calls, in any interleaving, changes a unit's ID,
    type, maximum health, base stats, modifiers, upgrade counters, ranges,
    layer, WaitGroup or channel capacities: they are written by [NewUnit]
    and never again.  So a unit is never removed from the store, and
    [GetDamage] and [GetArmor] return the same values for its whole life. *)
Theorem static_fields_never_change cs w u r :
  units w !! u = Some r ->
  exists r' d a,
    units (exec_all cs w) !! u = Some r' /\
    static r' = static r /\
    GetDamage u w = Ok d w /\
    GetDamage u (exec_all cs w) = Ok d (exec_all cs w) /\
    GetArmor u w = Ok a w /\
    GetArmor u (exec_all cs w) = Ok a (exec_all cs w).
Proof.
  intros Hu. destruct (static_respected cs w) as [Hold _].
  destruct (Hold u r Hu) as (r' & Hu' & Hs).
  exists r', (add64 (baseDamage r) (mul64 (attackModifier r) (attackUpgrades r))),
    (add64 (baseArmor r) (mul64 (armorModifier r) (armorUpgrades r))).
  split; [exact Hu'|]. split; [exact Hs|].
  rewrite (GetDamage_eq _ _ _ Hu), (GetDamage_eq _ _ _ Hu').
  rewrite (GetArmor_eq _ _ _ Hu), (GetArmor_eq _ _ _ Hu').
  unfold static in Hs. injection Hs; intros.
  repeat split; f_equal; congruence.
Qed.

Lemma static_fields_never_change_witness :
  exists r' d a,
    units (exec_all [CallTakeDamage marine 100; CallSetState marine Dead;
                     CallSendCommand marine attackZergling 0 0;
                     CallRunIter marine 0 0; CallShutdown marine] w_duel) !! marine
      = Some r' /\
    static r' = static marineUnit /\
    GetDamage marine w_duel = Ok d w_duel /\
    GetDamage marine
      (exec_all [CallTakeDamage marine 100; CallSetState marine Dead;
                 CallSendCommand marine attackZergling 0 0;
                 CallRunIter marine 0 0; CallShutdown marine] w_duel)
      = Ok d
          (exec_all [CallTakeDamage marine 100; CallSetState marine Dead;
                     CallSendCommand marine attackZergling 0 0;
                     CallRunIter marine 0 0; CallShutdown marine] w_duel) /\
    GetArmor marine w_duel = Ok a w_duel /\
    GetArmor marine
      (exec_all [CallTakeDamage marine 100; CallSetState marine Dead;
                 CallSendCommand marine attackZergling 0 0;
                 CallRunIter marine 0 0; CallShutdown marine] w_duel)
      = Ok a
          (exec_all [CallTakeDamage marine 100; CallSetState marine Dead;
                     CallSendCommand marine attackZergling 0 0;
                     CallRunIter marine 0 0; CallShutdown marine] w_duel).
Proof.
  refine (static_fields_never_change _ w_duel marine marineUnit _).
  vm_compute. reflexivity.
Defined.

(** ** Channel capacities *)

Lemma chan_not_full {A} (c : Chan A) :
  chan_full c = false -> (length (ch_buf c) < ch_cap c)%nat.
Proof. unfold chan_full. intros H. apply Nat.leb_gt in H. exact H. Qed.

Lemma capacity_respected cs w :
  store_rel (fun r r' => within_capacity r -> within_capacity r') within_capacity
    w (exec_all cs w).
Proof.
  apply exec_all_respects; unfold within_capacity.
  - auto.
  - auto.
  - auto.
  - intros r. repeat split; cbn; tauto.
  - intros r pos. cbn. tauto.
  - intros r t. cbn. tauto.
  - intros r amount. cbn. tauto.
  - intros r ev _ Hf [H1 H2]. apply chan_not_full in Hf. cbn.
    rewrite length_app. cbn. split; [exact H1|lia].
  - intros r cmd rest Hbuf [H1 H2]. cbn. rewrite Hbuf in H1. cbn in H1.
    split; [lia|exact H2].
  - intros r cmd _ Hf [H1 H2]. apply chan_not_full in Hf. cbn.
    rewrite length_app. cbn. split; [lia|exact H2].
  - intros r _ _. cbn. tauto.
  - intros cache id unitType pos wg. cbn. unfold inboxCapacity. split; lia.
  - apply Forall_forall. intros [] _; cbn; try exact I. intros r. tauto.
Qed.

(** X5.  Whatever is called and however the calls interleave, no channel
    ever holds more than its capacity: if every unit's inbox and event
    buffer are within capacity (as in a store without units), they still
    are after any sequence of calls, for the old units and for the new
    ones, and the capacities themselves never change. *)
Theorem channels_stay_within_capacity cs w :
  all_within_capacity w ->
  all_within_capacity (exec_all cs w) /\
  (forall p r r',
     units w !! p = Some r -> units (exec_all cs w) !! p = Some r' ->
     ch_cap (commands r') = ch_cap (commands r) /\ ch_cap (events r') = ch_cap (events r)).
Proof.
  intros Hall. destruct (capacity_respected cs w) as [Hold Hnew]. split.
  - intros p r' Hp'. destruct (units w !! p) as [r|] eqn:Hp.
    + destruct (Hold p r Hp) as (r2 & Hp2 & Hr). rewrite Hp' in Hp2.
      apply (inj Some) in Hp2 as <-. apply Hr. eapply Hall; eauto.
    + eapply Hnew; eauto.
  - intros p r r' Hp Hp'. destruct (static_respected cs w) as [Hold' _].
    destruct (Hold' p r Hp) as (r2 & Hp2 & Hs). rewrite Hp' in Hp2.
    apply (inj Some) in Hp2 as <-. unfold static in Hs.
    injection Hs; intros. split; congruence.
Qed.

Lemma w_marine_units : units w_marine = {[ marine := marineUnit ]}.
Proof. vm_compute. reflexivity. Qed.

Lemma w_marine_within_capacity : all_within_capacity w_marine.
Proof.
  intros p r Hp. rewrite w_marine_units in Hp.
  apply lookup_singleton_Some in Hp as [_ <-]. split; vm_compute; lia.
Qed.

Lemma channels_stay_within_capacity_witness :
  all_within_capacity
    (exec_all (replicate 12 (CallSendCommand marine moveCmd 100 0) ++
               replicate 12 (CallRunIter marine 0 0)) w_marine) /\
  (forall p r r',
     units w_marine !! p = Some r ->
     units (exec_all (replicate 12 (CallSendCommand marine moveCmd 100 0) ++
                      replicate 12 (CallRunIter marine 0 0)) w_marine) !! p = Some r' ->
     ch_cap (commands r') = ch_cap (commands r) /\ ch_cap (events r') = ch_cap (events r)).
Proof.
  exact (channels_stay_within_capacity _ w_marine w_marine_within_capacity).
Defined.

(** ** Health, state and events over a run *)

Lemma health_respected cs w :
  store_rel (fun r r' => 0 <= health r -> 0 <= health r') (fun _ => True) w (exec_all cs w).
Proof.
  apply exec_all_respects.
  - auto.
  - auto.
  - auto.
  - intros r. repeat split; cbn; tauto.
  - intros r pos. cbn. tauto.
  - intros r t. cbn. tauto.
  - intros r amount _. cbn. destruct (Z.ltb_spec (sub64 (health r) amount) 0); lia.
  - intros r ev _ _. cbn. tauto.
  - intros r cmd rest _. cbn. tauto.
  - intros r cmd _ _. cbn. tauto.
  - intros r _ _. cbn. tauto.
  - intros. exact I.
  - apply Forall_forall. intros [] _; cbn; try exact I. intros r. tauto.
Qed.

(** X6.  A health that is not negative stays so through every sequence of
    calls and every interleaving -- direct [TakeDamage] calls with any
    amount, attacks carried out by any unit's loop, shutdown. *)
Theorem health_never_negative cs w u r :
  units w !! u = Some r ->
  0 <= health r ->
  exists r', units (exec_all cs w) !! u = Some r' /\ 0 <= health r'.
Proof.
  intros Hu Hh. destruct (health_respected cs w) as [Hold _].
  destruct (Hold u r Hu) as (r' & Hu' & Hr). exists r'. auto.
Qed.

Lemma health_never_negative_witness :
  exists r',
    units (exec_all [CallSendCommand marine attackZergling 0 0; CallRunIter marine 0 0;
                     CallTakeDamage zergling (2 ^ 62); CallTakeDamage zergling (- 7);
                     CallTakeDamage zergling GoInt.min_int] w_duel) !! zergling = Some r' /\
    0 <= health r'.
Proof.
  refine (health_never_negative _ w_duel zergling zerglingUnit _ _).
  - vm_compute. reflexivity.
  - cbn. lia.
Defined.

Lemma alive_respected cs w :
  Forall not_SetState_Dead cs ->
  store_rel (fun r r' => state r <> Dead -> state r' <> Dead) (fun r => state r <> Dead)
    w (exec_all cs w).
Proof.
  intros Hcs.
  apply exec_all_respects.
  - auto.
  - auto.
  - auto.
  - intros r. repeat split; cbn; discriminate.
  - intros r pos. cbn. tauto.
  - intros r t. cbn. tauto.
  - intros r amount. cbn. tauto.
  - intros r ev _ _. cbn. tauto.
  - intros r cmd rest _. cbn. tauto.
  - intros r cmd _ _. cbn. tauto.
  - intros r _ _. cbn. tauto.
  - intros. cbn. discriminate.
  - eapply Forall_impl; [exact Hcs|]. intros [] Hc; cbn in *; try exact I.
    intros r _. exact Hc.
Qed.

(** X7.  No function of the package ever puts a unit in state [Dead]: as
    long as nobody calls [SetState(Dead)], no unit is [Dead] after any
    sequence of calls, whatever damage it has taken -- a unit whose health
    has reached 0 keeps the state it had and goes on handling commands. *)
Theorem no_call_marks_a_unit_Dead cs w :
  Forall not_SetState_Dead cs ->
  no_unit_Dead w ->
  no_unit_Dead (exec_all cs w).
Proof.
  intros Hcs Hw p r' Hp'. destruct (alive_respected cs w Hcs) as [Hold Hnew].
  destruct (units w !! p) as [r|] eqn:Hp.
  - destruct (Hold p r Hp) as (r2 & Hp2 & Hr). rewrite Hp' in Hp2.
    apply (inj Some) in Hp2 as <-. apply Hr. eapply Hw; eauto.
  - eapply Hnew; eauto.
Qed.

Lemma no_call_marks_a_unit_Dead_witness :
  no_unit_Dead
    (exec_all [CallTakeDamage marine 1000; CallSendCommand marine attackZergling 0 0;
               CallRunIter marine 0 0; CallShutdown marine] w_marine).
Proof.
  refine (no_call_marks_a_unit_Dead _ w_marine _ _).
  - repeat constructor.
  - intros p r Hp. rewrite w_marine_units in Hp.
    apply lookup_singleton_Some in Hp as [_ <-]. cbn. discriminate.
Defined.

(** The killed Marine of the witness: health 0, state [Attacking]. *)
Lemma killed_unit_keeps_fighting :
  value (GetHealth marine)
    (exec_all [CallTakeDamage marine 1000; CallSendCommand marine attackZergling 0 0;
               CallRunIter marine 0 0] w_duel) = Some 0 /\
  value (GetState marine)
    (exec_all [CallTakeDamage marine 1000; CallSendCommand marine attackZergling 0 0;
               CallRunIter marine 0 0] w_duel) = Some Attacking /\
  value (GetHealth zergling)
    (exec_all [CallTakeDamage marine 1000; CallSendCommand marine attackZergling 0 0;
               CallRunIter marine 0 0] w_duel) = Some 29.
Proof. repeat split; vm_compute; reflexivity. Qed.

Lemma events_respected cs w :
  store_rel (fun r r' => ch_buf (events r) `prefix_of` ch_buf (events r') /\
                         ch_closed (events r') = ch_closed (events r))
    (fun _ => True) w (exec_all cs w).
Proof.
  apply exec_all_respects.
  - intros r. split; reflexivity.
  - intros r1 r2 r3 [H1 H2] [H3 H4]. split; [etrans; eauto|congruence].
  - auto.
  - intros r. repeat split; cbn; reflexivity.
  - intros r pos. cbn. split; reflexivity.
  - intros r t. cbn. split; reflexivity.
  - intros r amount. cbn. split; reflexivity.
  - intros r ev _ _. cbn. split; [apply prefix_app_r; reflexivity|reflexivity].
  - intros r cmd rest _. cbn. split; reflexivity.
  - intros r cmd _ _. cbn. split; reflexivity.
  - intros r _ _. cbn. split; reflexivity.
  - intros. exact I.
  - apply Forall_forall. intros [] _; cbn; try exact I. intros r. split; reflexivity.
Qed.

(** X8.  The package only ever sends on a unit's event channel: through
    every sequence of calls the buffered events stay where they are, new
    ones are appended behind them, and the channel is not closed.  With the
    capacity bound this means a unit can emit at most ten events unless
    code outside the package receives them. *)
Theorem events_only_accumulate cs w u r :
  units w !! u = Some r ->
  exists r',
    units (exec_all cs w) !! u = Some r' /\
    ch_buf (events r) `prefix_of` ch_buf (events r') /\
    ch_closed (events r') = ch_closed (events r).
Proof.
  intros Hu. destruct (events_respected cs w) as [Hold _].
  destruct (Hold u r Hu) as (r' & Hu' & Hr1 & Hr2). exists r'. auto.
Qed.

Lemma events_only_accumulate_witness :
  exists r',
    units (exec_all [CallSendCommand marine moveCmd 0 0; CallRunIter marine 0 0;
                     CallSendCommand marine attackZergling 0 0; CallRunIter marine 0 5;
                     CallShutdown marine] w_duel) !! marine = Some r' /\
    ch_buf (events marineUnit) `prefix_of` ch_buf (events r') /\
    ch_closed (events r') = ch_closed (events marineUnit).
Proof.
  refine (events_only_accumulate _ w_duel marine marineUnit _).
  vm_compute. reflexivity.
Defined.

End RunFacts.

(* ===================================================================== *)
(** * The processing loop *)
(* ===================================================================== *)

Module LoopFacts.

Import Types Props Behaviour GoIntFacts Scenario HealthFacts LifecycleFacts HandlerFacts.
Local Open Scope go_scope.

Lemma with_unit_twice u r1 r2 l1 l2 w :
  with_unit u r2 l2 (with_unit u r1 l1 w) = with_unit u r2 (l1 ++ l2) w.
Proof.
  unfold with_unit. cbn. rewrite insert_insert_eq, app_assoc. reflexivity.
Qed.

Lemma quiet_effect_fields cmd r :
  commands (quiet_effect cmd r) = commands r /\
  ID (quiet_effect cmd r) = ID r /\
  ctxDone (quiet_effect cmd r) = ctxDone r /\
  wg (quiet_effect cmd r) = wg r /\
  events (quiet_effect cmd r) = events r /\
  health (quiet_effect cmd r) = health r.
Proof.
  unfold quiet_effect.
  destruct (_ =? CmdAttack); [repeat split|].
  destruct (_ =? CmdStop); [repeat split|].
  destruct (_ =? CmdHold); repeat split.
Qed.

Lemma quiet_effect_set_commands cmd c r :
  quiet_effect cmd (set_commands c r) = set_commands c (quiet_effect cmd r).
Proof.
  unfold quiet_effect.
  destruct (_ =? CmdAttack); [reflexivity|].
  destruct (_ =? CmdStop); [reflexivity|].
  destruct (_ =? CmdHold); reflexivity.
Qed.

(** Handling a quiet command: the record changes as [quiet_effect] says,
    a nil-target attack leaves a line on the console, nothing else. *)
Lemma dispatch_quiet w u r cmd now :
  units w !! u = Some r ->
  quiet cmd = true ->
  dispatch u cmd now w =
    Ok tt (with_unit u (quiet_effect cmd r)
             (if cmd_Type cmd =? CmdAttack then [LogNoTarget (ID r)] else []) w).
Proof.
  intros Hu Hq. unfold quiet in Hq. apply andb_true_iff in Hq as [Hm Ha].
  apply negb_true_iff in Hm. apply negb_true_iff in Ha.
  unfold dispatch, quiet_effect, with_unit. rewrite Hm.
  destruct (cmd_Type cmd =? CmdAttack) eqn:Eat.
  - cbn in Ha. apply bool_decide_eq_false in Ha.
    assert (Ht : cmd_Target cmd = None).
    { destruct (cmd_Target cmd); [|reflexivity]. exfalso. apply Ha. eauto. }
    rewrite (handleAttack_nil w u r cmd now Hu Ht).
    rewrite (insert_id _ _ _ Hu). reflexivity.
  - destruct (cmd_Type cmd =? CmdStop) eqn:Est.
    { rewrite (handleStop_eq w u r cmd Hu). rewrite app_nil_r. reflexivity. }
    destruct (cmd_Type cmd =? CmdHold) eqn:Eho.
    { rewrite (handleHold_eq w u r cmd Hu). rewrite app_nil_r. reflexivity. }
    unfold ret. rewrite (insert_id _ _ _ Hu), app_nil_r. destruct w; reflexivity.
Qed.

(** The receive case of the loop on a quiet command. *)
Lemma run_recv_quiet w u r cmd rest now :
  units w !! u = Some r ->
  ch_buf (commands r) = cmd :: rest ->
  quiet cmd = true ->
  run_recv u now w =
    Ok true
      (with_unit u
         (quiet_effect cmd
            (set_commands (mkChan (ch_cap (commands r)) rest (ch_closed (commands r))) r))
         (quiet_log (ID r) cmd) w).
Proof.
  intros Hu Hbuf Hq. unfold run_recv, bind at 1. unfold load at 1. rewrite Hu, Hbuf.
  unfold bind at 1. unfold store at 1.
  set (r1 := set_commands _ r). set (w1 := set_units _ w).
  assert (Hu1 : units w1 !! u = Some r1) by apply lookup_insert_eq.
  unfold bind at 1. rewrite (dispatch_quiet w1 u r1 cmd now Hu1 Hq).
  unfold bind, load, printf, ret. cbn [units with_unit]. rewrite lookup_insert_eq.
  destruct (quiet_effect_fields cmd r1) as (_ & -> & _).
  unfold with_unit, quiet_log, set_console. cbn.
  rewrite insert_insert_eq, <- app_assoc. reflexivity.
Qed.

(** One iteration of a live loop whose inbox starts with a quiet command. *)
Lemma run_iter_quiet w u r cmd rest pick now :
  units w !! u = Some r ->
  ctxDone r = false ->
  ch_buf (commands r) = cmd :: rest ->
  quiet cmd = true ->
  run_iter u pick now w =
    Ok true
      (with_unit u
         (quiet_effect cmd
            (set_commands (mkChan (ch_cap (commands r)) rest (ch_closed (commands r))) r))
         (quiet_log (ID r) cmd) w).
Proof.
  intros Hu Hc Hbuf Hq. unfold run_iter, bind at 1. unfold load at 1. rewrite Hu.
  rewrite Hc, Hbuf. erewrite go_select_single by reflexivity. cbn [snd].
  now apply run_recv_quiet.
Qed.

(** A live loop with nothing in its inbox waits. *)
Lemma run_iter_idle w u r pick now :
  units w !! u = Some r ->
  ctxDone r = false ->
  ch_closed (commands r) = false ->
  ch_buf (commands r) = [] ->
  run_iter u pick now w = Blocked w.
Proof.
  intros Hu Hc Hcl Hbuf. unfold run_iter, bind, load. rewrite Hu, Hc, Hcl, Hbuf.
  apply go_select_none. reflexivity.
Qed.

Lemma drained_quiet_effect cmd r :
  drained (quiet_effect cmd r) = quiet_effect cmd (drained r).
Proof.
  unfold drained. destruct (quiet_effect_fields cmd r) as (-> & _).
  symmetry. apply quiet_effect_set_commands.
Qed.

(** X9.  The loop of a live unit handles the commands of its inbox in the
    order they were submitted: with an inbox of quiet commands (stop, hold,
    attack without target, unknown types) it runs one iteration per
    command, leaves the unit as the handlers applied from first to last
    leave it, with the inbox empty and one console line per command in the
    same order, and then waits for the next command. *)
Theorem run_handles_inbox_in_order (cmds : list Command) : forall w u r sched clock,
  units w !! u = Some r ->
  ctxDone r = false ->
  ch_closed (commands r) = false ->
  ch_buf (commands r) = cmds ->
  forallb quiet cmds = true ->
  run (length cmds) u sched clock w = Ok true (handled u r cmds w) /\
  forall pick now,
    run_iter u pick now (handled u r cmds w) = Blocked (handled u r cmds w).
Proof.
  induction cmds as [|cmd rest IH]; intros w u r sched clock Hu Hc Hcl Hbuf Hq.
  - assert (Hw : handled u r [] w = w).
    { unfold handled, with_unit, drained. cbn [foldl map concat]. rewrite app_nil_r.
      replace (set_commands _ r) with r.
      - rewrite (insert_id _ _ _ Hu). destruct w; reflexivity.
      - destruct r as [? ? ? ? ? ? ? ? ? ? ? ? ? ? ? ? [cap buf closed] ? ? ? ?].
        cbn in *. subst. reflexivity. }
    rewrite Hw. cbn [length run]. unfold ret. split; [reflexivity|]. intros pick now.
    now apply (run_iter_idle w u r).
  - cbn [forallb] in Hq. apply andb_true_iff in Hq as [Hq1 Hq2].
    cbn [length run]. unfold bind at 1.
    rewrite (run_iter_quiet w u r cmd rest (sched O) (clock O) Hu Hc Hbuf Hq1).
    cbv beta iota.
    set (r1 := quiet_effect cmd _). set (w1 := with_unit u r1 _ w).
    assert (Hu1 : units w1 !! u = Some r1) by apply lookup_insert_eq.
    destruct (quiet_effect_fields cmd
                (set_commands (mkChan (ch_cap (commands r)) rest (ch_closed (commands r))) r))
      as (Ecmds & EID & Ectx & _).
    fold r1 in Ecmds, EID, Ectx. cbn in Ecmds, EID, Ectx.
    assert (Hc1 : ctxDone r1 = false) by congruence.
    assert (Hcl1 : ch_closed (commands r1) = false) by (rewrite Ecmds; exact Hcl).
    assert (Hbuf1 : ch_buf (commands r1) = rest) by (rewrite Ecmds; reflexivity).
    destruct (IH w1 u r1 (fun i => sched (S i)) (fun i => clock (S i))
                Hu1 Hc1 Hcl1 Hbuf1 Hq2) as [Hrun Hwait].
    assert (Hd : drained r1 = quiet_effect cmd (drained r)).
    { subst r1. rewrite drained_quiet_effect. reflexivity. }
    assert (Hw : handled u r1 rest w1 = handled u r (cmd :: rest) w).
    { unfold handled. subst w1. rewrite with_unit_twice, Hd, EID. reflexivity. }
    rewrite Hw in Hrun, Hwait. split; [exact Hrun|exact Hwait].
Qed.

Lemma run_handles_inbox_in_order_witness :
  run 10 marine (fun _ => O) (fun _ => 0) w_full =
    Ok true (handled marine marineFull (replicate 10 stopCmd) w_full) /\
  forall pick now,
    run_iter marine pick now (handled marine marineFull (replicate 10 stopCmd) w_full) =
    Blocked (handled marine marineFull (replicate 10 stopCmd) w_full).
Proof.
  refine (run_handles_inbox_in_order (replicate 10 stopCmd) w_full marine marineFull
            (fun _ => O) (fun _ => 0) _ _ _ _ _); reflexivity.
Defined.

Lemma set_commands_id r :
  set_commands (mkChan (ch_cap (commands r)) (ch_buf (commands r)) (ch_closed (commands r))) r = r.
Proof.
  destruct r as [? ? ? ? ? ? ? ? ? ? ? ? ? ? ? ? [cap buf closed] ? ? ? ?]. reflexivity.
Qed.

Lemma set_commands_twice c1 c2 r : set_commands c2 (set_commands c1 r) = set_commands c2 r.
Proof. destruct r; reflexivity. Qed.

(** The deferred [wg.Done()] of a loop whose WaitGroup counter is positive. *)
Lemma run_return_eq w u r n :
  units w !! u = Some r ->
  waitGroups w !! wg r = Some n ->
  1 <= n ->
  run_return u w = Ok false (returned u r 0 n w).
Proof.
  intros Hu Hwg Hn. unfold run_return, bind, load, wg_Add. rewrite Hu, Hwg.
  destruct (Z.ltb_spec (n + -1) 0) as [Hlt|_]; [lia|].
  unfold returned. cbn [drop take foldl map concat]. rewrite set_commands_id, app_nil_r.
  rewrite (insert_id _ _ _ Hu). replace (n + -1) with (n - 1) by lia.
  destruct w; reflexivity.
Qed.

(** After [Shutdown] both cases of the loop's [select] are ready. *)
Lemma run_iter_shut w u r pick now :
  units w !! u = Some r ->
  ctxDone r = true ->
  ch_closed (commands r) = true ->
  run_iter u pick now w = run_recv u now w \/ run_iter u pick now w = run_return u w.
Proof.
  intros Hu Hc Hcl.
  assert (Hit : run_iter u pick now w =
                go_select [(true, run_recv u now); (true, run_return u)] pick w).
  { unfold run_iter, bind, load. rewrite Hu, Hc, Hcl, orb_true_r. reflexivity. }
  rewrite Hit.
  destruct (go_select_pair
              [(true, run_recv u now); (true, run_return u)]
              (true, run_recv u now) (true, run_return u) pick eq_refl) as [-> | ->];
    [left|right]; reflexivity.
Qed.




(** X11.  One iteration of a live loop on a move order: the order is taken
    out of the inbox and state and position are set; then, if the event
    channel has a free slot, the event is buffered and the command logged;
    if it has none, the loop parks inside the handler with the order
    consumed, the unit already [Moving] at the destination, and nothing
    logged. *)
Theorem run_iter_Move w u r cmd rest pick now :
  units w !! u = Some r ->
  ctxDone r = false ->
  ch_buf (commands r) = cmd :: rest ->
  cmd_Type cmd = CmdMove ->
  ch_closed (events r) = false ->
  run_iter u pick now w =
    if chan_full (events r) then Blocked (with_unit u (moving cmd r) [] w)
    else Ok true (with_unit u (moved u cmd now r) [LogCommand (ID r) cmd] w).
Proof.
  intros Hu Hc Hbuf Hty Hev.
  assert (Hit : run_iter u pick now w = run_recv u now w).
  { unfold run_iter, bind, load. rewrite Hu, Hc, Hbuf.
    erewrite go_select_single by reflexivity. reflexivity. }
  rewrite Hit. unfold run_recv, bind at 1. unfold load at 1. rewrite Hu, Hbuf.
  unfold bind at 1. unfold store at 1.
  set (r1 := set_commands _ r). set (w1 := set_units _ w).
  assert (Hu1 : units w1 !! u = Some r1) by apply lookup_insert_eq.
  assert (Hev1 : ch_closed (events r1) = false) by exact Hev.
  unfold bind at 1. unfold dispatch. rewrite Hty. cbn [Z.eqb CmdMove Pos.eqb].
  rewrite (handleMove_eq w1 u r1 cmd now Hu1 Hev1). cbv zeta.
  change (events r1) with (events r).
  unfold moved, moving, with_unit. rewrite Hbuf. cbn [tail]. fold r1.
  destruct (chan_full (events r)).
  - subst w1. cbn [units set_units waitGroups loops console].
    rewrite insert_insert_eq, app_nil_r. reflexivity.
  - unfold bind, load, printf, ret. cbn [units set_units]. rewrite lookup_insert_eq.
    subst w1. cbn. rewrite insert_insert_eq. reflexivity.
Qed.

Lemma run_iter_Move_witness :
  run_iter marine 0 5 w_march =
    if chan_full (events marineMarching)
    then Blocked (with_unit marine (moving moveCmd marineMarching) [] w_march)
    else Ok true (with_unit marine (moved marine moveCmd 5 marineMarching)
                    [LogCommand (ID marineMarching) moveCmd] w_march).
Proof.
  refine (run_iter_Move w_march marine marineMarching moveCmd [moveCmd] 0 5
            _ _ _ _ _); reflexivity.
Defined.

(** X12.  Nothing in the package receives from a unit's event channel, so
    its capacity bounds the move orders a loop gets through: with more move
    orders in the inbox than the event channel has free slots, the loop
    handles as many as there are slots and then parks for good on the next
    one, which it has already taken out of the inbox and applied. *)
Theorem run_parks_when_events_fill (cmds : list Command) : forall w u r sched clock,
  units w !! u = Some r ->
  ctxDone r = false ->
  ch_buf (commands r) = cmds ->
  all_moves cmds = true ->
  ch_closed (events r) = false ->
  (events_free r < length cmds)%nat ->
  exists w' r',
    run (length cmds) u sched clock w = Blocked w' /\
    units w' !! u = Some r' /\
    chan_full (events r') = true /\
    state r' = Moving /\
    length (ch_buf (commands r')) = (length cmds - S (events_free r))%nat /\
    length (ch_buf (events r')) = (length (ch_buf (events r)) + events_free r)%nat /\
    length (console w') = (length (console w) + events_free r)%nat.
Proof.
  induction cmds as [|cmd rest IH]; intros w u r sched clock Hu Hc Hbuf Hmv Hev Hfree.
  - cbn in Hfree. lia.
  - cbn [all_moves forallb] in Hmv. apply andb_true_iff in Hmv as [Hty Hrest].
    apply Z.eqb_eq in Hty.
    cbn [length run]. unfold bind at 1.
    rewrite (run_iter_Move w u r cmd rest (sched O) (clock O) Hu Hc Hbuf Hty Hev).
    unfold events_free in *. unfold chan_full.
    destruct (Nat.leb_spec (ch_cap (events r)) (length (ch_buf (events r)))) as [Hfull|Hroom].
    + exists (with_unit u (moving cmd r) [] w), (moving cmd r).
      split; [reflexivity|]. split; [apply lookup_insert_eq|].
      unfold moving. cbn. rewrite Hbuf. cbn [tail].
      replace (ch_cap (events r) - length (ch_buf (events r)))%nat with O by lia.
      rewrite length_app. cbn [length].
      repeat split; try lia. apply Nat.leb_le. exact Hfull.
    + set (r1 := moved u cmd (clock O) r).
      set (w1 := with_unit u r1 _ w).
      assert (Hu1 : units w1 !! u = Some r1) by apply lookup_insert_eq.
      assert (Hbuf1 : ch_buf (commands r1) = rest).
      { subst r1. unfold moved, moving. cbn. rewrite Hbuf. reflexivity. }
      assert (Hlen1 : length (ch_buf (events r1)) = S (length (ch_buf (events r)))).
      { subst r1. unfold moved, moving. cbn. rewrite length_app. cbn. lia. }
      assert (Hcap1 : ch_cap (events r1) = ch_cap (events r)) by reflexivity.
      cbn [length] in Hfree.
      destruct (IH w1 u r1 (fun i => sched (S i)) (fun i => clock (S i))
                  Hu1 Hc Hbuf1 Hrest Hev) as (w' & r' & Hrun & Hu' & Hf' & Hs' & Hc' & He' & Hl').
      { rewrite Hcap1, Hlen1. lia. }
      exists w', r'. rewrite Hcap1, Hlen1 in Hc', He', Hl'.
      split; [exact Hrun|]. split; [exact Hu'|]. split; [exact Hf'|]. split; [exact Hs'|].
      assert (Hcon : length (console w1) = S (length (console w))).
      { subst w1. unfold with_unit. cbn. rewrite length_app. cbn. lia. }
      rewrite Hcon in Hl'. repeat split; lia.
Qed.

Lemma run_parks_when_events_fill_witness :
  exists w' r',
    run 2 marine (fun _ => O) (fun i => Z.of_nat i) w_march = Blocked w' /\
    units w' !! marine = Some r' /\
    chan_full (events r') = true /\
    state r' = Moving /\
    length (ch_buf (commands r')) = 0%nat /\
    length (ch_buf (events r')) = 10%nat /\
    length (console w') = 1%nat.
Proof.
  exact (run_parks_when_events_fill [moveCmd; moveCmd] w_march marine marineMarching
           (fun _ => O) (fun i => Z.of_nat i)
           eq_refl eq_refl eq_refl eq_refl eq_refl (le_n 2)).
Defined.

End LoopFacts.

(* ===================================================================== *)
(** * The exported operations, composed *)
(* ===================================================================== *)

Module ApiFacts.

Import Types Props Behaviour GoInt GoIntFacts Scenario HealthFacts LifecycleFacts HandlerFacts
  RunFacts LoopFacts.
Local Open Scope go_scope.

Lemma SendCommand_alone_enqueues w u r cmd :
  units w !! u = Some r ->
  unit_inv r ->
  ctxDone r = false ->
  chan_full (commands r) = false ->
  SendCommand_alone u cmd 0 w =
    Ok None (set_units (<[u := set_commands (chan_push cmd (commands r)) r]> (units w)) w).
Proof.
  intros Hu Hinv Hc Hfull. unfold SendCommand_alone.
  rewrite (SendCommand_enqueues w u r cmd 0 0 Hu Hinv Hc Hfull); [reflexivity|].
  unfold sendTimeout. lia.
Qed.

Lemma SendCommand_alone_full w u r cmd :
  units w !! u = Some r ->
  unit_inv r ->
  ctxDone r = false ->
  chan_full (commands r) = true ->
  SendCommand_alone u cmd 0 w = Ok (Some errBackpressure) w.
Proof.
  intros Hu Hinv Hc Hfull. unfold SendCommand_alone.
  rewrite (SendCommand_full w u r cmd 0 0 Hu Hinv Hc Hfull).
  rewrite (SendCommand_full w u r cmd sendTimeout 0 Hu Hinv Hc Hfull).
  reflexivity.
Qed.

(** X13.  A caller that submits [n] commands in a row to a live unit whose
    loop does not run gets [nil] for as many as the inbox has free slots,
    and the backpressure error for every one after that; the accepted
    commands are appended to the inbox in the order submitted and nothing
    else changes. *)
Theorem SendCommand_burst_spec (n : nat) : forall w u r cmd,
  units w !! u = Some r ->
  unit_inv r ->
  ctxDone r = false ->
  SendCommand_burst n u cmd w =
    Ok (replicate (Nat.min n (inbox_free r)) None ++
        replicate (n - inbox_free r) (Some errBackpressure))
       (set_units
          (<[u := set_commands
                    (mkChan (ch_cap (commands r))
                       (ch_buf (commands r) ++ replicate (Nat.min n (inbox_free r)) cmd)
                       (ch_closed (commands r))) r]> (units w)) w).
Proof.
  induction n as [|n IH]; intros w u r cmd Hu Hinv Hc.
  - cbn [SendCommand_burst Nat.min Nat.sub replicate app]. unfold ret.
    rewrite app_nil_r, set_commands_id, (insert_id _ _ _ Hu). destruct w; reflexivity.
  - cbn [SendCommand_burst]. unfold bind at 1.
    destruct (chan_full (commands r)) eqn:Hfull.
    + rewrite (SendCommand_alone_full w u r cmd Hu Hinv Hc Hfull).
      unfold bind at 1. rewrite (IH w u r cmd Hu Hinv Hc). unfold ret.
      assert (Hfree : inbox_free r = O).
      { unfold inbox_free. unfold chan_full in Hfull. apply Nat.leb_le in Hfull. lia. }
      rewrite Hfree, !Nat.min_0_r, !Nat.sub_0_r. reflexivity.
    + rewrite (SendCommand_alone_enqueues w u r cmd Hu Hinv Hc Hfull).
      set (r1 := set_commands _ r). set (w1 := set_units _ w).
      assert (Hu1 : units w1 !! u = Some r1) by apply lookup_insert_eq.
      assert (Hinv1 : unit_inv r1) by exact Hinv.
      assert (Hc1 : ctxDone r1 = false) by exact Hc.
      unfold bind at 1. rewrite (IH w1 u r1 cmd Hu1 Hinv1 Hc1). unfold ret.
      assert (Hfree : inbox_free r = S (inbox_free r1)).
      { unfold inbox_free. subst r1. cbn. rewrite length_app. cbn.
        unfold chan_full in Hfull. apply Nat.leb_gt in Hfull. lia. }
      rewrite Hfree. cbn [Nat.min Nat.sub replicate app].
      subst w1 r1. cbn. rewrite insert_insert_eq, <- app_assoc. reflexivity.
Qed.

Lemma SendCommand_burst_spec_witness :
  SendCommand_burst 15 marine stopCmd w_marine =
    Ok (replicate (Nat.min 15 (inbox_free marineUnit)) None ++
        replicate (15 - inbox_free marineUnit) (Some errBackpressure))
       (set_units
          (<[marine := set_commands
                    (mkChan (ch_cap (commands marineUnit))
                       (ch_buf (commands marineUnit) ++
                        replicate (Nat.min 15 (inbox_free marineUnit)) stopCmd)
                       (ch_closed (commands marineUnit))) marineUnit]> (units w_marine))
          w_marine).
Proof.
  refine (SendCommand_burst_spec 15 w_marine marine marineUnit stopCmd _ _ _).
  - reflexivity.
  - unfold unit_inv. cbn. auto.
  - reflexivity.
Defined.

Lemma set_health_twice h1 h2 r : set_health h2 (set_health h1 r) = set_health h2 r.
Proof. destruct r; reflexivity. Qed.

(** X14.  Damage adds up: on a unit whose health is not negative, two hits
    of non-negative amounts [a] and [b] in a row leave the same store and
    return the same health as one hit of [a + b], as long as the sum is an
    [int]. *)
Theorem TakeDamage_additive w u r a b :
  units w !! u = Some r ->
  0 <= health r <= max_int ->
  0 <= a ->
  0 <= b ->
  a + b <= max_int ->
  (TakeDamage u a ;;; TakeDamage u b) w = TakeDamage u (a + b) w.
Proof.
  intros Hu Hh Ha Hb Hab.
  pose (h1 := if sub64 (health r) a <? 0 then 0 else sub64 (health r) a).
  pose (w1 := set_units (<[u := set_health h1 r]> (units w)) w).
  assert (Hfirst : TakeDamage u a w = Ok h1 w1) by exact (TakeDamage_step w u r a Hu).
  assert (Hu1 : units w1 !! u = Some (set_health h1 r)) by apply lookup_insert_eq.
  pose proof (TakeDamage_step w1 u _ b Hu1) as Hsecond. cbv zeta in Hsecond.
  change (health (set_health h1 r)) with h1 in Hsecond.
  pose proof (TakeDamage_step w u r (a + b) Hu) as Hboth. cbv zeta in Hboth.
  unfold bind. rewrite Hfirst, Hsecond, Hboth.
  assert (E1 : sub64 (health r) a = health r - a).
  { apply sub64_exact. unfold in_int, min_int, max_int in *. lia. }
  assert (E : sub64 (health r) (a + b) = health r - (a + b)).
  { apply sub64_exact. unfold in_int, min_int, max_int in *. lia. }
  assert (H1 : h1 = Z.max 0 (health r - a)).
  { subst h1. rewrite E1. destruct (Z.ltb_spec (health r - a) 0); lia. }
  assert (E2 : sub64 h1 b = h1 - b).
  { apply sub64_exact. unfold in_int, min_int, max_int in *. lia. }
  rewrite E2, E.
  assert (Hh2 : (if h1 - b <? 0 then 0 else h1 - b) =
                (if health r - (a + b) <? 0 then 0 else health r - (a + b))).
  { destruct (Z.ltb_spec (h1 - b) 0), (Z.ltb_spec (health r - (a + b)) 0); lia. }
  rewrite Hh2. subst w1. cbn [units set_units].
  rewrite insert_insert_eq, set_health_twice. reflexivity.
Qed.

Lemma TakeDamage_additive_witness :
  (TakeDamage marine 10 ;;; TakeDamage marine 100) w_marine = TakeDamage marine (10 + 100) w_marine.
Proof.
  refine (TakeDamage_additive w_marine marine marineUnit 10 100 _ _ _ _ _);
    solve [reflexivity | cbn; unfold max_int; lia].
Defined.

(** X15.  The setters store what they are given and the getters read it
    back: [SetState] takes every integer, also one that names no state,
    [SetPosition] every position and [SetTarget] every pointer, also [nil]
    or the unit itself; each writes its one field and nothing else. *)
Theorem setters_round_trip w u r (s : UnitState) (pos : Position) (t : option ptr) :
  units w !! u = Some r ->
  (SetState u s ;;; GetState u) w =
    Ok s (set_units (<[u := set_state s r]> (units w)) w) /\
  (SetPosition u pos ;;; GetPosition u) w =
    Ok pos (set_units (<[u := set_position pos r]> (units w)) w) /\
  (SetTarget u t ;;; GetTarget u) w =
    Ok t (set_units (<[u := set_target t r]> (units w)) w).
Proof.
  intros Hu.
  split; [|split]; unfold bind at 1;
    [ unfold SetState | unfold SetPosition | unfold SetTarget ];
    rewrite (modify_eq w u r _ Hu);
    [ unfold GetState | unfold GetPosition | unfold GetTarget ];
    unfold bind, load, ret; cbn [units set_units]; rewrite lookup_insert_eq; reflexivity.
Qed.

Lemma setters_round_trip_witness :
  (SetState marine 999 ;;; GetState marine) w_marine =
    Ok 999 (set_units (<[marine := set_state 999 marineUnit]> (units w_marine)) w_marine) /\
  (SetPosition marine origin ;;; GetPosition marine) w_marine =
    Ok origin (set_units (<[marine := set_position origin marineUnit]> (units w_marine)) w_marine) /\
  (SetTarget marine (Some marine) ;;; GetTarget marine) w_marine =
    Ok (Some marine)
       (set_units (<[marine := set_target (Some marine) marineUnit]> (units w_marine)) w_marine).
Proof.
  refine (setters_round_trip w_marine marine marineUnit 999 origin (Some marine) _).
  reflexivity.
Defined.

(** X16.  A command submitted to a live unit with an empty inbox is what
    the unit's loop handles next: submission returns [nil], and one
    iteration of the loop then does what dispatching that very command on
    the store before the submission does, followed by the log line; the
    inbox is empty again.  So for a command that sends no event the unit is
    left as its handler leaves it and the command is logged, while a move
    order that finds the event channel full parks the loop, unit moved,
    nothing logged. *)
Theorem SendCommand_then_run_iter w u r cmd pick pick' now :
  units w !! u = Some r ->
  unit_inv r ->
  ctxDone r = false ->
  ch_buf (commands r) = [] ->
  (1 <= ch_cap (commands r))%nat ->
  (let* err := SendCommand u cmd 0 pick in
   let* again := run_iter u pick' now in
   ret (err, again)) w =
    (dispatch u cmd now ;;;
     let* r' := load u in
     printf (LogCommand (ID r') cmd) ;;;
     ret (None, true)) w /\
  (quiet cmd = true ->
   (let* err := SendCommand u cmd 0 pick in
    let* again := run_iter u pick' now in
    ret (err, again)) w =
     Ok (None, true) (with_unit u (quiet_effect cmd r) (quiet_log (ID r) cmd) w)) /\
  (cmd_Type cmd = CmdMove ->
   chan_full (events r) = true ->
   (let* err := SendCommand u cmd 0 pick in
    let* again := run_iter u pick' now in
    ret (err, again)) w =
     Blocked (set_units
                (<[u := set_position (cmd_Dest cmd) (set_state Moving r)]> (units w)) w)).
Proof.
  intros Hu Hinv Hc Hbuf Hcap.
  assert (Hfull : chan_full (commands r) = false).
  { unfold chan_full. rewrite Hbuf. apply Nat.leb_gt. cbn. lia. }
  pose proof (SendCommand_enqueues w u r cmd 0 pick Hu Hinv Hc Hfull
                ltac:(unfold sendTimeout; lia)) as Hsend.
  set (r1 := set_commands (chan_push cmd (commands r)) r) in Hsend.
  set (w1 := set_units (<[u := r1]> (units w)) w) in Hsend.
  assert (Hu1 : units w1 !! u = Some r1) by apply lookup_insert_eq.
  assert (Hr : set_commands
                 (mkChan (ch_cap (commands r1)) [] (ch_closed (commands r1))) r1 = r).
  { subst r1. rewrite set_commands_twice. cbn [commands set_commands ch_cap ch_closed chan_push].
    rewrite <- Hbuf. apply set_commands_id. }
  assert (Hw : set_units
                 (<[u := set_commands
                           (mkChan (ch_cap (commands r1)) [] (ch_closed (commands r1))) r1]>
                    (units w1)) w1 = w).
  { rewrite Hr. subst w1. cbn [units set_units]. rewrite insert_insert_eq, (insert_id _ _ _ Hu).
    destruct w; reflexivity. }
  assert (Hiter : run_iter u pick' now w1 =
                  (dispatch u cmd now ;;;
                   let* r' := load u in
                   printf (LogCommand (ID r') cmd) ;;;
                   ret true) w).
  { assert (Hsel : run_iter u pick' now w1 = run_recv u now w1).
    { unfold run_iter, bind, load. rewrite Hu1.
      assert (Eb : ch_buf (commands r1) = [cmd]) by (subst r1; cbn; now rewrite Hbuf).
      rewrite Eb. change (ctxDone r1) with (ctxDone r). rewrite Hc.
      erewrite go_select_single by reflexivity. reflexivity. }
    rewrite Hsel. unfold run_recv, bind at 1. unfold load at 1. rewrite Hu1.
    assert (Eb : ch_buf (commands r1) = [cmd]) by (subst r1; cbn; now rewrite Hbuf).
    rewrite Eb. unfold bind at 1. unfold store at 1. rewrite Hw. reflexivity. }
  assert (Hall : (let* err := SendCommand u cmd 0 pick in
                  let* again := run_iter u pick' now in
                  ret (err, again)) w =
                 (dispatch u cmd now ;;;
                  let* r' := load u in
                  printf (LogCommand (ID r') cmd) ;;;
                  ret (None, true)) w).
  { unfold bind at 1. rewrite Hsend. unfold bind at 1. rewrite Hiter.
    unfold bind, printf, ret.
    destruct (dispatch u cmd now w) as [[] w2|w2|msg]; try reflexivity.
    destruct (load u w2) as [r2 w3|w3|msg]; reflexivity. }
  split; [exact Hall|]. split.
  - intros Hq. rewrite Hall. unfold bind at 1.
    rewrite (dispatch_quiet w u r cmd now Hu Hq).
    unfold bind, load, printf, ret. cbn [units with_unit]. rewrite lookup_insert_eq.
    destruct (quiet_effect_fields cmd r) as (_ & -> & _).
    unfold with_unit, quiet_log, set_console. cbn.
    rewrite <- app_assoc. reflexivity.
  - intros Hty Hev. rewrite Hall. unfold bind at 1. unfold dispatch. rewrite Hty.
    cbn [Z.eqb CmdMove Pos.eqb].
    destruct Hinv as (_ & _ & Hopen).
    rewrite (handleMove_eq w u r cmd now Hu Hopen). cbv zeta. rewrite Hev. reflexivity.
Qed.

Lemma SendCommand_then_run_iter_witness :
  (let* err := SendCommand marine stopCmd 0 0 in
   let* again := run_iter marine 0 0 in
   ret (err, again)) w_marine =
    (dispatch marine stopCmd 0 ;;;
     let* r' := load marine in
     printf (LogCommand (ID r') stopCmd) ;;;
     ret (None, true)) w_marine /\
  (quiet stopCmd = true ->
   (let* err := SendCommand marine stopCmd 0 0 in
    let* again := run_iter marine 0 0 in
    ret (err, again)) w_marine =
     Ok (None, true)
        (with_unit marine (quiet_effect stopCmd marineUnit) (quiet_log (ID marineUnit) stopCmd)
           w_marine)) /\
  (cmd_Type stopCmd = CmdMove ->
   chan_full (events marineUnit) = true ->
   (let* err := SendCommand marine stopCmd 0 0 in
    let* again := run_iter marine 0 0 in
    ret (err, again)) w_marine =
     Blocked (set_units
                (<[marine := set_position (cmd_Dest stopCmd) (set_state Moving marineUnit)]>
                   (units w_marine)) w_marine)).
Proof.
  refine (SendCommand_then_run_iter w_marine marine marineUnit stopCmd 0 0 0 _ _ _ _ _).
  - reflexivity.
  - unfold unit_inv. cbn. auto.
  - reflexivity.
  - reflexivity.
  - vm_compute. lia.
Defined.

Lemma new_unit_inv cache id unitType pos wg : unit_inv (new_unit cache id unitType pos wg).
Proof. unfold unit_inv, new_unit. cbn. auto. Qed.

(** X17.  The life of a unit balances its WaitGroup: [NewUnit] adds one to
    the counter and registers the loop; after [Shutdown] the loop returns on
    its first iteration, whatever the scheduler picks, and its deferred
    [Done] brings the counter back to what it was before [NewUnit].  The
    units that were there before are untouched throughout. *)
Theorem unit_lifetime_restores_WaitGroup cache id unitType pos wg w n sched clock :
  waitGroups w !! wg = Some n ->
  0 <= n ->
  exists u w1 w2 w3,
    NewUnit cache id unitType pos wg w = Ok u w1 /\
    waitGroups w1 !! wg = Some (n + 1) /\
    (u ∈ loops w1) /\
    Shutdown u w1 = Ok tt w2 /\
    run 1 u sched clock w2 = Ok false w3 /\
    waitGroups w3 = waitGroups w /\
    (u ∉ loops w3) /\
    forall p, p <> u -> units w3 !! p = units w !! p.
Proof.
  intros Hwg Hn.
  pose proof (NewUnit_cases cache w id unitType pos wg) as Hnew.
  rewrite Hwg in Hnew.
  destruct (Z.ltb_spec (n + 1) 0) as [Hneg|_]; [lia|].
  set (u := fresh (dom (units w))) in Hnew.
  set (r1 := new_unit cache id unitType pos wg) in Hnew.
  set (w1 := mkWorld _ _ _ _) in Hnew.
  assert (Hu1 : units w1 !! u = Some r1) by apply lookup_insert_eq.
  pose proof (Shutdown_first w1 u r1 Hu1 (new_unit_inv _ _ _ _ _) eq_refl) as Hshut.
  set (w2 := set_units _ w1) in Hshut.
  assert (Hu2 : units w2 !! u = Some (shut_down r1)) by apply lookup_insert_eq.
  assert (Hwg2 : waitGroups w2 !! Types.wg (shut_down r1) = Some (n + 1))
    by apply lookup_insert_eq.
  assert (Hret : run_return u w2 = Ok false (returned u (shut_down r1) 0 (n + 1) w2)).
  { apply (run_return_eq w2 u (shut_down r1) (n + 1) Hu2 Hwg2). lia. }
  assert (Hrun : run 1 u sched clock w2 = Ok false (returned u (shut_down r1) 0 (n + 1) w2)).
  { cbn [run]. unfold bind.
    destruct (run_iter_shut w2 u (shut_down r1) (sched O) (clock O) Hu2 eq_refl eq_refl)
      as [-> | ->].
    - assert (Hrecv : run_recv u (clock O) w2 = run_return u w2).
      { unfold run_recv, bind at 1. unfold load at 1. rewrite Hu2. reflexivity. }
      rewrite Hrecv, Hret. reflexivity.
    - rewrite Hret. reflexivity. }
  exists u, w1, w2, (returned u (shut_down r1) 0 (n + 1) w2).
  split; [exact Hnew|]. split; [apply lookup_insert_eq|].
  split.
  { change (u ∈ {[u]} ∪ loops w). apply elem_of_union_l, elem_of_singleton. reflexivity. }
  split; [exact Hshut|]. split; [exact Hrun|].
  split.
  { change (<[wg := n + 1 - 1]> (<[wg := n + 1]> (waitGroups w)) = waitGroups w).
    rewrite insert_insert_eq. replace (n + 1 - 1) with n by lia.
    apply insert_id. exact Hwg. }
  split.
  { change (u ∉ ({[u]} ∪ loops w) ∖ {[u]}). intros Hin.
    apply elem_of_difference in Hin as [_ Hnot]. apply Hnot, elem_of_singleton. reflexivity. }
  intros p Hp. unfold returned. cbn [units].
  rewrite lookup_insert_ne by congruence.
  change (units w2) with (<[u := shut_down r1]> (<[u := r1]> (units w))).
  rewrite !lookup_insert_ne by congruence. reflexivity.
Qed.

Lemma unit_lifetime_restores_WaitGroup_witness :
  exists u w1 w2 w3,
    NewUnit sampleStats "marine-1" Marine origin 1%positive world0 = Ok u w1 /\
    waitGroups w1 !! 1%positive = Some (0 + 1) /\
    (u ∈ loops w1) /\
    Shutdown u w1 = Ok tt w2 /\
    run 1 u (fun _ => 1%nat) (fun _ => 0) w2 = Ok false w3 /\
    waitGroups w3 = waitGroups world0 /\
    (u ∉ loops w3) /\
    forall p, p <> u -> units w3 !! p = units world0 !! p.
Proof.
  refine (unit_lifetime_restores_WaitGroup sampleStats "marine-1" Marine origin 1%positive
            world0 0 (fun _ => 1%nat) (fun _ => 0) _ _).
  - reflexivity.
  - lia.
Defined.

(** X22.  [SendCommand] can panic when it races with [Shutdown]: if the
    unit is live at the first [select] and [Shutdown] completes before the
    second, the send on the now closed inbox is ready next to the
    cancellation case, and the run time may pick either -- the sender gets
    the shutting-down error, or panics with "send on closed channel". *)
Theorem SendCommand_races_with_Shutdown w u r cmd waited :
  units w !! u = Some r ->
  unit_inv r ->
  ctxDone r = false ->
  exists w',
    SendCommand_check u w = Ok None w /\
    Shutdown u w = Ok tt w' /\
    SendCommand_select u cmd waited 1 w' = Ok (Some errShuttingDown) w' /\
    SendCommand_select u cmd waited 0 w' = Panic "send on closed channel".
Proof.
  intros Hu Hinv Hc.
  assert (Honce : shutdownOnce r = false).
  { destruct Hinv as (Hdone & _). destruct (shutdownOnce r); [|reflexivity].
    rewrite Hdone in Hc by reflexivity. discriminate. }
  exists (set_units (<[u := shut_down r]> (units w)) w).
  split.
  { unfold SendCommand_check, bind, load. rewrite Hu, Hc. reflexivity. }
  split; [exact (Shutdown_first w u r Hu Hinv Honce)|].
  set (w' := set_units _ w).
  assert (Hu' : units w' !! u = Some (shut_down r)) by apply lookup_insert_eq.
  assert (Hsel : forall pick,
            SendCommand_select u cmd waited pick w' =
            go_select
              [ (true, send_commands u cmd);
                (true, ret (Some errShuttingDown));
                (sendTimeout <=? waited, ret (Some errBackpressure)) ] pick w').
  { intros pick. unfold SendCommand_select, bind at 1. unfold load at 1. rewrite Hu'.
    change (ch_closed (commands (shut_down r))) with true.
    change (ctxDone (shut_down r)) with true.
    rewrite orb_true_r. reflexivity. }
  rewrite !Hsel. split.
  - destruct (sendTimeout <=? waited); reflexivity.
  - assert (Hsend : send_commands u cmd w' = Panic "send on closed channel").
    { unfold send_commands, bind, load. rewrite Hu'. reflexivity. }
    rewrite <- Hsend. destruct (sendTimeout <=? waited); reflexivity.
Qed.

Lemma SendCommand_races_with_Shutdown_witness :
  exists w',
    SendCommand_check marine w_marine = Ok None w_marine /\
    Shutdown marine w_marine = Ok tt w' /\
    SendCommand_select marine stopCmd 0 1 w' = Ok (Some errShuttingDown) w' /\
    SendCommand_select marine stopCmd 0 0 w' = Panic "send on closed channel".
Proof.
  refine (SendCommand_races_with_Shutdown w_marine marine marineUnit stopCmd 0 _ _ _).
  - reflexivity.
  - unfold unit_inv. cbn. auto.
  - reflexivity.
Defined.

(** X23.  One iteration of a live loop on an attack order that names a
    target: the damage [CalculateDamageAgainst] computes is taken off the
    target's health, down to 0 at most, and the attacker is [Attacking]
    with the target set.  The hit comes before the event: with a full event
    channel the loop parks, but the damage has been dealt. *)
Theorem run_iter_Attack w u t r rt cmd rest pick now :
  units w !! u = Some r ->
  units w !! t = Some rt ->
  unit_inv r ->
  ctxDone r = false ->
  ch_buf (commands r) = cmd :: rest ->
  cmd_Type cmd = CmdAttack ->
  cmd_Target cmd = Some t ->
  exists dmg w' r' rt',
    CalculateDamageAgainst u t w = Ok dmg w /\
    (run_iter u pick now w = Ok true w' \/
     chan_full (events r) = true /\ run_iter u pick now w = Blocked w') /\
    units w' !! u = Some r' /\
    state r' = Attacking /\
    target r' = Some t /\
    units w' !! t = Some rt' /\
    health rt' = Z.max 0 (sub64 (health rt) dmg) /\
    maxHealth rt' = maxHealth rt.
Proof.
  intros Hu Ht Hinv Hc Hbuf Hty Htarget.
  set (r1 := set_commands (mkChan (ch_cap (commands r)) rest (ch_closed (commands r))) r).
  set (w1 := set_units (<[u := r1]> (units w)) w).
  assert (Hu1 : units w1 !! u = Some r1) by apply lookup_insert_eq.
  assert (Hit : run_iter u pick now w =
                (handleAttack u cmd now ;;;
                 let* r' := load u in
                 printf (LogCommand (ID r') cmd) ;;;
                 ret true) w1).
  { assert (Hsel : run_iter u pick now w = run_recv u now w).
    { unfold run_iter, bind, load. rewrite Hu, Hc, Hbuf.
      erewrite go_select_single by reflexivity. reflexivity. }
    rewrite Hsel. unfold run_recv, bind at 1. unfold load at 1. rewrite Hu, Hbuf.
    unfold bind at 1. unfold store at 1. fold r1. fold w1.
    unfold dispatch. rewrite Hty. reflexivity. }
  assert (Ht1 : exists rt1, units w1 !! t = Some rt1 /\
                  health rt1 = health rt /\ maxHealth rt1 = maxHealth rt /\
                  baseArmor rt1 = baseArmor rt /\ armorModifier rt1 = armorModifier rt /\
                  armorUpgrades rt1 = armorUpgrades rt).
  { destruct (decide (t = u)) as [->|Hne].
    - rewrite Hu in Ht. injection Ht as <-. exists r1. split; [exact Hu1|]. repeat split.
    - exists rt. split; [|repeat split].
      subst w1. cbn [units set_units]. rewrite lookup_insert_ne by congruence. exact Ht. }
  destruct Ht1 as (rt1 & Ht1 & Eh & Em & Ea1 & Ea2 & Ea3).
  assert (Hinv1 : unit_inv r1) by exact Hinv.
  destruct (handleAttack_target w1 u t r1 rt1 cmd now Hu1 Ht1 Hinv1 Htarget)
    as (dmg & w' & r' & rt' & Hd & Hrun & Hu' & Hs & Htg & Ht' & Hh & Hm).
  assert (Hd0 : CalculateDamageAgainst u t w = Ok dmg w).
  { rewrite (CalculateDamageAgainst_eq w1 u t r1 rt1 Hu1 Ht1) in Hd.
    rewrite (CalculateDamageAgainst_eq w u t r rt Hu Ht).
    rewrite Ea1, Ea2, Ea3 in Hd. apply Ok_inj in Hd as [Hd _]. rewrite <- Hd. reflexivity. }
  rewrite Eh in Hh. rewrite Em in Hm.
  destruct Hrun as [Hrun | [Hfull Hrun]].
  - exists dmg, (set_console (console w' ++ [LogCommand (ID r') cmd]) w'), r', rt'.
    split; [exact Hd0|]. split.
    { left. rewrite Hit. unfold bind at 1. rewrite Hrun.
      unfold bind, load, printf, ret. rewrite Hu'. reflexivity. }
    split; [exact Hu'|]. split; [exact Hs|]. split; [exact Htg|]. split; [exact Ht'|].
    split; [exact Hh|exact Hm].
  - exists dmg, w', r', rt'.
    split; [exact Hd0|]. split.
    { right. split; [exact Hfull|]. rewrite Hit. unfold bind at 1. rewrite Hrun. reflexivity. }
    split; [exact Hu'|]. split; [exact Hs|]. split; [exact Htg|]. split; [exact Ht'|].
    split; [exact Hh|exact Hm].
Qed.

Lemma run_iter_Attack_witness :
  exists dmg w' r' rt',
    CalculateDamageAgainst marine zergling w_dead_attacker = Ok dmg w_dead_attacker /\
    (run_iter marine 0 0 w_dead_attacker = Ok true w' \/
     chan_full (events (set_commands (mkChan inboxCapacity [attackZergling] false)
                          (set_state Dead marineUnit))) = true /\
     run_iter marine 0 0 w_dead_attacker = Blocked w') /\
    units w' !! marine = Some r' /\
    state r' = Attacking /\
    target r' = Some zergling /\
    units w' !! zergling = Some rt' /\
    health rt' = Z.max 0 (sub64 (health zerglingUnit) dmg) /\
    maxHealth rt' = maxHealth zerglingUnit.
Proof.
  refine (run_iter_Attack w_dead_attacker marine zergling
            (set_commands (mkChan inboxCapacity [attackZergling] false)
               (set_state Dead marineUnit))
            zerglingUnit attackZergling [] 0 0 _ _ _ _ _ _ _).
  - reflexivity.
  - reflexivity.
  - unfold unit_inv. cbn. auto.
  - reflexivity.
  - reflexivity.
  - reflexivity.
  - reflexivity.
Defined.

End ApiFacts.

(* ===================================================================== *)
(** * The command line program *)
(* ===================================================================== *)

Module AppFacts.

Import App.

(** X18.  [runScenario] on an application dispatches on the configured
    scenario name: each of the four names it knows prints the two lines of
    its own scenario and returns [nil]; any other name prints nothing and
    returns the error that quotes the name.  So it always returns, and the
    error is [nil] exactly for the four known names. *)
Theorem runScenario_error_iff_unknown (a : Application) :
  (Scenario (config a) = "basic-combat"%string ->
   runScenario (Some a) =
     Returned [ "Running Basic Combat Scenario...";
                "TODO: Implement basic combat - see comments for guidance" ]%string None) /\
  (Scenario (config a) = "resource-management"%string ->
   runScenario (Some a) =
     Returned [ "Running Resource Management Scenario...";
                "TODO: Implement resource management - see comments for guidance" ]%string
              None) /\
  (Scenario (config a) = "coordination-test"%string ->
   runScenario (Some a) =
     Returned [ "Running Coordination Scenario...";
                "TODO: Implement coordination - see comments for guidance" ]%string None) /\
  (Scenario (config a) = "stress-test"%string ->
   runScenario (Some a) =
     Returned [ "Running Stress Test Scenario...";
                "TODO: Implement stress test - see comments for guidance" ]%string None) /\
  (~ In (Scenario (config a)) scenarioNames ->
   runScenario (Some a) =
     Returned [] (Some ("unknown scenario: " ++ Scenario (config a))%string)) /\
  exists printed err,
    runScenario (Some a) = Returned printed err /\
    (err = None <-> In (Scenario (config a)) scenarioNames).
Proof.
  unfold runScenario, scenarioNames.
  split; [intros ->; reflexivity|]. split; [intros ->; reflexivity|].
  split; [intros ->; reflexivity|]. split; [intros ->; reflexivity|].
  destruct (String.eqb_spec (Scenario (config a)) "basic-combat") as [E1|N1].
  { split; [intros H; exfalso; apply H; rewrite E1; cbn; auto|].
    eexists _, _. split; [reflexivity|]. split; [intros _; rewrite E1; cbn; auto|reflexivity]. }
  destruct (String.eqb_spec (Scenario (config a)) "resource-management") as [E2|N2].
  { split; [intros H; exfalso; apply H; rewrite E2; cbn; auto|].
    eexists _, _. split; [reflexivity|]. split; [intros _; rewrite E2; cbn; auto|reflexivity]. }
  destruct (String.eqb_spec (Scenario (config a)) "coordination-test") as [E3|N3].
  { split; [intros H; exfalso; apply H; rewrite E3; cbn; auto|].
    eexists _, _. split; [reflexivity|]. split; [intros _; rewrite E3; cbn; auto|reflexivity]. }
  destruct (String.eqb_spec (Scenario (config a)) "stress-test") as [E4|N4].
  { split; [intros H; exfalso; apply H; rewrite E4; cbn; auto 6|].
    eexists _, _. split; [reflexivity|].
    split; [intros _; rewrite E4; cbn; auto 6|reflexivity]. }
  split; [reflexivity|].
  eexists _, _. split; [reflexivity|]. split; [discriminate|].
  cbn. intros [H|[H|[H|[H|[]]]]]; congruence.
Qed.

End AppFacts.

(* ===================================================================== *)
(** * Distances *)
(* ===================================================================== *)

Module GeometryFacts.

Import Types Geometry SpecFloat FloatOps FloatAxioms.

Section Spec.

Variables prec emax : Z.

(** Rounding does not look at the sign. *)
Lemma binary_round_aux_opp s m e l :
  SFabs (binary_round_aux prec emax (negb s) m e l) = SFabs (binary_round_aux prec emax s m e l).
Proof.
  unfold binary_round_aux.
  destruct (shr_fexp prec emax m e l) as [mrs' e'].
  destruct (shr_fexp prec emax _ e' loc_Exact) as [mrs'' e''].
  destruct (shr_m mrs''); [reflexivity| |reflexivity].
  destruct (Z.leb e'' _); reflexivity.
Qed.

Lemma binary_normalize_opp m e :
  SFabs (binary_normalize prec emax (- m) e false) = SFabs (binary_normalize prec emax m e false).
Proof.
  destruct m as [|p|p]; [reflexivity| |].
  - change (- Z.pos p) with (Z.neg p). unfold binary_normalize, binary_round.
    destruct (shl_align p e _) as [mz ez].
    apply (binary_round_aux_opp false).
  - change (- Z.neg p) with (Z.pos p). unfold binary_normalize, binary_round.
    destruct (shl_align p e _) as [mz ez].
    symmetry. apply (binary_round_aux_opp false).
Qed.

(** [a - b] and [b - a] differ in sign at most. *)
Lemma SFsub_swap a b :
  SFabs (SFsub prec emax a b) = SFabs (SFsub prec emax b a).
Proof.
  destruct a as [sa|sa| |sa ma ea], b as [sb|sb| |sb mb eb]; cbn [SFsub SFabs];
    try reflexivity; try (destruct sa, sb; reflexivity).
  rewrite (Z.min_comm eb ea).
  rewrite <- binary_normalize_opp. f_equal. f_equal. lia.
Qed.

(** A square does not depend on the sign of its argument. *)
Lemma SFmul_self a b :
  SFabs a = SFabs b -> SFmul prec emax a a = SFmul prec emax b b.
Proof.
  destruct a as [sa|sa| |sa ma ea], b as [sb|sb| |sb mb eb]; cbn [SFabs]; intros H;
    try discriminate; cbn [SFmul]; try reflexivity;
    try (destruct sa, sb; reflexivity).
  injection H as -> ->. destruct sa, sb; reflexivity.
Qed.

Lemma SFsub_self a :
  SFsub prec emax a a =
    match a with
    | S754_zero _ | S754_finite _ _ _ => S754_zero false
    | _ => S754_nan
    end.
Proof.
  destruct a as [s|s| |s m e]; try reflexivity; try (destruct s; reflexivity).
  unfold SFsub. cbv zeta. rewrite Z.sub_diag. reflexivity.
Qed.

Lemma binary_round_aux_signed s m e l : signed s (binary_round_aux prec emax s m e l).
Proof.
  unfold binary_round_aux.
  destruct (shr_fexp prec emax m e l) as [mrs' e'].
  destruct (shr_fexp prec emax _ e' loc_Exact) as [mrs'' e''].
  destruct (shr_m mrs''); [reflexivity| |exact I].
  destruct (Z.leb e'' _); reflexivity.
Qed.

Lemma SFmul_self_signed a : signed false (SFmul prec emax a a).
Proof.
  destruct a as [s|s| |s m e]; cbn [SFmul signed]; try (destruct s; reflexivity); [exact I|].
  replace (xorb s s) with false by (destruct s; reflexivity).
  apply binary_round_aux_signed.
Qed.

Lemma SFadd_signed a b :
  signed false a -> signed false b -> signed false (SFadd prec emax a b).
Proof.
  destruct a as [sa|sa| |sa ma ea], b as [sb|sb| |sb mb eb]; cbn [signed];
    intros Ha Hb; subst; cbn [SFadd signed]; try reflexivity; try exact I.
  cbv zeta. cbn [cond_Zopp]. change (Z.pos ?a + Z.pos ?b) with (Z.pos (a + b)).
  unfold binary_normalize, binary_round.
  destruct (shl_align _ _ _) as [mz ez]. apply binary_round_aux_signed.
Qed.

Lemma SFsqrt_signed a : signed false a -> signed false (SFsqrt prec emax a).
Proof.
  destruct a as [s|s| |s m e]; cbn [signed]; intros Ha; subst; cbn [SFsqrt signed];
    try reflexivity; try exact I.
  destruct (SFsqrt_core_binary prec emax (Z.pos m) e) as [[mz ez] lz].
  apply binary_round_aux_signed.
Qed.

Lemma SFltb_signed_zero a : signed false a -> SFltb a (S754_zero false) = false.
Proof. destruct a as [s|s| |s m e]; cbn [signed]; intros Ha; subst; reflexivity. Qed.

End Spec.

Lemma SFeqb_refl a : SFeqb a a = match a with S754_nan => false | _ => true end.
Proof.
  destruct a as [s|s| |s m e]; unfold SFeqb, SFcompare; try (destruct s; reflexivity);
    try reflexivity.
  rewrite Z.compare_refl, Pos.compare_cont_refl. destruct s; reflexivity.
Qed.

Lemma is_finite_spec x :
  is_finite x = match Prim2SF x with S754_zero _ | S754_finite _ _ _ => true | _ => false end.
Proof.
  unfold is_finite, is_nan, is_infinity. rewrite !FloatAxioms.eqb_spec, abs_spec, SFeqb_refl.
  change (Prim2SF infinity) with (S754_infinity false).
  destruct (Prim2SF x) as [s|s| |s m e]; reflexivity.
Qed.

Lemma sub_self x : (x - x)%float = if is_finite x then 0%float else nan.
Proof.
  apply Prim2SF_inj. rewrite sub_spec, is_finite_spec. unfold SF64sub. rewrite SFsub_self.
  destruct (Prim2SF x); reflexivity.
Qed.

(** X19.  Distance is symmetric: [p.DistanceSq(q)] and [q.DistanceSq(p)]
    are the same float for all positions, infinite and NaN coordinates
    included, and so are [p.Distance(q)] and [q.Distance(p)]. *)
Theorem Distance_symmetric p q :
  DistanceSq p q = DistanceSq q p /\ Distance p q = Distance q p.
Proof.
  assert (H : DistanceSq p q = DistanceSq q p).
  { unfold DistanceSq. apply Prim2SF_inj.
    rewrite !add_spec, !mul_spec, !sub_spec. unfold SF64mul, SF64sub.
    f_equal; apply SFmul_self, SFsub_swap. }
  split; [exact H|]. unfold DistanceSq in H. unfold Distance. cbv zeta in *.
  rewrite H. reflexivity.
Qed.

(** X20.  The distance of a position to itself is [0] exactly when both of
    its coordinates are finite; with an infinite or NaN coordinate it is
    NaN.  The same holds for the squared distance. *)
Theorem Distance_self p :
  DistanceSq p p = (if is_finite (X p) && is_finite (Y p) then 0%float else nan) /\
  Distance p p = (if is_finite (X p) && is_finite (Y p) then 0%float else nan).
Proof.
  unfold DistanceSq, Distance. rewrite !sub_self.
  destruct (is_finite (X p)), (is_finite (Y p)); split; reflexivity.
Qed.

(** X21.  Neither [Distance] nor [DistanceSq] ever returns a negative
    number: for all positions the result is not below [0] (it is zero,
    positive, [+Inf] or NaN). *)
Theorem Distance_never_negative p q :
  (DistanceSq p q <? 0)%float = false /\ (Distance p q <? 0)%float = false.
Proof.
  unfold DistanceSq, Distance. split.
  - rewrite FloatAxioms.ltb_spec, add_spec, !mul_spec.
    change (Prim2SF 0) with (S754_zero false).
    apply SFltb_signed_zero, SFadd_signed; apply SFmul_self_signed.
  - rewrite FloatAxioms.ltb_spec, sqrt_spec, add_spec, !mul_spec.
    change (Prim2SF 0) with (S754_zero false).
    apply SFltb_signed_zero, SFsqrt_signed, SFadd_signed; apply SFmul_self_signed.
Qed.

End GeometryFacts.
